(** * ccxt-plus: planner, concurrent fetch engine and gap-filling persister

    A shallow embedding of [core/mapper.py], [core/task.py],
    [core/factory.py], [core/saver.py] and the helpers they use
    ([helpers/utils.py], [helpers/errors.py], [helpers/config.py],
    [helpers/proxy.py], the action lists of [wrapper.py]), followed by
    the properties of the specification that were checked against it
    and by further properties read off the code.

    Conventions of the embedding.
    - Python integers are [Z]; numpy's int64 time values are [Z] as well
      (the epoch-millisecond values handled here stay far from the int64
      bounds, no wrap-around is modelled).
    - A raised exception is the [inl] of a sum; objects that survive an
      exception (class attributes, the saver instance) are threaded as
      explicit state, so the state after a failure can be inspected.
    - Calls into the outside world (the remote fetch, [int()] on text,
      [datetime.strftime], the configuration file) are parameters. *)

From Stdlib Require Import ZArith Lia Ascii.
From stdpp Require Import base list gmap strings pretty sorting.

Open Scope Z_scope.

(** ** Python values shared by the components *)

Module Py.

(** The exceptions the modelled code can raise: Python built-ins and the
    classes of [helpers/errors.py] (message kept, error code fixed by the
    class). *)
Inductive exn : Type :=
| RuntimeError (message : string)
| ValueError (message : string)
| TypeError (message : string)
| AttributeError (message : string)
| KeyError (message : string)
| IndexError (message : string)
| ZeroDivisionError (message : string)
| NotImplementedError (message : string)
| ConfigurationError (message : string)
| DataFormatValidationError (message : string)
| TaskInitializationError (message : string)
| ExceedMaxMissingPointsError (message : string).

(** [helpers/utils.py]: [class DataFlag(Enum)]. *)
Inductive DataFlag : Type := NORMAL | ERROR.

(** A scalar held in a row. The code only ever inspects the time column;
    every other field is carried along untouched. *)
Inductive cell : Type :=
| CInt (z : Z)
| CStr (s : string).

Definition row : Type := list cell.

(** One element of the list returned by the remote client: a sequence
    (an OHLCV candle) or a dictionary of dictionaries (a funding-rate
    record, read as [item["info"]["fundingTime"]]). *)
Inductive entry : Type :=
| ESeq (cells : row)
| EDict (items : gmap string (gmap string cell)).

(** What a fetch hands back as data: [None] or a list. *)
Definition data : Type := option (list entry).

Definition result (A : Type) : Type := exn + A.

(** [range(start, stop, step)] materialised as a list. *)
Definition range_len (start stop step : Z) : Z :=
  if 0 <? step then Z.max 0 ((stop - start + step - 1) `div` step)
  else Z.max 0 ((start - stop - step - 1) `div` (- step)).

Definition range (start stop step : Z) : result (list Z) :=
  if step =? 0 then inl (ValueError "range() arg 3 must not be zero")
  else inr ((λ i, start + i * step) <$> seqZ 0 (range_len start stop step)).

End Py.
Export Py.

#[global] Instance exn_eq_dec : EqDecision exn.
Proof. solve_decision. Defined.
#[global] Instance DataFlag_eq_dec : EqDecision DataFlag.
Proof. solve_decision. Defined.
#[global] Instance cell_eq_dec : EqDecision cell.
Proof. solve_decision. Defined.
#[global] Instance cell_inhabited : Inhabited cell := populate (CInt 0).

(** ** [core/mapper.py] *)

Module Mapper.

Inductive cls : Type := BaseMapper | OHLCVMapper | FundingRateHistoryMapper.

Definition name (c : cls) : string :=
  match c with
  | BaseMapper => "BaseMapper"
  | OHLCVMapper => "OHLCVMapper"
  | FundingRateHistoryMapper => "FundingRateHistoryMapper"
  end.

(** Method resolution order: the class, then its bases. *)
Definition mro (c : cls) : list cls :=
  match c with
  | BaseMapper => [BaseMapper]
  | _ => [c; BaseMapper]
  end.

(** The [columns] class variable. *)
Definition columns (c : cls) : option (list string) :=
  match c with
  | BaseMapper => None
  | OHLCVMapper => Some ["time"; "open"; "high"; "low"; "close"]
  | FundingRateHistoryMapper => Some ["time"; "rate"]
  end.

Definition time_column_index (c : cls) : nat := 0.

(** The [_validated] entries of the class dictionaries, keyed by class
    name. The class body of [BaseMapper] holds [_validated = False];
    [cls._validated = True] writes into the dictionary of [cls]. *)
Abbreviation store := (gmap string bool).

Definition initial : store := {[ "BaseMapper" := false ]}.

(** Reading [cls._validated] walks the MRO. *)
Definition get_validated (σ : store) (c : cls) : bool :=
  default false (list_find (λ b : option bool, is_Some b) ((λ k, σ !! name k) <$> mro c)
                   ≫= snd).

Definition set_validated (c : cls) (σ : store) : store := <[ name c := true ]> σ.

(** [cls.map(data)]. *)
Definition map_entry (c : cls) (e : entry) : result row :=
  match c with
  | BaseMapper => inl (NotImplementedError "Subclasses must implement the map method")
  | OHLCVMapper =>
      match e with
      | ESeq cells => inr (take 5 cells)
      | EDict _ => inl (KeyError "slice(None, 5, None)")
      end
  | FundingRateHistoryMapper =>
      match e with
      | ESeq _ => inl (TypeError "list indices must be integers or slices, not str")
      | EDict items =>
          match items !! "info" with
          | None => inl (KeyError "info")
          | Some info =>
              match info !! "fundingTime", info !! "fundingRate" with
              | Some t, Some r => inr [t; r]
              | None, _ => inl (KeyError "fundingTime")
              | _, None => inl (KeyError "fundingRate")
              end
          end
      end
  end.

Fixpoint map_entries (c : cls) (l : list entry) : result (list row) :=
  match l with
  | [] => inr []
  | e :: l =>
      match map_entry c e with
      | inl x => inl x
      | inr r =>
          match map_entries c l with
          | inl x => inl x
          | inr rs => inr (r :: rs)
          end
      end
  end.

Definition map (c : cls) (l : list entry) : result (list row) :=
  match c with
  | BaseMapper => inl (NotImplementedError "Subclasses must implement the map method")
  | _ => map_entries c l
  end.

(** [cls.validate(data)]: the state is the class-attribute store. *)
Definition validate (c : cls) (rows : list row) (σ : store) : store * result bool :=
  if negb (get_validated σ c) then
    match columns c with
    | None =>
        (σ, inl (NotImplementedError "Subclasses must define the `columns` class variable"))
    | Some cols =>
        match list_find (λ r : row, length r ≠ length cols) rows with
        | Some (_, r) =>
            (σ, inl (DataFormatValidationError
                       ("Row length " +:+ pretty (length r) +:+
                        " does not match expected columns " +:+ pretty (length cols))))
        | None => (set_validated c σ, inr true)
        end
    end
  else (σ, inr true).

(** [cls.map_with_validation(data)]. *)
Definition map_with_validation (c : cls) (d : data) (σ : store)
  : store * result (list row) :=
  match d with
  | None => (σ, inl (ValueError "Data has a bad type:<class 'NoneType'>"))
  | Some l =>
      match map c l with
      | inl x => (σ, inl x)
      | inr rows =>
          match validate c rows σ with
          | (σ', inl x) => (σ', inl x)
          | (σ', inr _) => (σ', inr rows)
          end
      end
  end.

End Mapper.

(** ** [core/mapper.py]: the classes derived from [BaseMapper]

    [BaseMapper] is written to be subclassed, and the wrapper takes any
    mapper class, so [validate] is not only called on the three classes
    of the module. A class is known to it by its name, by the names of the
    classes that follow it in its method resolution order, and by the
    [columns] it resolves to. *)
Module Hierarchy.

Record cls : Type := {
  name : string;
  bases : list string;
  columns : option (list string);
}.

Definition mro (c : cls) : list string := name c :: bases c.

(** Reading [cls._validated]: the entry of the first class of the MRO
    whose dictionary has one. *)
Definition get_validated (σ : gmap string bool) (c : cls) : bool :=
  default false (list_find (λ b : option bool, is_Some b) ((λ k, σ !! k) <$> mro c)
                   ≫= snd).

(** [cls._validated = True] writes into the dictionary of [cls]. *)
Definition set_validated (c : cls) (σ : gmap string bool) : gmap string bool :=
  <[ name c := true ]> σ.

(** [cls.validate(data)] *)
Definition validate (c : cls) (rows : list row) (σ : gmap string bool)
  : gmap string bool * result bool :=
  if negb (get_validated σ c) then
    match columns c with
    | None =>
        (σ, inl (NotImplementedError "Subclasses must define the `columns` class variable"))
    | Some cols =>
        match list_find (λ r : row, length r ≠ length cols) rows with
        | Some (_, r) =>
            (σ, inl (DataFormatValidationError
                       ("Row length " +:+ pretty (length r) +:+
                        " does not match expected columns " +:+ pretty (length cols))))
        | None => (set_validated c σ, inr true)
        end
    end
  else (σ, inr true).

(** The classes of the module, as classes of the hierarchy. *)
Definition of_module (c : Mapper.cls) : cls :=
  {| name := Mapper.name c;
     bases := match c with Mapper.BaseMapper => [] | _ => ["BaseMapper"] end;
     columns := Mapper.columns c |}.

End Hierarchy.

(** ** [helpers/config.py]: the keys the core reads *)

Record Config : Type := {
  MAX_ATTEMPT_TIMES : Z;
  LOCAL_THREADS_RATIO : Z;
  CSV_CHUNK_SIZE : Z;
  ALLOW_MAX_MISSING_TIMESTAMPS : Z;
}.

(** The remote fetch, as wrapped by [_ccxt_fetch_func_wrapper]: it is
    given the [since] argument and may answer differently on every call,
    so it also reads the list of earlier calls (latest first). *)
Definition fetch_callback : Type := list Z → Z → data * DataFlag.

(** ** [core/task.py] *)

Module Task.

Record t : Type := {
  timestamp_list : option (list Z);
  online_worker_count : option Z;
  local_worker_count : option Z;
}.

(** [Task.__init__] leaves the three fields at [None]. *)
Definition new : t :=
  {| timestamp_list := None; online_worker_count := None; local_worker_count := None |}.

(** What the planner can touch outside the task object. *)
Record world : Type := {
  calls : list Z;
  sleeps : nat;
  validated : Mapper.store;
}.

Definition map_func_t : Type :=
  data → Mapper.store → Mapper.store * result (list row).

(** [test_data[i][0]]. *)
Definition first_field (e : entry) : result cell :=
  match e with
  | ESeq (c :: _) => inr c
  | ESeq [] => inl (IndexError "list index out of range")
  | EDict _ => inl (KeyError "0")
  end.

(** [abs(a - b)] on two fields. *)
Definition abs_diff (a b : cell) : result Z :=
  match a, b with
  | CInt x, CInt y => inr (Z.abs (x - y))
  | _, _ => inl (TypeError "unsupported operand type(s) for -")
  end.

(** The body of the [if] branch of the probing loop, once the page
    [page] (non-empty, first row [e0]) has been accepted. *)
Definition plan (until online local : Z) (e0 : entry) (page : list entry) (self : t)
  : t * result unit :=
  match first_field e0 with
  | inl x => (self, inl x)
  | inr a =>
      match first_field (List.last page e0) with
      | inl x => (self, inl x)
      | inr b =>
          match abs_diff a b with
          | inl x => (self, inl x)
          | inr delta =>
              match a with
              | CStr _ => (self, inl (TypeError "'str' object cannot be interpreted as an integer"))
              | CInt since =>
                  match range since until delta with
                  | inl x => (self, inl x)
                  | inr timestamp_list =>
                      ({| timestamp_list := Some timestamp_list;
                          online_worker_count := Some online;
                          local_worker_count := Some local |}, inr tt)
                  end
              end
          end
      end
  end.

Definition record_call (since : Z) (w : world) : world :=
  {| calls := since :: calls w; sleeps := sleeps w; validated := validated w |}.

Definition with_validated (σ : Mapper.store) (w : world) : world :=
  {| calls := calls w; sleeps := sleeps w; validated := σ |}.

(** [sleep(1)] *)
Definition sleep (w : world) : world :=
  {| calls := calls w; sleeps := S (sleeps w); validated := validated w |}.

(** The first two statements of the loop body: the probe and the
    optional mapping of what it returned. Rows produced by a mapper are
    sequences. *)
Definition probe (fetch_func : fetch_callback) (map_func : option map_func_t)
    (test_since : Z) (w : world) : world * DataFlag * result data :=
  let '(test_raw_data, flag) := fetch_func (calls w) test_since in
  let w := record_call test_since w in
  match map_func with
  | Some f =>
      match f test_raw_data (validated w) with
      | (σ, inl x) => (with_validated σ w, flag, inl x)
      | (σ, inr rows) => (with_validated σ w, flag, inr (Some (ESeq <$> rows)))
      end
  | None => (w, flag, inr test_raw_data)
  end.

(** The [while attempt_times:] loop. [fuel] bounds the iterations of
    the model only: [None] is a loop still running when it is used up. *)
Fixpoint probe_loop (fetch_func : fetch_callback) (map_func : option map_func_t)
    (test_since until online local : Z)
    (fuel : nat) (attempt_times : Z) (self : t) (w : world)
  : option (world * t * result unit) :=
  match fuel with
  | O => None
  | S fuel =>
      if attempt_times =? 0 then
        Some (w, self, inl (RuntimeError "Failed to generate task, maximum attempts exhausted"))
      else
        match probe fetch_func map_func test_since w with
        | (w, _, inl x) => Some (w, self, inl x)
        | (w, flag, inr test_data) =>
            let retry :=
              probe_loop fetch_func map_func test_since until online local fuel
                (attempt_times - 1) self (sleep w) in
            match flag with
            | ERROR => retry
            | NORMAL =>
                match test_data with
                | None => Some (w, self, inl (TypeError "object of type 'NoneType' has no len()"))
                | Some [] => retry
                | Some (e0 :: rest) =>
                    let '(self, r) := plan until online local e0 (e0 :: rest) self in
                    Some (w, self, r)
                end
            end
        end
  end.

(** [initialize_func], the closure built by [_build_initialize_func];
    [Task.initialize] calls it. *)
Definition initialize_func (cfg : Config) (since until thread_count : Z)
    (fetch_func : fetch_callback) (map_func : option map_func_t)
    (fuel : nat) (self : t) (w : world) : option (world * t * result unit) :=
  let online := thread_count in
  if LOCAL_THREADS_RATIO cfg =? 0 then
    Some (w, self, inl (ZeroDivisionError "integer division or modulo by zero"))
  else
    let local := Z.max 1 (thread_count `div` LOCAL_THREADS_RATIO cfg) in
    probe_loop fetch_func map_func since until online local fuel
      (MAX_ATTEMPT_TIMES cfg) self w.

End Task.

(** ** [helpers/utils.py] and the pandas/numpy operations of the persister *)

Module Frame.

(** A [pandas.DataFrame] with the saver's columns: its rows in
    positional order. Every row has one cell per column. *)
Definition t : Type := list row.

(** [pd.DataFrame(data_list, columns=columns)] for a list of rows that
    are all as wide as [columns]; pandas refuses data wider or narrower
    than the columns. (A row shorter than the widest one would be padded
    with NaN by pandas; the mapper's rows are never ragged and the model
    reports that case as the same refusal.) *)
Definition DataFrame (columns : list string) (data_list : list row) : result t :=
  if decide (Forall (λ r : row, length r = length columns) data_list)
  then inr data_list
  else inl (ValueError "columns passed do not match the width of the data").

(** [df[name].values] for the column at position [i]. *)
Definition column (i : nat) (df : t) : list cell := (λ r : row, r !!! i) <$> df.

Definition is_int (c : cell) : bool := match c with CInt _ => true | CStr _ => false end.
Definition is_str (c : cell) : bool := match c with CInt _ => false | CStr _ => true end.

(** The keys of one column can be ordered when they are all integers or
    all text. *)
Definition comparable (l : list cell) : bool := forallb is_int l || forallb is_str l.

Definition cell_le (a b : cell) : bool :=
  match a, b with
  | CInt x, CInt y => x <=? y
  | CStr s, CStr u => String.leb s u
  | _, _ => false
  end.

(** Sorting by insertion: [x] is placed before the first element it does
    not exceed, and the elements are inserted from the right. *)
Fixpoint insert_by {A : Type} (le : A → A → bool) (x : A) (l : list A) : list A :=
  match l with
  | [] => [x]
  | y :: l' => if le x y then x :: l else y :: insert_by le x l'
  end.

Definition stable_sort {A : Type} (le : A → A → bool) (l : list A) : list A :=
  foldr (insert_by le) [] l.

Definition row_le (i : nat) (r1 r2 : row) : bool := cell_le (r1 !!! i) (r2 !!! i).

(** [df.sort_values(by=name, ascending=ascending)]. The call leaves the
    sorting to pandas' default [kind], quicksort, which is not stable: the
    rows come back in the order of their keys, and the order among rows
    of equal key is the algorithm's. The embedding returns those in their
    order of arrival; no statement below rests on that choice: each
    either holds for every order among rows of equal key (rearrangement,
    ascending keys) or is about tables in which no key is repeated. For a
    descending sort pandas reverses the rows, sorts ascending and
    reverses the result. *)
Definition sort_values (i : nat) (ascending : bool) (df : t) : result t :=
  if comparable (column i df) then
    inr (if ascending then stable_sort (row_le i) df
         else rev (stable_sort (row_le i) (rev df)))
  else inl (TypeError "'<' not supported between instances of 'str' and 'int'").

(** [df.drop_duplicates(subset=[name], keep="first")]: [seen] holds the
    time values of the rows already kept. *)
Fixpoint drop_duplicates_from (i : nat) (seen : list cell) (df : t) : t :=
  match df with
  | [] => []
  | r :: df' =>
      if decide (r !!! i ∈ seen) then drop_duplicates_from i seen df'
      else r :: drop_duplicates_from i (r !!! i :: seen) df'
  end.

Definition drop_duplicates (i : nat) (df : t) : t := drop_duplicates_from i [] df.

(** [df.iloc[:-1]]. *)
Definition drop_last (df : t) : t := take (length df - 1)%nat df.

(** [np.arange(start, stop, step)] on integers. *)
Definition arange (start stop step : Z) : result (list Z) :=
  if step =? 0 then inl (ZeroDivisionError "division by zero")
  else inr ((λ k, start + k * step) <$> seqZ 0 (range_len start stop step)).

(** [np.searchsorted(arr, v)]: binary search for the leftmost insertion
    position. [fuel] is the length of [arr], more than the halvings
    need. *)
Fixpoint bisect_left (arr : list Z) (v : Z) (fuel lo hi : nat) : nat :=
  match fuel with
  | O => lo
  | S fuel =>
      if (lo <? hi)%nat then
        let mid := (lo + (hi - lo) / 2)%nat in
        if arr !!! mid <? v then bisect_left arr v fuel (S mid) hi
        else bisect_left arr v fuel lo mid
      else lo
  end.

Definition searchsorted (arr : list Z) (v : Z) : nat :=
  bisect_left arr v (length arr) 0 (length arr).

(** [min(candidates, key=lambda x: x[0])]: the first of the smallest. *)
Definition min_by_fst (c : Z * nat) (cs : list (Z * nat)) : Z * nat :=
  foldl (λ best x, if fst x <? fst best then x else best) c cs.

Definition int_of (c : cell) : option Z :=
  match c with CInt z => Some z | CStr _ => None end.

End Frame.

Module Utils.

(** [_TIMEFRAME_MAPPING]. *)
Definition TIMEFRAME_MAPPING (unit : Ascii.ascii) : option Z :=
  if decide (unit = "s"%char) then Some 1
  else if decide (unit = "m"%char) then Some 60
  else if decide (unit = "h"%char) then Some 3600
  else if decide (unit = "d"%char) then Some 86400
  else if decide (unit = "w"%char) then Some 604800
  else if decide (unit = "M"%char) then Some 2628000
  else None.

(** [(timeframe[:-1], timeframe[-1])], when there is a last character. *)
Fixpoint split_last (s : string) : option (string * Ascii.ascii) :=
  match s with
  | EmptyString => None
  | String a s' =>
      match split_last s' with
      | None => Some (EmptyString, a)
      | Some (p, z) => Some (String a p, z)
      end
  end.

Section Builtins.
(** [int(text)], and
    [datetime.fromtimestamp(seconds, tz=utc).strftime("%Y-%m-%d %H:%M:%S")]
    where the date exists. *)
Context (py_int : string → option Z) (utc_strftime : Z → option string).

Definition int_of_cell (c : cell) : result Z :=
  match c with
  | CInt z => inr z
  | CStr s =>
      match py_int s with
      | Some z => inr z
      | None => inl (ValueError ("invalid literal for int() with base 10: '" +:+ s +:+ "'"))
      end
  end.

(** [timeframe_to_timestamp(timeframe)] with the default unit ["ms"]. *)
Definition timeframe_to_timestamp (timeframe : string) : result Z :=
  match split_last timeframe with
  | None => inl (IndexError "string index out of range")
  | Some (count, unit) =>
      match TIMEFRAME_MAPPING unit with
      | None => inl (KeyError (String unit EmptyString))
      | Some seconds =>
          match int_of_cell (CStr count) with
          | inl x => inl x
          | inr n => inr (seconds * n * 1000)
          end
      end
  end.

(** [timestamp_to_datetime(timestamp)] with the default unit ["ms"];
    [int(t / 1000)] truncates the quotient. *)
Definition timestamp_to_datetime (timestamp : cell) : result string :=
  match int_of_cell timestamp with
  | inl x => inl x
  | inr z =>
      match utc_strftime (z `quot` 1000) with
      | Some text => inr text
      | None => inl (ValueError "year is out of range")
      end
  end.
End Builtins.

End Utils.

(** ** [core/saver.py] *)

Module Saver.

Inductive level : Type := LInfo | LWarning | LError | LCritical.

(** One call of the [Logger]. *)
Definition logrec : Type := level * string.

(** What a written file holds: [to_csv] output (header, rows) or the
    lines of the missing-times report. *)
Inductive file : Type :=
| CsvFile (header : list string) (rows : Frame.t)
| TextFile (lines : list string).

(** The instance attributes of a [CSVSaver], and the files below its
    work folder, keyed by path. *)
Record t : Type := {
  actions : list string;
  columns : list string;
  time_column_index : nat;
  timeframe : option string;
  _work_folder : string;
  _df : option Frame.t;
  _missing_times : option (list Z);
  files : gmap string file;
}.

Definition set_df (df : Frame.t) (self : t) : t :=
  {| actions := actions self; columns := columns self;
     time_column_index := time_column_index self; timeframe := timeframe self;
     _work_folder := _work_folder self; _df := Some df;
     _missing_times := _missing_times self; files := files self |}.

Definition set_missing_times (m : list Z) (self : t) : t :=
  {| actions := actions self; columns := columns self;
     time_column_index := time_column_index self; timeframe := timeframe self;
     _work_folder := _work_folder self; _df := _df self;
     _missing_times := Some m; files := files self |}.

Definition set_file (path : string) (f : file) (self : t) : t :=
  {| actions := actions self; columns := columns self;
     time_column_index := time_column_index self; timeframe := timeframe self;
     _work_folder := _work_folder self; _df := _df self;
     _missing_times := _missing_times self; files := <[ path := f ]> (files self) |}.

(** A method of the saver: it may change the instance, logs, and
    returns or raises. The instance is kept when it raises. *)
Definition M (A : Type) : Type := t → t * list logrec * result A.

Definition ret {A : Type} (a : A) : M A := λ self, (self, [], inr a).

Definition bind {A B : Type} (m : M A) (k : A → M B) : M B := λ self,
  match m self with
  | (self', log, inl x) => (self', log, inl x)
  | (self', log, inr a) =>
      match k a self' with
      | (self'', log', r) => (self'', log ++ log', r)
      end
  end.

Definition raise {A : Type} (x : exn) : M A := λ self, (self, [], inl x).
Definition lift {A : Type} (r : result A) : M A := λ self, (self, [], r).
Definition get : M t := λ self, (self, [], inr self).
Definition modify (f : t → t) : M unit := λ self, (f self, [], inr tt).
Definition tell (l : level) (msg : string) : M unit := λ self, (self, [(l, msg)], inr tt).

#[local] Notation "'let*' x ':=' m 'in' k" := (bind m (λ x, k))
  (at level 10, x name, m at level 100, k at level 200).
#[local] Notation "m >> k" := (bind m (λ _, k))
  (at level 100, k at level 200, right associativity).

(** Reading [self._df] in order to call [attr] on it. *)
Definition get_df (attr : string) : M Frame.t :=
  let* self := get in
  match _df self with
  | None => raise (AttributeError ("'NoneType' object has no attribute '" +:+ attr +:+ "'"))
  | Some df => ret df
  end.

Definition message_of (x : exn) : string :=
  match x with
  | RuntimeError m | ValueError m | TypeError m | AttributeError m | KeyError m
  | IndexError m | ZeroDivisionError m | NotImplementedError m | ConfigurationError m
  | DataFormatValidationError m | TaskInitializationError m
  | ExceedMaxMissingPointsError m => m
  end.

Fixpoint traverse {A B : Type} (f : A → result B) (l : list A) : result (list B) :=
  match l with
  | [] => inr []
  | a :: l =>
      match f a with
      | inl x => inl x
      | inr b =>
          match traverse f l with
          | inl x => inl x
          | inr bs => inr (b :: bs)
          end
      end
  end.

Definition list_min (l : list Z) : Z :=
  match l with [] => 0 | x :: l' => foldr Z.min x l' end.
Definition list_max (l : list Z) : Z :=
  match l with [] => 0 | x :: l' => foldr Z.max x l' end.

(** The local [missing_timestamps] of [_initialize_missing_times], from
    the (int64) time column and the step. *)
Definition missing_timestamps (times : list Z) (delta_timestamp : Z) : result (gset Z) :=
  let min_time := list_min times in
  let max_time := list_max times in
  match Frame.arange min_time (max_time + delta_timestamp) delta_timestamp with
  | inl x => inl x
  | inr expected_timestamps =>
      let existing_timestamps : gset Z := list_to_set times in
      inr (list_to_set expected_timestamps ∖ existing_timestamps)
  end.

(** The body of the loop of [_fix_data_integrity] for one missing
    timestamp: the row to add. *)
Definition synthesize (i : nat) (df : Frame.t) (arr : list Z) (missing_ts : Z)
  : result row :=
  let insert_pos := Frame.searchsorted arr missing_ts in
  let candidates :=
    (if (0 <? insert_pos)%nat
     then [(Z.abs (arr !!! (insert_pos - 1)%nat - missing_ts), (insert_pos - 1)%nat)]
     else []) ++
    (if (insert_pos <? length arr)%nat
     then [(Z.abs (arr !!! insert_pos - missing_ts), insert_pos)]
     else []) in
  match candidates with
  | [] => inl (ValueError "min() arg is an empty sequence")
  | c :: cs =>
      let closest_idx := snd (Frame.min_by_fst c cs) in
      let closest_data : row := df !!! closest_idx in
      inr (<[ i := CInt missing_ts ]> closest_data)
  end.

(** [for i in range(0, len(df), chunk_size)]: the chunk files. *)
Fixpoint write_chunks (folder : string) (header : list string) (df : Frame.t)
    (chunk_size : nat) (starts : list Z) (file_count : nat) (fs : gmap string file)
  : gmap string file * nat :=
  match starts with
  | [] => (fs, file_count)
  | i :: starts =>
      let chunk := take chunk_size (drop (Z.to_nat i) df) in
      let output_file := folder +:+ "/" +:+ pretty file_count +:+ ".csv" in
      write_chunks folder header df chunk_size starts (S file_count)
        (<[ output_file := CsvFile header chunk ]> fs)
  end.

Section Methods.
Context (py_int : string → option Z) (utc_strftime : Z → option string)
        (cfg : Config).

(** [_sort] *)
Definition _sort (ascending : bool) : M unit :=
  let* df := get_df "sort_values" in
  let* self := get in
  let* df' := lift (Frame.sort_values (time_column_index self) ascending df) in
  modify (set_df df').

(** [_drop_duplicates] *)
Definition _drop_duplicates : M unit :=
  let* df := get_df "drop_duplicates" in
  let* self := get in
  modify (set_df (Frame.drop_duplicates (time_column_index self) df)).

(** [_drop_last] *)
Definition _drop_last : M unit :=
  let* df := get_df "iloc" in
  modify (set_df (Frame.drop_last df)).

(** [_transfer_time] *)
Definition _transfer_time : M unit :=
  let* df := get_df "__getitem__" in
  let* self := get in
  let i := time_column_index self in
  let* texts := lift (traverse (Utils.timestamp_to_datetime py_int utc_strftime)
                  (Frame.column i df)) in
  modify (set_df (zip_with (λ (r : row) s, <[ i := CStr s ]> r) df texts)).

(** [_initialize_missing_times] *)
Definition _initialize_missing_times : M bool :=
  let* self := get in
  match _missing_times self with
  | Some _ => ret true
  | None =>
      match timeframe self with
      | None => raise (ValueError "Missing timeframe, cannot retrieve missing times")
      | Some tf =>
          let* df := get_df "empty" in
          match df with
          | [] => tell LWarning "No data available, no missing points exist" >> ret false
          | _ :: _ =>
              let i := time_column_index self in
              let* times := lift (traverse (Utils.int_of_cell py_int) (Frame.column i df)) in
              modify (set_df (zip_with (λ (r : row) z, <[ i := CInt z ]> r) df times)) >>
              let* delta_timestamp := lift (Utils.timeframe_to_timestamp py_int tf) in
              let* missing := lift (missing_timestamps times delta_timestamp) in
              if decide (missing = ∅) then
                tell LInfo "All expected time points are present" >>
                modify (set_missing_times []) >>
                ret true
              else if ALLOW_MAX_MISSING_TIMESTAMPS cfg <? Z.of_nat (size missing) then
                raise (ExceedMaxMissingPointsError
                         ("Too many missing time points: " +:+ pretty (size missing)))
              else
                tell LInfo ("Total " +:+ pretty (size missing) +:+ " missing data points") >>
                modify (set_missing_times (merge_sort Z.le (elements missing))) >>
                ret true
          end
      end
  end.

(** [_append_data]: the [try] swallows what pandas raises. *)
Definition _append_data (data_list : list row) : M unit :=
  let* self := get in
  match Frame.DataFrame (columns self) data_list with
  | inl e => tell LError ("An error occurs when appending data: " +:+ message_of e)
  | inr new_df =>
      match _df self with
      | None => modify (set_df new_df)
      | Some df => modify (set_df (df ++ new_df))
      end
  end.

(** [_fix_data_integrity] *)
Definition _fix_data_integrity : M unit :=
  let* ok := _initialize_missing_times in
  if negb ok then ret tt else
  let* self := get in
  match _missing_times self with
  | None => raise (TypeError "object of type 'NoneType' has no len()")
  | Some [] => ret tt
  | Some (m :: ms) =>
      let* df := get_df "__getitem__" in
      let i := time_column_index self in
      match traverse (λ c, from_option inr (inl (TypeError "'<' not supported between instances of 'str' and 'int'")) (Frame.int_of c)) (Frame.column i df) with
      | inl x => raise x
      | inr arr =>
          let* new_data := lift (traverse (synthesize i df arr) (m :: ms)) in
          match new_data with
          | [] => ret tt
          | _ :: _ => _append_data new_data >> _sort true
          end
      end
  end.

(** The [for] loop of [_save_missing_times]: the lines written so far
    stay in the file when a conversion raises. *)
Fixpoint missing_lines (missing : list Z) : list string * result unit :=
  match missing with
  | [] => ([], inr tt)
  | missing_timestamp :: rest =>
      match Utils.timestamp_to_datetime py_int utc_strftime (CInt missing_timestamp) with
      | inl x => ([], inl x)
      | inr missing_time =>
          let '(lines, r) := missing_lines rest in
          ((missing_time +:+ " (" +:+ pretty missing_timestamp +:+ ")") :: lines, r)
      end
  end.

(** [_save_missing_times] *)
Definition _save_missing_times : M unit :=
  let* ok := _initialize_missing_times in
  if negb ok then ret tt else
  let* self := get in
  match _missing_times self with
  | None => raise (TypeError "object of type 'NoneType' has no len()")
  | Some [] => ret tt
  | Some (m :: ms) =>
      let file_name := _work_folder self +:+ "/" +:+ "missingtimes.txt" in
      let '(lines, r) := missing_lines (m :: ms) in
      modify (set_file file_name (TextFile lines)) >>
      lift r >>
      tell LInfo ("Missing times saved in " +:+ file_name)
  end.

(** [_save_file] *)
Definition _save_file : M unit :=
  let* self := get in
  match _df self with
  | None => raise (TypeError "object of type 'NoneType' has no len()")
  | Some df =>
      let chunk_size := CSV_CHUNK_SIZE cfg in
      let* starts := lift (range 0 (Z.of_nat (length df)) chunk_size) in
      let '(fs, file_count) :=
        write_chunks (_work_folder self) (columns self) df (Z.to_nat chunk_size)
          starts 0%nat (files self) in
      modify (λ self, {| actions := actions self; columns := columns self;
                         time_column_index := time_column_index self;
                         timeframe := timeframe self;
                         _work_folder := _work_folder self; _df := _df self;
                         _missing_times := _missing_times self; files := fs |}) >>
      tell LInfo ("Created " +:+ pretty file_count +:+ " file" +:+
                  (if (1 <? file_count)%nat then "s" else "") +:+
                  " in " +:+ _work_folder self)
  end.

(** [self._actions]: the methods tagged with [@_id], by id. *)
Definition _actions (action : string) : option (M unit) :=
  if decide (action = "sort") then Some (_sort true)
  else if decide (action = "drop_duplicates") then Some _drop_duplicates
  else if decide (action = "drop_last") then Some _drop_last
  else if decide (action = "transfer_time") then Some _transfer_time
  else if decide (action = "fix_integrity") then Some _fix_data_integrity
  else if decide (action = "save_missing_times") then Some _save_missing_times
  else None.

(** The [for action in self.actions] loop of [save]. *)
Fixpoint run_actions (l : list string) : M unit :=
  match l with
  | [] => ret tt
  | action :: l =>
      match _actions action with
      | Some func => func
      | None => tell LWarning ("Cannot find action: " +:+ action)
      end >>
      run_actions l
  end.

(** [save] *)
Definition save (processed_data : list row) : M unit :=
  _append_data processed_data >>
  let* self := get in
  run_actions (actions self) >>
  _save_file.

End Methods.

End Saver.

(** ** [core/factory.py]

    The engine runs one main thread and two pools of worker threads over
    shared objects. It is embedded as an interleaving semantics: a state
    holds the shared objects and the position of every thread in its own
    code, and [step] executes the next atomic action of one chosen thread
    (an operation on a [queue.Queue], a read or write of a shared field, a
    call of the fetch collaborator). A schedule is the list of the threads
    chosen; the properties of [complete] quantify over schedules. *)

Module Factory.

(** A [queue.Queue]: the items waiting, oldest first ([None] is the
    shutdown sentinel), and the counter [unfinished_tasks] that [put]
    increments, [task_done] decrements and [join] waits on. *)
Record queue (A : Type) : Type := {
  items : list (option A);
  unfinished_tasks : nat;
}.
Arguments items {A} _.
Arguments unfinished_tasks {A} _.

Definition put {A : Type} (x : option A) (q : queue A) : queue A :=
  {| items := items q ++ [x]; unfinished_tasks := S (unfinished_tasks q) |}.

Definition task_done {A : Type} (q : queue A) : queue A :=
  {| items := items q; unfinished_tasks := pred (unfinished_tasks q) |}.

(** [(ts, attempt_times)] and [(ts, data, flag, attempt_times)]. *)
Definition unit_item : Type := Z * Z.
Definition fetched_item : Type := Z * data * DataFlag * Z.

(** Where a thread running [_online_worker] stands. *)
Inductive online_pc : Type :=
| OLoop                                   (* the [while] test of the stop event *)
| OGet                                    (* blocked in [_online_queue.get()] *)
| OSentinel                               (* got [None]: [task_done()], [break] *)
| OCheck (ts attempt_times : Z)           (* [if attempt_times > self.max_attempts] *)
| OFetch (ts attempt_times : Z)           (* [self.fetch_data_callback(since=ts)] *)
| OPut (ts : Z) (d : data) (flag : DataFlag) (attempt_times : Z)
                                          (* [_local_queue.put(...)] *)
| OAck                                    (* [_online_queue.task_done()] *)
| ODone.

(** Where a thread running [_local_worker] stands. *)
Inductive local_pc : Type :=
| LLoop
| LGet
| LSentinel
| LProcess (ts : Z) (d : data) (flag : DataFlag) (attempt_times : Z)
| LAck
| LDone.

(** Where the thread that called [complete] stands, from the first
    [join] on. *)
Inductive main_pc : Type :=
| MJoinOnline                             (* [_online_queue.join()] *)
| MJoinLocal                              (* [_local_queue.join()] *)
| MStopLocalPut (remaining : nat)         (* [_stop_threads]: [queue.put(None)] *)
| MStopLocalJoin (next : nat)             (* [_stop_threads]: [t.join()] *)
| MStopOnlinePut (remaining : nat)
| MStopOnlineJoin (next : nat)
| MCheckInfo                              (* [if self._abnormal_termination_info] *)
| MReturned (rows : list entry)
| MRaised (x : exn).

Record state : Type := {
  _online_queue : queue unit_item;
  _local_queue : queue fetched_item;
  _stop_event : bool;
  _abnormal_termination_info : option string;
  _cached_raw_data : list entry;
  calls : list Z;
  online_threads : list online_pc;
  local_threads : list local_pc;
  main : main_pc;
}.

Inductive thread : Type := Main | Online (i : nat) | Local (i : nat).

Definition with_online (q : queue unit_item) (s : state) : state :=
  {| _online_queue := q; _local_queue := _local_queue s; _stop_event := _stop_event s;
     _abnormal_termination_info := _abnormal_termination_info s;
     _cached_raw_data := _cached_raw_data s; calls := calls s;
     online_threads := online_threads s; local_threads := local_threads s;
     main := main s |}.

Definition with_local (q : queue fetched_item) (s : state) : state :=
  {| _online_queue := _online_queue s; _local_queue := q; _stop_event := _stop_event s;
     _abnormal_termination_info := _abnormal_termination_info s;
     _cached_raw_data := _cached_raw_data s; calls := calls s;
     online_threads := online_threads s; local_threads := local_threads s;
     main := main s |}.

Definition with_online_pc (i : nat) (pc : online_pc) (s : state) : state :=
  {| _online_queue := _online_queue s; _local_queue := _local_queue s;
     _stop_event := _stop_event s;
     _abnormal_termination_info := _abnormal_termination_info s;
     _cached_raw_data := _cached_raw_data s; calls := calls s;
     online_threads := <[ i := pc ]> (online_threads s);
     local_threads := local_threads s; main := main s |}.

Definition with_local_pc (i : nat) (pc : local_pc) (s : state) : state :=
  {| _online_queue := _online_queue s; _local_queue := _local_queue s;
     _stop_event := _stop_event s;
     _abnormal_termination_info := _abnormal_termination_info s;
     _cached_raw_data := _cached_raw_data s; calls := calls s;
     online_threads := online_threads s;
     local_threads := <[ i := pc ]> (local_threads s); main := main s |}.

Definition with_main (pc : main_pc) (s : state) : state :=
  {| _online_queue := _online_queue s; _local_queue := _local_queue s;
     _stop_event := _stop_event s;
     _abnormal_termination_info := _abnormal_termination_info s;
     _cached_raw_data := _cached_raw_data s; calls := calls s;
     online_threads := online_threads s; local_threads := local_threads s;
     main := pc |}.

(** The message written into [_abnormal_termination_info]. *)
Definition exhaustion_message (ts attempt_times : Z) : string :=
  "Exceeded max attempts (" +:+ pretty (attempt_times - 1) +:+
  ") for timestamp (" +:+ pretty ts +:+ ").".

(** The block under [with self._lock] in [_online_worker]. *)
Definition exceeded (ts attempt_times : Z) (s : state) : state :=
  {| _online_queue := _online_queue s; _local_queue := _local_queue s;
     _stop_event := true;
     _abnormal_termination_info :=
       match _abnormal_termination_info s with
       | None => Some (exhaustion_message ts attempt_times)
       | Some info => Some info
       end;
     _cached_raw_data := _cached_raw_data s; calls := calls s;
     online_threads := online_threads s; local_threads := local_threads s;
     main := main s |}.

Definition record_call (ts : Z) (s : state) : state :=
  {| _online_queue := _online_queue s; _local_queue := _local_queue s;
     _stop_event := _stop_event s;
     _abnormal_termination_info := _abnormal_termination_info s;
     _cached_raw_data := _cached_raw_data s; calls := ts :: calls s;
     online_threads := online_threads s; local_threads := local_threads s;
     main := main s |}.

Definition extend (rows : list entry) (s : state) : state :=
  {| _online_queue := _online_queue s; _local_queue := _local_queue s;
     _stop_event := _stop_event s;
     _abnormal_termination_info := _abnormal_termination_info s;
     _cached_raw_data := _cached_raw_data s ++ rows; calls := calls s;
     online_threads := online_threads s; local_threads := local_threads s;
     main := main s |}.

Section Engine.
Context (fetch_data_callback : fetch_callback) (max_attempts : Z).

(** One action of a thread running [_online_worker]. *)
Definition online_step (i : nat) (pc : online_pc) (s : state) : option state :=
  match pc with
  | OLoop =>
      Some (with_online_pc i (if _stop_event s then ODone else OGet) s)
  | OGet =>
      match items (_online_queue s) with
      | [] => None
      | item :: rest =>
          let q := {| items := rest;
                      unfinished_tasks := unfinished_tasks (_online_queue s) |} in
          Some (with_online_pc i
                  match item with
                  | None => OSentinel
                  | Some (ts, attempt_times) => OCheck ts attempt_times
                  end (with_online q s))
      end
  | OSentinel =>
      Some (with_online_pc i ODone (with_online (task_done (_online_queue s)) s))
  | OCheck ts attempt_times =>
      Some (with_online_pc i (OFetch ts attempt_times)
              (if max_attempts <? attempt_times then exceeded ts attempt_times s else s))
  | OFetch ts attempt_times =>
      let '(d, flag) := fetch_data_callback (calls s) ts in
      Some (with_online_pc i (OPut ts d flag attempt_times) (record_call ts s))
  | OPut ts d flag attempt_times =>
      Some (with_online_pc i OAck
              (with_local (put (Some (ts, d, flag, attempt_times + 1)) (_local_queue s)) s))
  | OAck =>
      Some (with_online_pc i OLoop (with_online (task_done (_online_queue s)) s))
  | ODone => None
  end.

(** One action of a thread running [_local_worker]. *)
Definition local_step (i : nat) (pc : local_pc) (s : state) : option state :=
  match pc with
  | LLoop =>
      Some (with_local_pc i (if _stop_event s then LDone else LGet) s)
  | LGet =>
      match items (_local_queue s) with
      | [] => None
      | item :: rest =>
          let q := {| items := rest;
                      unfinished_tasks := unfinished_tasks (_local_queue s) |} in
          Some (with_local_pc i
                  match item with
                  | None => LSentinel
                  | Some (ts, d, flag, attempt_times) => LProcess ts d flag attempt_times
                  end (with_local q s))
      end
  | LSentinel =>
      Some (with_local_pc i LDone (with_local (task_done (_local_queue s)) s))
  | LProcess ts d flag attempt_times =>
      Some (with_local_pc i LAck
              match flag with
              | NORMAL =>
                  match d with
                  | Some (e :: rows) => extend (e :: rows) s
                  | Some [] | None => s
                  end
              | ERROR =>
                  with_online (put (Some (ts, attempt_times)) (_online_queue s)) s
              end)
  | LAck =>
      Some (with_local_pc i LLoop (with_local (task_done (_local_queue s)) s))
  | LDone => None
  end.

(** One action of the thread inside [complete]. *)
Definition main_step (pc : main_pc) (s : state) : option state :=
  match pc with
  | MJoinOnline =>
      match unfinished_tasks (_online_queue s) with
      | O => Some (with_main MJoinLocal s)
      | S _ => None
      end
  | MJoinLocal =>
      match unfinished_tasks (_local_queue s) with
      | O => Some (with_main (MStopLocalPut (length (local_threads s))) s)
      | S _ => None
      end
  | MStopLocalPut (S k) =>
      Some (with_main (MStopLocalPut k) (with_local (put None (_local_queue s)) s))
  | MStopLocalPut O => Some (with_main (MStopLocalJoin 0) s)
  | MStopLocalJoin k =>
      match local_threads s !! k with
      | None => Some (with_main (MStopOnlinePut (length (online_threads s))) s)
      | Some LDone => Some (with_main (MStopLocalJoin (S k)) s)
      | Some _ => None
      end
  | MStopOnlinePut (S k) =>
      Some (with_main (MStopOnlinePut k) (with_online (put None (_online_queue s)) s))
  | MStopOnlinePut O => Some (with_main (MStopOnlineJoin 0) s)
  | MStopOnlineJoin k =>
      match online_threads s !! k with
      | None => Some (with_main MCheckInfo s)
      | Some ODone => Some (with_main (MStopOnlineJoin (S k)) s)
      | Some _ => None
      end
  | MCheckInfo =>
      Some (with_main
              match _abnormal_termination_info s with
              | Some info =>
                  if decide (info = "") then MReturned (_cached_raw_data s)
                  else MRaised (RuntimeError info)
              | None => MReturned (_cached_raw_data s)
              end s)
  | MReturned _ | MRaised _ => None
  end.

(** The next action of thread [t]; [None] when [t] is blocked, has
    finished or does not exist. *)
Definition step (t : thread) (s : state) : option state :=
  match t with
  | Main => main_step (main s) s
  | Online i => pc ← online_threads s !! i; online_step i pc s
  | Local i => pc ← local_threads s !! i; local_step i pc s
  end.

(** Running a schedule. *)
Fixpoint run (schedule : list thread) (s : state) : option state :=
  match schedule with
  | [] => Some s
  | t :: schedule => s' ← step t s; run schedule s'
  end.

End Engine.

(** The state in which [complete(task)] reaches its first [join]:
    [_initialize_flow_line] has queued [(ts, 0)] for every timestamp and
    [_start_workers] has started the threads (a thread that has not run
    yet stands at its loop test). *)
Definition started (timestamp_list : list Z) (online_worker_count local_worker_count : Z)
  : state :=
  {| _online_queue := {| items := (λ ts, Some (ts, 0)) <$> timestamp_list;
                         unfinished_tasks := length timestamp_list |};
     _local_queue := {| items := []; unfinished_tasks := 0 |};
     _stop_event := false;
     _abnormal_termination_info := None;
     _cached_raw_data := [];
     calls := [];
     online_threads := replicate (Z.to_nat online_worker_count) OLoop;
     local_threads := replicate (Z.to_nat local_worker_count) LLoop;
     main := MJoinOnline |}.

(** [complete(task)] on a fresh [Factory]: the outcomes some schedule
    leads to. *)
Definition complete (fetch_data_callback : fetch_callback) (max_attempts : Z)
    (task : Task.t) (schedule : list thread) : option state :=
  match Task.timestamp_list task, Task.online_worker_count task,
        Task.local_worker_count task with
  | Some l, Some n, Some m => run fetch_data_callback max_attempts schedule (started l n m)
  | _, _, _ => None
  end.

End Factory.

(** ** [helpers/utils.py]: [class Labels] *)

Module Labels.

(** [label.replace("/", "-")]: every ["/"] of the text becomes ["-"]. *)
Fixpoint replace_slash (label : string) : string :=
  match label with
  | EmptyString => EmptyString
  | String c rest =>
      String (if decide (c = "/"%char) then "-"%char else c) (replace_slash rest)
  end.

(** The [labels] attribute. *)
Definition t : Type := list string.

(** [Labels.__init__], called with any number of labels. An argument
    is a text or [None] (the wrapper passes
    [options.get("defaultType")]); [None] has no [replace]. *)
Fixpoint new (labels : list (option string)) : result t :=
  match labels with
  | [] => inr []
  | None :: _ => inl (AttributeError "'NoneType' object has no attribute 'replace'")
  | Some label :: labels =>
      match new labels with
      | inl x => inl x
      | inr self => inr (replace_slash label :: self)
      end
  end.

(** ["_".join(self.labels)] *)
Fixpoint join (sep : string) (parts : list string) : string :=
  match parts with
  | [] => ""
  | [part] => part
  | part :: parts => part +:+ sep +:+ join sep parts
  end.

Definition __str__ (self : t) : string := join "_" self.

(** [__iter__] yields the labels in order. *)
Definition __iter__ (self : t) : list string := self.

End Labels.

(** ** [core/saver.py]: [CSVSaver.__init__] *)

Module Path.

Definition starts_with_sep (s : string) : bool :=
  match s with
  | String c _ => bool_decide (c = "/"%char)
  | EmptyString => false
  end.

Fixpoint ends_with_sep (s : string) : bool :=
  match s with
  | EmptyString => false
  | String c EmptyString => bool_decide (c = "/"%char)
  | String _ rest => ends_with_sep rest
  end.

(** [os.path.join] of [a] and the components [p], as [posixpath]
    defines it: a component that
    starts with the separator discards what came before; otherwise the
    component is appended, after a separator unless the path is empty or
    ends with one. *)
Definition join (a : string) (p : list string) : string :=
  foldl (λ path b,
           if starts_with_sep b then b
           else if bool_decide (path = "") || ends_with_sep path then path +:+ b
           else path +:+ "/" +:+ b) a p.

End Path.

Module SaverInit.



End SaverInit.

(** ** [helpers/errors.py] *)

Module Errors.

Inductive cls : Type :=
| BaseError
| ConfigurationError
| DataFormatValidationError
| TaskInitializationError
| ExceedMaxMissingPointsError.

(** The attributes [message] and [code] of an error object. *)
Record t : Type := {
  class : cls;
  message : string;
  code : option Z;
}.

(** [message or default]: [None] and the empty text are false. *)
Definition or_else (message : option string) (default : string) : string :=
  match message with
  | Some (String c rest) => String c rest
  | Some EmptyString | None => default
  end.

(** [BaseError.__init__(self, message, code)] *)
Definition BaseError__init__ (c : cls) (message : option string) (code : option Z) : t :=
  {| class := c; message := or_else message "An error occurred"; code := code |}.

(** The defaults in the signatures of the subclasses. *)
Definition default_message (c : cls) : string :=
  match c with
  | BaseError => "An error occurred"
  | ConfigurationError => "Configuration error occurred"
  | DataFormatValidationError => "Data format validation error occurred"
  | TaskInitializationError => "Task initialization failed"
  | ExceedMaxMissingPointsError => "Exceeded max missing points"
  end.

Definition default_code (c : cls) : option Z :=
  match c with
  | BaseError => None
  | ConfigurationError => Some 1001
  | DataFormatValidationError => Some 1002
  | TaskInitializationError => Some 1003
  | ExceedMaxMissingPointsError => Some 1005
  end.

(** [cls(message, code)]: a subclass hands [message or <its default>]
    and the code to [BaseError.__init__]. *)
Definition new (c : cls) (message : option string) (code : option Z) : t :=
  match c with
  | BaseError => BaseError__init__ c message code
  | _ => BaseError__init__ c (Some (or_else message (default_message c))) code
  end.

(** [cls(message)], as every [raise] of the repository builds its
    error: the code is the default of the class. *)
Definition raised (c : cls) (message : option string) : t :=
  new c message (default_code c).

(** [__str__]: the code is shown when it is true, that is, neither
    [None] nor zero. *)
Definition __str__ (self : t) : string :=
  match code self with
  | Some k =>
      if k =? 0 then message self
      else "[Error Code: " +:+ pretty k +:+ "] " +:+ message self
  | None => message self
  end.

End Errors.

(** ** [helpers/config.py]: [_ConfigMeta] *)

Module ConfigMeta.

Section Values.
(** The values of the configuration file are left abstract. *)
Context {V : Type}.

(** What [yaml.safe_load] returns for the file: [None] for an empty
    document, or a mapping. (The file, when it exists, is taken to be a
    YAML document of one of these two kinds.) *)
Inductive document : Type :=
| Empty
| Mapping (entries : gmap string V).

(** The file [config/config.yml]: absent, or a document. *)
Definition file : Type := option document.

(** The class attribute [_config]. *)
Definition state : Type := option (gmap string V).

Definition initial : state := None.

(** [initialize(cls)] *)
Definition initialize (fs : file) (_config : state) : state * result unit :=
  match _config with
  | Some _ => (_config, inr tt)
  | None =>
      match fs with
      | None =>
          (None, inl (Py.ConfigurationError
                        "Configuration file not found: config/config.yml"))
      | Some Empty => (None, inr tt)
      | Some (Mapping entries) => (Some entries, inr tt)
      end
  end.

(** [Config(config_name)], that is [_ConfigMeta.__call__]. *)
Definition __call__ (fs : file) (config_name : string) (_config : state)
  : state * result (option V) :=
  match initialize fs _config with
  | (_config, inl x) => (_config, inl x)
  | (_config, inr _) =>
      match _config with
      | None => (_config, inl (AttributeError "'NoneType' object has no attribute 'get'"))
      | Some entries => (_config, inr (entries !! config_name))
      end
  end.

End Values.

End ConfigMeta.

(** ** [helpers/proxy.py]: [ProxyManager] *)

Module ProxyManager.

(** A scalar of the proxy file, as [str()] sees it. *)
Inductive scalar : Type :=
| SNone
| SInt (z : Z)
| SStr (s : string).

Definition str (v : scalar) : string :=
  match v with
  | SNone => "None"
  | SInt z => pretty z
  | SStr s => s
  end.

(** One entry of [proxies]; [node.get(key)] is [None] for a key the
    entry does not have. *)
Record node : Type := {
  cipher : scalar;
  password : scalar;
  server : scalar;
  port : scalar;
}.

(** The parsed [config/proxies.yml]: [bin_path] and [base_port] may be
    absent, [proxies] defaults to the empty list. *)
Record config : Type := {
  bin_path : option string;
  proxies : list node;
  base_port : option Z;
}.

(** A command line: the program, which may be [None], and its
    arguments. *)
Definition command : Type := option string * list string.

(** A proxy as handed to the exchange client: the URLs for ["http"] and
    ["https"]. *)
Definition proxy : Type := gmap string string.

(** What the methods can raise. *)
Inductive error : Type :=
| FileNotFoundError
| TypeError (message : string)
| LaunchError (cmd : command).

(** The class attributes, and the processes alive outside (each known
    by the command that started it). *)
Record state : Type := {
  _processes : list command;
  _proxies : list proxy;
  _bin_path : option string;
  _commands : option (list (command * Z));
  _is_running : bool;
  enabled : bool;
  alive : list command;
}.

(** The class as the module defines it. *)
Definition initial : state :=
  {| _processes := []; _proxies := []; _bin_path := None; _commands := None;
     _is_running := false; enabled := true; alive := [] |}.

(** The [cmd] list built for the node number [i]. *)
Definition command_of (_bin_path : option string) (local_port : Z) (n : node) : command :=
  (_bin_path,
   ["-s"; str (server n); "-p"; str (port n); "-l"; pretty local_port;
    "-k"; str (password n); "-m"; str (cipher n); "--fast-open"]).

(** The loop of [_load_config] over [enumerate(nodes)]. *)
Fixpoint commands_from (_bin_path : option string) (base_port : option Z) (i : Z)
    (nodes : list node) : error + list (command * Z) :=
  match nodes with
  | [] => inr []
  | n :: nodes =>
      match base_port with
      | None => inl (TypeError "unsupported operand type(s) for +: 'NoneType' and 'int'")
      | Some base =>
          let local_port := base + i in
          match commands_from _bin_path base_port (i + 1) nodes with
          | inl x => inl x
          | inr commands => inr ((command_of _bin_path local_port n, local_port) :: commands)
          end
      end
  end.

(** [_load_config()]; [fs] is the proxy file, when it exists. *)
Definition _load_config (fs : option config) (σ : state)
  : state * (error + list (command * Z)) :=
  match _commands σ with
  | Some commands => (σ, inr commands)
  | None =>
      match fs with
      | None => (σ, inl FileNotFoundError)
      | Some cfg =>
          let σ := {| _processes := _processes σ; _proxies := _proxies σ;
                      _bin_path := bin_path cfg; _commands := _commands σ;
                      _is_running := _is_running σ; enabled := enabled σ;
                      alive := alive σ |} in
          match commands_from (bin_path cfg) (base_port cfg) 0 (proxies cfg) with
          | inl x => (σ, inl x)
          | inr commands =>
              ({| _processes := _processes σ; _proxies := _proxies σ;
                  _bin_path := _bin_path σ; _commands := Some commands;
                  _is_running := _is_running σ; enabled := enabled σ;
                  alive := alive σ |}, inr commands)
          end
      end
  end.

(** The proxy registered for a local port. *)
Definition proxy_of (local_port : Z) : proxy :=
  {[ "http" := "socks5h://127.0.0.1:" +:+ pretty local_port;
     "https" := "socks5h://127.0.0.1:" +:+ pretty local_port ]}.

(** The loop of [start_proxies] over the commands. [launches cmd] tells
    whether [subprocess.Popen(cmd)] starts a process; it raises
    otherwise, and what was registered before stays registered. *)
Fixpoint launch_all (launches : command → bool) (commands : list (command * Z))
    (σ : state) : state * (error + unit) :=
  match commands with
  | [] => (σ, inr tt)
  | (cmd, local_port) :: commands =>
      if launches cmd then
        launch_all launches commands
          {| _processes := _processes σ ++ [cmd];
             _proxies := _proxies σ ++ [proxy_of local_port];
             _bin_path := _bin_path σ; _commands := _commands σ;
             _is_running := _is_running σ; enabled := enabled σ;
             alive := alive σ ++ [cmd] |}
      else (σ, inl (LaunchError cmd))
  end.

Definition disable (σ : state) : state :=
  {| _processes := _processes σ; _proxies := _proxies σ; _bin_path := _bin_path σ;
     _commands := _commands σ; _is_running := _is_running σ; enabled := false;
     alive := alive σ |}.

Definition set_running (σ : state) : state :=
  {| _processes := _processes σ; _proxies := _proxies σ; _bin_path := _bin_path σ;
     _commands := _commands σ; _is_running := true; enabled := enabled σ;
     alive := alive σ |}.

(** [start_proxies()]: the number it returns, or what it raises. *)
Definition start_proxies (launches : command → bool) (fs : option config) (σ : state)
  : state * (error + Z) :=
  if _is_running σ then (σ, inr (-1))
  else
    let σ := if fs is None then disable σ else σ in
    if negb (enabled σ) then (σ, inr (-1))
    else
      match _load_config fs σ with
      | (σ, inl x) => (σ, inl x)
      | (σ, inr commands) =>
          match launch_all launches commands σ with
          | (σ, inl x) => (σ, inl x)
          | (σ, inr _) => (set_running σ, inr (Z.of_nat (length commands)))
          end
      end.

(** [stop_proxies()]: every registered process is terminated (killed if
    it does not exit in time) and the registers are cleared. *)
Definition stop_proxies (σ : state) : state :=
  {| _processes := []; _proxies := []; _bin_path := _bin_path σ;
     _commands := _commands σ; _is_running := false; enabled := enabled σ;
     alive := list_difference (alive σ) (_processes σ) |}.

(** [get_random_proxy()]; [draw] is the index [random.choice] picks,
    below the length of the list. *)
Definition get_random_proxy (draw : nat) (σ : state) : option proxy :=
  match _proxies σ with
  | [] => None
  | _ :: _ => _proxies σ !! (draw `mod` length (_proxies σ))%nat
  end.

End ProxyManager.

(** ** [wrapper.py]: the action lists *)

Module Wrapper.

(** [_ACTIONS_MAPPING] *)
Definition _ACTIONS_MAPPING (mode : string) : option (list string) :=
  if decide (mode = "DEFAULT") then
    Some ["drop_duplicates"; "sort"; "save_missing_times"; "fix_integrity";
          "drop_last"; "transfer_time"]
  else if decide (mode = "MODE_1") then
    Some ["drop_duplicates"; "sort"; "drop_last"; "transfer_time"]
  else None.

End Wrapper.

(** * Vocabulary of the statements *)

(** The grid the specification names, [{min, min+step, ..., max}], and
    the grid the persister builds, which runs up to the last point below
    [max + step]. *)
Definition grid_upto (min_time max_time step t : Z) : Prop :=
  ∃ k, 0 ≤ k ∧ t = min_time + k * step ∧ t ≤ max_time.

Definition grid_below (min_time stop step t : Z) : Prop :=
  ∃ k, 0 ≤ k ∧ t = min_time + k * step ∧ t < stop.

(** [rejects fetch_func map_func since k w w']: from the world [w], [k]
    probes in a row are turned down by the planner's loop (the flag is
    ERROR, or the page is empty) and each is followed by the sleep; [w']
    is the world after the last sleep. *)
Inductive rejects (fetch_func : fetch_callback) (map_func : option Task.map_func_t)
    (since : Z) : nat → Task.world → Task.world → Prop :=
| rejects_O w : rejects fetch_func map_func since 0 w w
| rejects_S k w w1 flag d w2 :
    Task.probe fetch_func map_func since w = (w1, flag, inr d) →
    flag = ERROR ∨ d = Some [] →
    rejects fetch_func map_func since k (Task.sleep w1) w2 →
    rejects fetch_func map_func since (S k) w w2.

(** The order a boolean comparison decides. *)
Definition le_rel {A : Type} (le : A → A → bool) (x y : A) : Prop := le x y = true.

(** The six ids [CSVSaver.__init__] finds on the tagged methods. *)
Definition registered : list string :=
  ["sort"; "drop_duplicates"; "drop_last"; "transfer_time"; "save_missing_times";
   "fix_integrity"].

(** [save] with the list of actions made explicit. *)
Definition save_with (py_int : string → option Z) (utc_strftime : Z → option string)
    (cfg : Config) (l : list string) (processed_data : list row) : Saver.M unit :=
  Saver.bind (Saver._append_data processed_data)
    (λ _, Saver.bind (Saver.run_actions py_int utc_strftime cfg l)
            (λ _, Saver._save_file cfg)).

(** [post m s Q]: after the method [m] has run from the instance [s], the
    instance and the outcome satisfy [Q], whatever was logged. *)
Definition post {A : Type} (m : Saver.M A) (s : Saver.t)
    (Q : Saver.t → result A → Prop) : Prop :=
  ∀ s' log r, m s = (s', log, r) → Q s' r.

(** What every method of the saver keeps: the action list, and, as long
    as no missing-time list is cached, the files. *)
Definition untouched (s s' : Saver.t) : Prop :=
  Saver.actions s' = Saver.actions s ∧
  (Saver._missing_times s' = None →
   Saver.files s' = Saver.files s ∧ Saver._missing_times s = None).

(** How often the fetch has been called for the timestamp [ts]. *)
Definition fetches (ts : Z) (calls : list Z) : Z :=
  Z.of_nat (length (filter (λ x, x = ts) calls)).

(** The attempt count a unit carries never runs ahead of the fetches made
    for its timestamp, wherever the unit is: in a queue or in the hands of
    a worker. After the fetch and before the result is queued, the count
    is one behind. *)
Definition unit_counted (c : list Z) (item : option Factory.unit_item) : Prop :=
  match item with Some (ts, a) => a ≤ fetches ts c | None => True end.

Definition fetched_counted (c : list Z) (item : option Factory.fetched_item) : Prop :=
  match item with Some (ts, _, _, a) => a ≤ fetches ts c | None => True end.

Definition online_counted (c : list Z) (pc : Factory.online_pc) : Prop :=
  match pc with
  | Factory.OCheck ts a | Factory.OFetch ts a => a ≤ fetches ts c
  | Factory.OPut ts _ _ a => a + 1 ≤ fetches ts c
  | _ => True
  end.

Definition local_counted (c : list Z) (pc : Factory.local_pc) : Prop :=
  match pc with
  | Factory.LProcess ts _ _ a => a ≤ fetches ts c
  | _ => True
  end.

Record counted (s : Factory.state) : Prop := {
  counted_online_queue :
    Forall (unit_counted (Factory.calls s)) (Factory.items (Factory._online_queue s));
  counted_local_queue :
    Forall (fetched_counted (Factory.calls s)) (Factory.items (Factory._local_queue s));
  counted_online_threads :
    Forall (online_counted (Factory.calls s)) (Factory.online_threads s);
  counted_local_threads :
    Forall (local_counted (Factory.calls s)) (Factory.local_threads s);
}.

(** A recorded message names a unit above the bound; the worker that
    recorded it is about to fetch that unit once more, or has done so. *)
Definition info_justified (max_attempts : Z) (s : Factory.state) : Prop :=
  ∀ info, Factory._abnormal_termination_info s = Some info →
    ∃ ts a, info = Factory.exhaustion_message ts a ∧ max_attempts < a ∧
            (Factory.OFetch ts a ∈ Factory.online_threads s ∨
             a + 1 ≤ fetches ts (Factory.calls s)).

(** The online workers the main thread has joined have finished; an error
    it raises carries the recorded message. *)
Definition joined (s : Factory.state) : Prop :=
  match Factory.main s with
  | Factory.MStopOnlineJoin k =>
      Forall (λ pc, pc = Factory.ODone) (take k (Factory.online_threads s))
  | Factory.MCheckInfo | Factory.MReturned _ =>
      Forall (λ pc, pc = Factory.ODone) (Factory.online_threads s)
  | Factory.MRaised x =>
      Forall (λ pc, pc = Factory.ODone) (Factory.online_threads s) ∧
      ∃ info, x = RuntimeError info ∧ Factory._abnormal_termination_info s = Some info
  | _ => True
  end.

Definition engine_invariant (max_attempts : Z) (s : Factory.state) : Prop :=
  counted s ∧ info_justified max_attempts s ∧ joined s.

(** The rows a fetch result contributes to the output: those of a
    NORMAL answer. *)
Definition rows_of (d : data) (flag : DataFlag) : list entry :=
  match flag, d with
  | NORMAL, Some rows => rows
  | _, _ => []
  end.

(** All the rows the fetch has answered so far, latest call first. *)
Fixpoint fetched_rows (fetch : fetch_callback) (calls : list Z) : list entry :=
  match calls with
  | [] => []
  | ts :: older =>
      let '(d, flag) := fetch older ts in
      rows_of d flag ++ fetched_rows fetch older
  end.

(** The rows on their way from a fetch to [_cached_raw_data]: in the
    local queue, in the hands of an online worker about to queue them,
    or in the hands of a local worker about to store them. *)
Definition held_item (item : option Factory.fetched_item) : list entry :=
  match item with Some (_, d, flag, _) => rows_of d flag | None => [] end.

Definition held_online (pc : Factory.online_pc) : list entry :=
  match pc with Factory.OPut _ d flag _ => rows_of d flag | _ => [] end.

Definition held_local (pc : Factory.local_pc) : list entry :=
  match pc with Factory.LProcess _ d flag _ => rows_of d flag | _ => [] end.

Definition in_flight (s : Factory.state) : list entry :=
  concat (held_item <$> Factory.items (Factory._local_queue s)) ++
  concat (held_online <$> Factory.online_threads s) ++
  concat (held_local <$> Factory.local_threads s).

(** Every fetched row is in the accumulator or on its way, once; what
    [complete] returned was in the accumulator. *)
Definition rows_accounted (fetch : fetch_callback) (s : Factory.state) : Prop :=
  Factory._cached_raw_data s ++ in_flight s ≡ₚ fetched_rows fetch (Factory.calls s) ∧
  match Factory.main s with
  | Factory.MReturned rows => rows `prefix_of` Factory._cached_raw_data s
  | _ => True
  end.

(** The timestamps still to be fetched: queued, or taken by an online
    worker that has not called the fetch yet. *)
Definition pending_item (item : option Factory.unit_item) : list Z :=
  match item with Some (ts, _) => [ts] | None => [] end.

Definition pending_pc (pc : Factory.online_pc) : list Z :=
  match pc with Factory.OCheck ts _ | Factory.OFetch ts _ => [ts] | _ => [] end.

Definition pending (s : Factory.state) : list Z :=
  Factory.calls s ++
  concat (pending_item <$> Factory.items (Factory._online_queue s)) ++
  concat (pending_pc <$> Factory.online_threads s).

(** The workers that hold an item they have not acknowledged with
    [task_done]. *)
Definition busy_online (pc : Factory.online_pc) : list unit :=
  match pc with
  | Factory.OSentinel | Factory.OCheck _ _ | Factory.OFetch _ _
  | Factory.OPut _ _ _ _ | Factory.OAck => [tt]
  | _ => []
  end.

Definition busy_local (pc : Factory.local_pc) : list unit :=
  match pc with
  | Factory.LSentinel | Factory.LProcess _ _ _ _ | Factory.LAck => [tt]
  | _ => []
  end.

(** [unfinished_tasks] counts the items waiting and the items taken but
    not acknowledged. *)
Definition counters (s : Factory.state) : Prop :=
  Factory.unfinished_tasks (Factory._online_queue s)
  = (length (Factory.items (Factory._online_queue s)) +
     length (concat (busy_online <$> Factory.online_threads s)))%nat ∧
  Factory.unfinished_tasks (Factory._local_queue s)
  = (length (Factory.items (Factory._local_queue s)) +
     length (concat (busy_local <$> Factory.local_threads s)))%nat.

(** No ERROR answer is on its way. *)
Definition normal_item (item : option Factory.fetched_item) : Prop :=
  match item with Some (_, _, flag, _) => flag = NORMAL | None => True end.

Definition normal_online (pc : Factory.online_pc) : Prop :=
  match pc with Factory.OPut _ _ flag _ => flag = NORMAL | _ => True end.

Definition normal_local (pc : Factory.local_pc) : Prop :=
  match pc with Factory.LProcess _ _ flag _ => flag = NORMAL | _ => True end.

Definition flags_normal (s : Factory.state) : Prop :=
  Forall normal_item (Factory.items (Factory._local_queue s)) ∧
  Forall normal_online (Factory.online_threads s) ∧
  Forall normal_local (Factory.local_threads s).

(** No unit has been queued a second time and no worker has given up. *)
Definition first_attempt_item (item : option Factory.unit_item) : Prop :=
  match item with Some (_, a) => a = 0 | None => True end.

Definition first_attempt_pc (pc : Factory.online_pc) : Prop :=
  match pc with Factory.OCheck _ a => a = 0 | _ => True end.

Definition first_attempts (s : Factory.state) : Prop :=
  Forall first_attempt_item (Factory.items (Factory._online_queue s)) ∧
  Forall first_attempt_pc (Factory.online_threads s) ∧
  Factory._abnormal_termination_info s = None.

(** No unit is left to fetch and no fetched result is left to queue. *)
Definition online_drained (s : Factory.state) : Prop :=
  concat (pending_item <$> Factory.items (Factory._online_queue s)) = [] ∧
  concat (pending_pc <$> Factory.online_threads s) = [] ∧
  concat (held_online <$> Factory.online_threads s) = [].

(** No fetched result is left to process. *)
Definition local_drained (s : Factory.state) : Prop :=
  concat (held_item <$> Factory.items (Factory._local_queue s)) = [] ∧
  concat (held_local <$> Factory.local_threads s) = [].

(** What holds all along a run in which the fetch never answers ERROR:
    each unit of [timestamp_list] is fetched or still to be fetched,
    once; the first [join] is passed only when every unit has been
    fetched and queued, the second only when every result has been
    stored. *)
Record smooth (timestamp_list : list Z) (s : Factory.state) : Prop := {
  smooth_flags : flags_normal s;
  smooth_attempts : first_attempts s;
  smooth_counters : counters s;
  smooth_pending : pending s ≡ₚ timestamp_list;
  smooth_online :
    Factory.main s ≠ Factory.MJoinOnline → online_drained s;
  smooth_local :
    Factory.main s ≠ Factory.MJoinOnline → Factory.main s ≠ Factory.MJoinLocal →
    local_drained s;
  smooth_returned :
    ∀ rows, Factory.main s = Factory.MReturned rows →
            rows = Factory._cached_raw_data s;
  smooth_not_raised : ∀ x, Factory.main s ≠ Factory.MRaised x;
}.


(** Every timestamp the engine handles comes from the plan: those
    queued, those in the hands of a worker, those fetched. *)
Definition planned_unit (l : list Z) (item : option Factory.unit_item) : Prop :=
  match item with Some (ts, _) => ts ∈ l | None => True end.

Definition planned_fetched (l : list Z) (item : option Factory.fetched_item) : Prop :=
  match item with Some (ts, _, _, _) => ts ∈ l | None => True end.

Definition planned_online (l : list Z) (pc : Factory.online_pc) : Prop :=
  match pc with
  | Factory.OCheck ts _ | Factory.OFetch ts _ | Factory.OPut ts _ _ _ => ts ∈ l
  | _ => True
  end.

Definition planned_local (l : list Z) (pc : Factory.local_pc) : Prop :=
  match pc with Factory.LProcess ts _ _ _ => ts ∈ l | _ => True end.

Record planned (l : list Z) (s : Factory.state) : Prop := {
  planned_online_queue :
    Forall (planned_unit l) (Factory.items (Factory._online_queue s));
  planned_local_queue :
    Forall (planned_fetched l) (Factory.items (Factory._local_queue s));
  planned_online_threads : Forall (planned_online l) (Factory.online_threads s);
  planned_local_threads : Forall (planned_local l) (Factory.local_threads s);
  planned_calls : Forall (λ ts, ts ∈ l) (Factory.calls s);
}.

(** No worker has given up and the main thread has not raised. *)
Definition quiet (s : Factory.state) : Prop :=
  Factory._abnormal_termination_info s = None ∧
  ∀ x, Factory.main s ≠ Factory.MRaised x.

(** The local workers the main thread has joined have finished. *)
Definition local_joined (s : Factory.state) : Prop :=
  match Factory.main s with
  | Factory.MStopLocalJoin k =>
      Forall (λ pc, pc = Factory.LDone) (take k (Factory.local_threads s))
  | Factory.MStopOnlinePut _ | Factory.MStopOnlineJoin _ | Factory.MCheckInfo
  | Factory.MReturned _ | Factory.MRaised _ =>
      Forall (λ pc, pc = Factory.LDone) (Factory.local_threads s)
  | _ => True
  end.

(** [complete] has returned or raised. *)
Definition finished (s : Factory.state) : Prop :=
  match Factory.main s with
  | Factory.MReturned _ | Factory.MRaised _ => True
  | _ => False
  end.

(** The main thread waits in its first [join] with no online worker to
    acknowledge the queued units. *)
Definition starved (s : Factory.state) : Prop :=
  Factory.online_threads s = [] ∧
  Factory.main s = Factory.MJoinOnline ∧
  Factory.unfinished_tasks (Factory._online_queue s) ≠ 0%nat ∧
  Factory.items (Factory._local_queue s) = [].


(** An element the OHLCV mapper turns into a row as wide as its columns:
    a sequence of at least five fields. *)
Definition is_candle (e : entry) : Prop :=
  match e with
  | ESeq cells => (5 ≤ length cells)%nat
  | EDict _ => False
  end.

(** The row the OHLCV mapper makes of an element. *)
Definition candle_row (e : entry) : row :=
  match e with ESeq cells => take 5 cells | EDict _ => [] end.

(** The path of the chunk file number [k] below [folder]. *)
Definition chunk_path (folder : string) (k : nat) : string :=
  folder +:+ "/" +:+ pretty k +:+ ".csv".

(** The rows of the chunk number [k] of a table cut into pieces of
    [chunk_size] rows. *)
Definition chunk_rows (chunk_size : nat) (df : Frame.t) (k : nat) : Frame.t :=
  take chunk_size (drop (k * chunk_size) df).

(** The number of chunks of a table of [len] rows: [len / chunk_size],
    rounded up. *)
Definition chunk_count (chunk_size : Z) (len : nat) : nat :=
  Z.to_nat ((Z.of_nat len + chunk_size - 1) `div` chunk_size).

(** The missing times the detection caches: none, or the missing set in
    ascending order. *)
Definition cached_missing (missing : gset Z) : list Z :=
  if decide (missing = ∅) then [] else merge_sort Z.le (elements missing).

(** A row and the same row with its time as text. *)
Definition formatted (utc_strftime : Z → option string) (i : nat) (old new : row) : Prop :=
  ∃ t text, old !!! i = CInt t ∧ utc_strftime (t `quot` 1000) = Some text ∧
            new = <[ i := CStr text ]> old.

(** A character of a text. *)
Fixpoint occurs (c : Ascii.ascii) (s : string) : Prop :=
  match s with
  | EmptyString => False
  | String c' rest => c = c' ∨ occurs c rest
  end.



(** Concrete collaborators and inputs used to exercise the statements. *)
Module Examples.

Definition config : Config :=
  {| MAX_ATTEMPT_TIMES := 3; LOCAL_THREADS_RATIO := 4; CSV_CHUNK_SIZE := 2;
     ALLOW_MAX_MISSING_TIMESTAMPS := 5 |}.

(** [int()] on a run of decimal digits. *)
Definition digit (c : ascii) : option Z :=
  let n := nat_of_ascii c in
  if ((48 <=? n) && (n <=? 57))%nat then Some (Z.of_nat (n - 48)) else None.

Fixpoint digits (acc : Z) (s : string) : option Z :=
  match s with
  | EmptyString => Some acc
  | String c s' => d ← digit c; digits (10 * acc + d) s'
  end.

Definition parse_decimal (s : string) : option Z :=
  match s with
  | EmptyString => None
  | String _ _ => digits 0 s
  end.

(** A stand-in for the date formatting: the seconds, in decimal. *)
Definition seconds_text (seconds : Z) : option string := Some (pretty seconds).

(** Remote sources: one that always fails, one that fails on its first
    call only, one whose page holds a single row. *)
Definition always_error : fetch_callback := λ _ _, (None, ERROR).

Definition fails_once : fetch_callback := λ calls ts,
  match calls with
  | [] => (None, ERROR)
  | _ :: _ => (Some [ESeq [CInt ts; CInt 5]], NORMAL)
  end.

Definition single_row : fetch_callback :=
  λ _ since, (Some [ESeq [CInt since; CInt 42]], NORMAL).

Definition fresh_world : Task.world :=
  {| Task.calls := []; Task.sleeps := 0; Task.validated := Mapper.initial |}.

(** A plan of one unit, with one worker in each pool. *)
Definition one_unit : Task.t :=
  {| Task.timestamp_list := Some [1000];
     Task.online_worker_count := Some 1;
     Task.local_worker_count := Some 1 |}.

(** One full iteration of a worker, as a run of its actions. *)
Definition online_turn : list Factory.thread := replicate 6 (Factory.Online 0).
Definition local_turn : list Factory.thread := replicate 4 (Factory.Local 0).

(** The main thread passes [_online_queue.join()] while the failed unit
    waits in the local queue, and [_local_queue.join()] once the local
    worker has put the unit back and acknowledged it, before the retry
    is fetched. *)
Definition early_join_schedule : list Factory.thread :=
  online_turn ++ [Factory.Main] ++ local_turn ++ replicate 3 Factory.Main ++
  replicate 3 (Factory.Local 0) ++ replicate 4 Factory.Main ++
  online_turn ++ replicate 3 (Factory.Online 0) ++ replicate 3 Factory.Main.

(** The unit is fetched three times without success; the local worker
    is already waiting in [get()] when the stop event is set. *)
Definition exhausting_turns : list Factory.thread :=
  local_turn ++ online_turn ++ local_turn ++ [Factory.Local 0] ++
  online_turn ++ [Factory.Online 0] ++ local_turn.

Definition raising_schedule : list Factory.thread :=
  online_turn ++ [Factory.Main] ++ exhausting_turns ++ replicate 10 Factory.Main.

Definition stuck_schedule : list Factory.thread := online_turn ++ exhausting_turns.

(** The main thread after both joins, with the workers taking their
    sentinels: [_stop_threads] for one local and one online worker, then
    the test of [_abnormal_termination_info]. *)
Definition shutdown : list Factory.thread :=
  replicate 3 Factory.Main ++ replicate 3 (Factory.Local 0) ++
  replicate 4 Factory.Main ++ replicate 3 (Factory.Online 0) ++
  replicate 3 Factory.Main.

Definition two_units : Task.t :=
  {| Task.timestamp_list := Some [1000; 2000];
     Task.online_worker_count := Some 1;
     Task.local_worker_count := Some 1 |}.

(** Both units fetched, then both results stored, then the joins. *)
Definition sequential_schedule : list Factory.thread :=
  online_turn ++ online_turn ++ [Factory.Main] ++
  local_turn ++ local_turn ++ shutdown.

(** The main thread reaches its first [join] only after the retried
    unit has gone round. *)
Definition late_join_schedule : list Factory.thread :=
  online_turn ++ local_turn ++ online_turn ++ local_turn ++
  [Factory.Main] ++ shutdown.

(** A saver that already holds the row of time 0, with the default
    actions of [fetch_all_ohlcv] and a one-minute cadence. *)
Definition sparse_saver : Saver.t :=
  {| Saver.actions := ["drop_duplicates"; "sort"; "save_missing_times"; "fix_integrity";
                       "drop_last"; "transfer_time"];
     Saver.columns := ["time"; "close"];
     Saver.time_column_index := 0;
     Saver.timeframe := Some "1m";
     Saver._work_folder := "data/binance/spot/BTC-USDT/1m";
     Saver._df := Some [[CInt 0; CInt 1]];
     Saver._missing_times := None;
     Saver.files := ∅ |}.

(** A fresh saver whose action list holds a name that is no action. *)
Definition misnamed_saver : Saver.t :=
  {| Saver.actions := ["sort"; "sort_descending"; "drop_last"];
     Saver.columns := ["time"; "close"];
     Saver.time_column_index := 0;
     Saver.timeframe := None;
     Saver._work_folder := "data";
     Saver._df := None;
     Saver._missing_times := None;
     Saver.files := ∅ |}.

(** A saver whose table holds the times 100 and 200 and for which the
    time 150 has been found missing. *)
Definition tied_saver : Saver.t :=
  {| Saver.actions := ["fix_integrity"];
     Saver.columns := ["time"; "close"];
     Saver.time_column_index := 0;
     Saver.timeframe := Some "1s";
     Saver._work_folder := "data";
     Saver._df := Some [[CInt 100; CStr "a"]; [CInt 200; CStr "b"]];
     Saver._missing_times := Some [150];
     Saver.files := ∅ |}.

End Examples.

(** Further inputs used to exercise the statements. *)
Module Cases.

(** A plan without a unit, and a plan without an online worker. *)
Definition no_unit : Task.t :=
  {| Task.timestamp_list := Some [];
     Task.online_worker_count := Some 1;
     Task.local_worker_count := Some 1 |}.

Definition no_online_worker : Task.t :=
  {| Task.timestamp_list := Some [1000];
     Task.online_worker_count := Some 0;
     Task.local_worker_count := Some 1 |}.

(** A source whose page holds two rows, one minute apart. *)
Definition two_rows : fetch_callback :=
  λ _ since, (Some [ESeq [CInt since; CInt 1]; ESeq [CInt (since + 60000); CInt 2]],
              NORMAL).

(** A proxy file with two entries and the base port 1080. *)
Definition two_proxies : ProxyManager.config :=
  {| ProxyManager.bin_path := Some "ss-local";
     ProxyManager.proxies :=
       [{| ProxyManager.cipher := ProxyManager.SStr "aes-256-gcm";
           ProxyManager.password := ProxyManager.SStr "secret";
           ProxyManager.server := ProxyManager.SStr "10.0.0.1";
           ProxyManager.port := ProxyManager.SInt 8388 |};
        {| ProxyManager.cipher := ProxyManager.SStr "aes-256-gcm";
           ProxyManager.password := ProxyManager.SStr "secret";
           ProxyManager.server := ProxyManager.SStr "10.0.0.2";
           ProxyManager.port := ProxyManager.SInt 8388 |}];
     ProxyManager.base_port := Some 1080 |}.

(** Savers as the wrapper builds them: for the funding-rate history and
    for the OHLCV history with a one-minute cadence. *)
Definition funding_saver : Saver.t :=
  {| Saver.actions := ["drop_duplicates"; "sort"; "drop_last"; "transfer_time"];
     Saver.columns := ["time"; "rate"];
     Saver.time_column_index := 0;
     Saver.timeframe := None;
     Saver._work_folder := "data/binance/funding_rate_history/BTC-USDT";
     Saver._df := None;
     Saver._missing_times := None;
     Saver.files := ∅ |}.

Definition ohlcv_saver : Saver.t :=
  {| Saver.actions := ["drop_duplicates"; "sort"; "save_missing_times"; "fix_integrity";
                       "drop_last"; "transfer_time"];
     Saver.columns := ["time"; "close"];
     Saver.time_column_index := 0;
     Saver.timeframe := Some "1m";
     Saver._work_folder := "data/binance/spot/BTC-USDT/1m";
     Saver._df := None;
     Saver._missing_times := None;
     Saver.files := ∅ |}.

(** Both joins at once, then the shutdown. *)
Definition idle_schedule : list Factory.thread :=
  [Factory.Main] ++ Examples.shutdown.

(** A class a user derives from [OHLCVMapper] without a flag or columns
    of its own. *)
Definition derived_mapper : Hierarchy.cls :=
  {| Hierarchy.name := "DailyMapper";
     Hierarchy.bases := ["OHLCVMapper"; "BaseMapper"];
     Hierarchy.columns := Mapper.columns Mapper.OHLCVMapper |}.

(** A fresh saver that only fills the gaps, and a configuration with a
    negative ceiling. *)
Definition gap_saver : Saver.t :=
  {| Saver.actions := ["fix_integrity"];
     Saver.columns := ["time"; "close"];
     Saver.time_column_index := 0;
     Saver.timeframe := Some "1m";
     Saver._work_folder := "data";
     Saver._df := None;
     Saver._missing_times := None;
     Saver.files := ∅ |}.

Definition negative_ceiling : Config :=
  {| MAX_ATTEMPT_TIMES := 3; LOCAL_THREADS_RATIO := 4; CSV_CHUNK_SIZE := 2;
     ALLOW_MAX_MISSING_TIMESTAMPS := -1 |}.

End Cases.

(** * Properties *)

(** ** The mapper's validation *)

Lemma get_validated_set (c : Mapper.cls) (σ : Mapper.store) :
  Mapper.get_validated (Mapper.set_validated c σ) c = true.
Proof.
  unfold Mapper.get_validated, Mapper.set_validated.
  destruct c; simpl; rewrite lookup_insert_eq; reflexivity.
Qed.

(** C7, as stated, fails: once a call of [validate] has succeeded for a
    class, a later call on that class returns [True] for a row of the
    wrong width. *)
Lemma validate_skips_after_success :
  let σ := (Mapper.validate Mapper.OHLCVMapper
              [[CInt 0; CInt 1; CInt 2; CInt 3; CInt 4]] Mapper.initial).1 in
  length [CInt 7] ≠ 5%nat ∧
  Mapper.columns Mapper.OHLCVMapper = Some ["time"; "open"; "high"; "low"; "close"] ∧
  Mapper.validate Mapper.OHLCVMapper [[CInt 7]] σ = (σ, inr true).
Proof. vm_compute. split; [discriminate | split; reflexivity]. Qed.

(** C7, amended. While the [_validated] flag of a mapper class is unset, a
    call of [validate(rows)] checks the width of every row against the
    number of declared columns: it raises a [DataFormatValidationError]
    naming the width of a row that differs, and otherwise returns [True]
    and sets the flag. From then on every call on that class returns
    [True] without looking at the rows. *)
Theorem validate_checks_until_first_success
    (c : Mapper.cls) (cols : list string) (rows : list row) (σ : Mapper.store) :
  Mapper.columns c = Some cols →
  Mapper.get_validated σ c = false →
  (if decide (Forall (λ r : row, length r = length cols) rows)
   then Mapper.validate c rows σ = (Mapper.set_validated c σ, inr true)
   else ∃ r, r ∈ rows ∧ length r ≠ length cols ∧
        Mapper.validate c rows σ =
          (σ, inl (DataFormatValidationError
                     ("Row length " +:+ pretty (length r) +:+
                      " does not match expected columns " +:+ pretty (length cols)))))
  ∧ ∀ rows' : list row,
      Mapper.validate c rows' (Mapper.set_validated c σ)
      = (Mapper.set_validated c σ, inr true).
Proof.
  intros Hcols Hflag. split.
  - unfold Mapper.validate. rewrite Hflag, Hcols. simpl.
    destruct (list_find _ rows) as [[k r]|] eqn:Hfind.
    + apply list_find_Some in Hfind as (Hk & Hr & _).
      rewrite decide_False.
      * exists r. split; [by eapply list_elem_of_lookup_2 | done].
      * intros Hall. rewrite Forall_forall in Hall.
        apply Hr, Hall. by eapply list_elem_of_lookup_2.
    + apply list_find_None in Hfind.
      rewrite decide_True; [done |].
      eapply Forall_impl; [exact Hfind |]. simpl. intros r Hr.
      destruct (decide (length r = length cols)); [done | by destruct Hr].
  - intros rows'. unfold Mapper.validate. by rewrite get_validated_set.
Qed.

Lemma validate_checks_until_first_success_witness :
  Mapper.columns Mapper.OHLCVMapper = Some ["time"; "open"; "high"; "low"; "close"] ∧
  Mapper.get_validated Mapper.initial Mapper.OHLCVMapper = false ∧
  (∃ r, r ∈ [[CInt 7]] ∧ length r ≠ 5%nat ∧
     Mapper.validate Mapper.OHLCVMapper [[CInt 7]] Mapper.initial =
       (Mapper.initial, inl (DataFormatValidationError
          ("Row length " +:+ pretty (length r) +:+
           " does not match expected columns " +:+ pretty 5%nat)))).
Proof.
  split; [reflexivity | split; [reflexivity |]].
  pose proof (validate_checks_until_first_success Mapper.OHLCVMapper
                ["time"; "open"; "high"; "low"; "close"] [[CInt 7]] Mapper.initial
                eq_refl eq_refl) as [H _].
  rewrite decide_False in H; [exact H |].
  intros Hall. apply Forall_inv in Hall. simpl in Hall. lia.
Defined.

(** ** The planner *)

Section PlannerFacts.
Context (fetch_func : fetch_callback) (map_func : option Task.map_func_t).
Context (since until online local : Z).

(** Probes that are turned down only use up attempts. *)
Lemma probe_loop_rejects k w w1 :
  rejects fetch_func map_func since k w w1 →
  ∀ fuel attempt_times self,
    (∀ i, 0 ≤ i < Z.of_nat k → attempt_times - i ≠ 0) →
    Task.probe_loop fetch_func map_func since until online local
      (k + fuel) attempt_times self w
    = Task.probe_loop fetch_func map_func since until online local
        fuel (attempt_times - Z.of_nat k) self w1.
Proof.
  induction 1 as [w | k w w1 flag d w2 Hprobe Hrej _ IH]; intros fuel a self Ha.
  - simpl. f_equal. lia.
  - cbn [Nat.add Task.probe_loop].
    destruct (Z.eqb_spec a 0) as [-> | _]; [exfalso; apply (Ha 0); lia |].
    rewrite Hprobe.
    assert (Task.probe_loop fetch_func map_func since until online local
              (k + fuel) (a - 1) self (Task.sleep w1)
            = Task.probe_loop fetch_func map_func since until online local
                fuel (a - Z.of_nat (S k)) self w2) as Hrec.
    { rewrite IH; [f_equal; lia |]. intros i Hi. specialize (Ha (i + 1)). lia. }
    destruct Hrej as [-> | ->]; [exact Hrec |].
    destruct flag; exact Hrec.
Qed.

(** A page whose first and last rows carry the same time makes
    [range(since, until, 0)] raise; the task is not touched. *)
Lemma plan_zero_delta e0 rest a self :
  Task.first_field e0 = inr (CInt a) →
  Task.first_field (List.last (e0 :: rest) e0) = inr (CInt a) →
  Task.plan until online local e0 (e0 :: rest) self
  = (self, inl (ValueError "range() arg 3 must not be zero")).
Proof.
  intros H0 Hlast. unfold Task.plan. rewrite H0, Hlast. simpl.
  rewrite Z.sub_diag. reflexivity.
Qed.
End PlannerFacts.

(** When every probe is turned down without an exception, the loop gives
    up after [MAX_ATTEMPT_TIMES] probes with its own error, and the task is
    as it was. *)
Lemma initialize_exhausted cfg since until thread_count fetch_func map_func
    (n fuel : nat) self w w1 :
  LOCAL_THREADS_RATIO cfg ≠ 0 →
  MAX_ATTEMPT_TIMES cfg = Z.of_nat n →
  rejects fetch_func map_func since n w w1 →
  Task.initialize_func cfg since until thread_count fetch_func map_func
    (n + S fuel) self w
  = Some (w1, self,
          inl (RuntimeError "Failed to generate task, maximum attempts exhausted")).
Proof.
  intros Hratio Hmax Hrej. unfold Task.initialize_func.
  destruct (Z.eqb_spec (LOCAL_THREADS_RATIO cfg) 0); [done |].
  rewrite (probe_loop_rejects _ _ _ _ _ _ _ _ _ Hrej) by (intros; lia).
  rewrite Hmax, Z.sub_diag. reflexivity.
Qed.

Lemma always_error_rejects n w :
  ∃ w1, rejects Examples.always_error None 1000 n w w1 ∧
        length (Task.calls w1) = (n + length (Task.calls w))%nat.
Proof.
  revert w. induction n as [| n IH]; intros w.
  - exists w. split; [constructor | done].
  - destruct (IH (Task.sleep (Task.record_call 1000 w))) as (w1 & Hrej & Hlen).
    exists w1. split.
    + econstructor; [reflexivity | by left | exact Hrej].
    + rewrite Hlen. simpl. lia.
Qed.

(** Without a mapper, a source that always fails is probed
    [MAX_ATTEMPT_TIMES] times and the planner then gives up. *)
Lemma initialize_exhausted_example :
  ∃ w1, Task.initialize_func Examples.config 1000 9000 8 Examples.always_error None 4
          Task.new Examples.fresh_world
        = Some (w1, Task.new,
                inl (RuntimeError "Failed to generate task, maximum attempts exhausted"))
        ∧ length (Task.calls w1) = 3%nat.
Proof.
  destruct (always_error_rejects 3 Examples.fresh_world) as (w1 & Hrej & Hlen).
  exists w1. split; [| exact Hlen].
  by apply (initialize_exhausted Examples.config 1000 9000 8 _ None 3 0).
Qed.

(** C4, at the failing input: the funding-rate planner probes a source
    that answers ERROR. The mapper is applied to the absent data before
    the flag is looked at and raises; the probe is not retried and the
    error is not the planner's own. The task keeps its unset fields. *)
Theorem probe_error_with_mapper_is_not_retried (fuel : nat) :
  Task.initialize_func Examples.config 1000 9000 8 Examples.always_error
    (Some (Mapper.map_with_validation Mapper.FundingRateHistoryMapper))
    (S fuel) Task.new Examples.fresh_world
  = Some (Task.record_call 1000 Examples.fresh_world, Task.new,
          inl (ValueError "Data has a bad type:<class 'NoneType'>")).
Proof. reflexivity. Qed.

(** C5. If, after any number of probes that were turned down, a probe
    returns NORMAL with a non-empty page whose first and last rows carry
    the same time, the initialization raises ([range] refuses the zero
    step) and the task is left as it was: no timestamp list, finite or
    not, and no pool size is stored. *)
Theorem zero_delta_is_rejected cfg since until thread_count fetch_func map_func
    (k fuel : nat) self w w1 w2 e0 rest a :
  LOCAL_THREADS_RATIO cfg ≠ 0 →
  MAX_ATTEMPT_TIMES cfg < 0 ∨ Z.of_nat k < MAX_ATTEMPT_TIMES cfg →
  rejects fetch_func map_func since k w w1 →
  Task.probe fetch_func map_func since w1 = (w2, NORMAL, inr (Some (e0 :: rest))) →
  Task.first_field e0 = inr (CInt a) →
  Task.first_field (List.last (e0 :: rest) e0) = inr (CInt a) →
  Task.initialize_func cfg since until thread_count fetch_func map_func
    (k + S fuel) self w
  = Some (w2, self, inl (ValueError "range() arg 3 must not be zero")).
Proof.
  intros Hratio Hmax Hrej Hprobe H0 Hlast. unfold Task.initialize_func.
  destruct (Z.eqb_spec (LOCAL_THREADS_RATIO cfg) 0); [done |].
  rewrite (probe_loop_rejects _ _ _ _ _ _ _ _ _ Hrej) by (intros; lia).
  cbn [Task.probe_loop].
  destruct (Z.eqb_spec (MAX_ATTEMPT_TIMES cfg - Z.of_nat k) 0); [lia |].
  rewrite Hprobe. by rewrite (plan_zero_delta _ _ _ _ _ a).
Qed.

Lemma zero_delta_is_rejected_witness :
  Task.initialize_func Examples.config 1000 9000 8 Examples.single_row None 1
    Task.new Examples.fresh_world
  = Some (Task.record_call 1000 Examples.fresh_world, Task.new,
          inl (ValueError "range() arg 3 must not be zero")).
Proof.
  apply (zero_delta_is_rejected Examples.config 1000 9000 8 Examples.single_row None 0 0
           Task.new Examples.fresh_world Examples.fresh_world
           (Task.record_call 1000 Examples.fresh_world)
           (ESeq [CInt 1000; CInt 42]) [] 1000).
  - simpl. lia.
  - right. simpl. lia.
  - constructor.
  - reflexivity.
  - reflexivity.
  - reflexivity.
Defined.

(** ** Missing time points *)

Lemma range_len_lt start stop step k :
  0 < step → 0 ≤ k →
  k < range_len start stop step ↔ start + k * step < stop.
Proof.
  intros Hstep Hk. unfold range_len.
  destruct (Z.ltb_spec 0 step) as [_ | ?]; [| lia].
  set (a := stop - start + step - 1).
  pose proof (Z.mul_div_le a step Hstep).
  pose proof (Z.mul_succ_div_gt a step Hstep).
  subst a. split; intros; nia.
Qed.

Lemma elem_of_arange start stop step l t :
  0 < step →
  Frame.arange start stop step = inr l →
  t ∈ l ↔ grid_below start stop step t.
Proof.
  intros Hstep. unfold Frame.arange.
  destruct (Z.eqb_spec step 0); [lia |]. intros [= <-].
  rewrite list_elem_of_fmap. unfold grid_below. split.
  - intros (k & -> & Hk). apply elem_of_seqZ in Hk. exists k.
    split; [lia | split; [done |]]. apply range_len_lt; lia.
  - intros (k & Hk & -> & Hlt). exists k. split; [done |].
    apply elem_of_seqZ. split; [lia |]. apply range_len_lt in Hlt; lia.
Qed.

(** C3, as stated, fails: for rows at the times 0 and 250 and a step of
    100 the computed set holds 300, which lies beyond the largest time and
    so outside [{min, min+step, ..., max}]. *)
Lemma missing_beyond_max :
  ∃ missing, Saver.missing_timestamps [0; 250] 100 = inr missing ∧
             300 ∈ missing ∧
             ¬ grid_upto (Saver.list_min [0; 250]) (Saver.list_max [0; 250]) 100 300.
Proof.
  eexists. split; [reflexivity |]. split.
  - vm_compute. set_solver.
  - intros (k & _ & _ & Hle). vm_compute in Hle. by apply Hle.
Qed.

(** C3, amended. For a non-empty time column and a positive step, the
    missing set computed for [save_missing_times] and [fix_integrity]
    holds the points [min + k*step] below [max + step] that are not
    present. When [max - min] is a multiple of the step, this is the set
    [{min, min+step, ..., max}] minus the present times. *)
Theorem missing_timestamps_spec (times : list Z) (step : Z) :
  times ≠ [] → 0 < step →
  let min_time := Saver.list_min times in
  let max_time := Saver.list_max times in
  ∃ missing,
    Saver.missing_timestamps times step = inr missing ∧
    (∀ t, t ∈ missing ↔ grid_below min_time (max_time + step) step t ∧ t ∉ times) ∧
    ((step | max_time - min_time) →
     ∀ t, t ∈ missing ↔ grid_upto min_time max_time step t ∧ t ∉ times).
Proof.
  intros _ Hstep min_time max_time. unfold Saver.missing_timestamps.
  fold min_time max_time.
  destruct (Frame.arange min_time (max_time + step) step) as [x | expected] eqn:Har.
  { unfold Frame.arange in Har. destruct (Z.eqb_spec step 0); [lia | done]. }
  eexists. split; [reflexivity |].
  assert (∀ t, t ∈ (list_to_set expected ∖ list_to_set times : gset Z)
               ↔ grid_below min_time (max_time + step) step t ∧ t ∉ times) as Hchar.
  { intros t. rewrite elem_of_difference, !elem_of_list_to_set.
    by rewrite (elem_of_arange _ _ _ _ t Hstep Har). }
  split; [exact Hchar |].
  intros [j Hj] t. rewrite Hchar. unfold grid_below, grid_upto.
  split; intros [(k & Hk & -> & Hb) Hnot]; (split; [| done]); exists k;
    (split; [done | split; [done |]]);
    destruct (Z.le_gt_cases k j); nia.
Qed.

(** For rows at the times 0, 100 and 300 and a step of 100, the missing
    set is exactly [{200}]. *)
Lemma missing_timestamps_spec_witness :
  ∃ missing,
    Saver.missing_timestamps [0; 100; 300] 100 = inr missing ∧
    missing = {[ 200 ]} ∧
    ∀ t, t ∈ missing ↔ grid_upto 0 300 100 t ∧ t ∉ [0; 100; 300].
Proof.
  destruct (missing_timestamps_spec [0; 100; 300] 100) as (missing & Heq & _ & Hgrid);
    [discriminate | lia |].
  exists missing. split; [exact Heq |]. split.
  - vm_compute in Heq. injection Heq as <-. reflexivity.
  - apply Hgrid. exists 3. reflexivity.
Defined.

(** ** Sorting and removing duplicates *)

Section StableSort.
Context {A : Type} (le : A → A → bool).

Lemma insert_by_perm x l : Frame.insert_by le x l ≡ₚ x :: l.
Proof.
  induction l as [| y l IH]; simpl; [done |].
  destruct (le x y); [done |]. rewrite IH. apply perm_swap.
Qed.

Lemma stable_sort_perm l : Frame.stable_sort le l ≡ₚ l.
Proof.
  induction l as [| x l IH]; simpl; [done |].
  rewrite insert_by_perm. by rewrite IH.
Qed.

Lemma insert_by_sorted x l :
  Forall (λ y, le x y = false → le y x = true) l →
  Sorted (le_rel le) l → Sorted (le_rel le) (Frame.insert_by le x l).
Proof.
  induction l as [| y l IH]; intros Htot Hs; simpl.
  - repeat constructor.
  - destruct (le x y) eqn:Hxy.
    + constructor; [done |]. by constructor.
    + apply Forall_cons in Htot as [Hyx Htot].
      apply Sorted_inv in Hs as [Hs Hhd].
      constructor; [by apply IH |].
      destruct l as [| z l]; simpl.
      * constructor. by apply Hyx.
      * destruct (le x z); constructor; [by apply Hyx |].
        by apply HdRel_inv in Hhd.
Qed.

Lemma stable_sort_sorted (P : A → Prop) l :
  (∀ x y, P x → P y → le x y = false → le y x = true) →
  Forall P l → Sorted (le_rel le) (Frame.stable_sort le l).
Proof.
  intros Htot. induction 1 as [| x l Hx Hl IH]; simpl; [constructor |].
  apply insert_by_sorted; [| done].
  rewrite stable_sort_perm. eapply Forall_impl; [exact Hl |].
  intros y Hy. by apply Htot.
Qed.

End StableSort.

Lemma cell_le_total_int a b :
  Frame.is_int a = true → Frame.is_int b = true →
  Frame.cell_le a b = false → Frame.cell_le b a = true.
Proof. destruct a, b; simpl; try done. intros _ _. lia. Qed.

Lemma cell_le_total_str a b :
  Frame.is_str a = true → Frame.is_str b = true →
  Frame.cell_le a b = false → Frame.cell_le b a = true.
Proof.
  destruct a as [| s], b as [| u]; simpl; try done. intros _ _ Hsu.
  destruct (String.leb_total s u) as [H | H]; congruence.
Qed.

Lemma comparable_perm l1 l2 : l1 ≡ₚ l2 → Frame.comparable l1 = Frame.comparable l2.
Proof.
  intros Hp. unfold Frame.comparable.
  assert (∀ f, forallb f l1 = forallb f l2) as Hf.
  { intros f. apply eq_true_iff_eq. rewrite <- !Is_true_true, !forallb_True.
    by rewrite Hp. }
  by rewrite !Hf.
Qed.

Lemma sort_values_sorted i df df' :
  Frame.sort_values i true df = inr df' →
  df' ≡ₚ df ∧ Sorted (le_rel (Frame.row_le i)) df'.
Proof.
  unfold Frame.sort_values.
  destruct (Frame.comparable (Frame.column i df)) eqn:Hc; [| done].
  intros [= <-]. split; [apply stable_sort_perm |].
  apply orb_true_iff in Hc as [Hc | Hc].
  - apply (stable_sort_sorted _ (λ r : row, Frame.is_int (r !!! i) = true)).
    + intros x y. apply cell_le_total_int.
    + apply Is_true_true, forallb_True in Hc. unfold Frame.column in Hc.
      rewrite Forall_fmap in Hc. eapply Forall_impl; [exact Hc |].
      simpl. intros r Hr. by apply Is_true_true.
  - apply (stable_sort_sorted _ (λ r : row, Frame.is_str (r !!! i) = true)).
    + intros x y. apply cell_le_total_str.
    + apply Is_true_true, forallb_True in Hc. unfold Frame.column in Hc.
      rewrite Forall_fmap in Hc. eapply Forall_impl; [exact Hc |].
      simpl. intros r Hr. by apply Is_true_true.
Qed.

(** The rows kept carry pairwise different times, none of them seen
    before. *)
Lemma drop_duplicates_from_fresh i seen df :
  NoDup (Frame.column i (Frame.drop_duplicates_from i seen df)) ∧
  Forall (λ r : row, r !!! i ∉ seen) (Frame.drop_duplicates_from i seen df).
Proof.
  revert seen. induction df as [| r df IH]; intros seen; simpl.
  - split; constructor.
  - destruct (decide (r !!! i ∈ seen)) as [Hin | Hnot]; [apply IH |].
    destruct (IH (r !!! i :: seen)) as [Hnd Hall]. split.
    + simpl. constructor; [| done]. unfold Frame.column.
      rewrite list_elem_of_fmap. intros (r' & Heq & Hr').
      rewrite Forall_forall in Hall. apply (Hall r' Hr'). rewrite <- Heq. left.
    + constructor; [done |]. eapply Forall_impl; [exact Hall |].
      simpl. intros r' Hr' Hin. apply Hr'. by right.
Qed.



Lemma _drop_duplicates_unfold (self : Saver.t) :
  Saver._drop_duplicates self =
    match Saver._df self with
    | None => (self, [], inl (AttributeError
                 "'NoneType' object has no attribute 'drop_duplicates'"))
    | Some df =>
        (Saver.set_df (Frame.drop_duplicates (Saver.time_column_index self) df) self,
         [], inr tt)
    end.
Proof. destruct self as [? ? ? ? ? [df |] ? ?]; reflexivity. Qed.

Lemma _sort_unfold (ascending : bool) (self : Saver.t) :
  Saver._sort ascending self =
    match Saver._df self with
    | None => (self, [], inl (AttributeError
                 "'NoneType' object has no attribute 'sort_values'"))
    | Some df =>
        match Frame.sort_values (Saver.time_column_index self) ascending df with
        | inl x => (self, [], inl x)
        | inr df' => (Saver.set_df df' self, [], inr tt)
        end
    end.
Proof.
  destruct self as [? ? i ? ? [df |] ? ?]; [| reflexivity].
  unfold Saver._sort, Saver.bind, Saver.get_df, Saver.get, Saver.lift. simpl.
  by destruct (Frame.sort_values i ascending df).
Qed.









(** ** Gap filling *)

(** The binary search finds the boundary between the values below [v]
    and the others, once there is one. *)
Lemma bisect_left_boundary (arr : list Z) (v : Z) (n : nat) :
  (n ≤ length arr)%nat →
  (∀ j x, arr !! j = Some x → (j < n)%nat → x < v) →
  (∀ j x, arr !! j = Some x → (n ≤ j)%nat → v ≤ x) →
  ∀ fuel lo hi,
    (lo ≤ n ≤ hi)%nat → (hi ≤ length arr)%nat → (hi - lo ≤ fuel)%nat →
    Frame.bisect_left arr v fuel lo hi = n.
Proof.
  intros Hn Hbelow Habove. induction fuel as [| fuel IH]; intros lo hi Hlo Hhi Hfuel;
    cbn [Frame.bisect_left].
  - lia.
  - destruct (Nat.ltb_spec lo hi) as [Hlt | Hge]; [| lia].
    set (mid := (lo + (hi - lo) / 2)%nat).
    assert (lo ≤ mid < hi)%nat as Hmid.
    { subst mid. pose proof (Nat.Div0.div_lt_upper_bound (hi - lo) 2 (hi - lo)). lia. }
    destruct (lookup_lt_is_Some_2 arr mid) as [x Hx]; [lia |].
    rewrite (list_lookup_total_correct _ _ _ Hx).
    destruct (Z.ltb_spec x v) as [Hxv | Hxv].
    + apply IH; [| lia | lia]. split; [| lia].
      destruct (Nat.le_gt_cases (S mid) n) as [? | Hgt]; [done |].
      specialize (Habove mid x Hx). lia.
    + apply IH; [| lia | lia]. split; [lia |].
      destruct (Nat.le_gt_cases n mid) as [? | Hgt]; [done |].
      specialize (Hbelow mid x Hx). lia.
Qed.

(** In a sorted column, a value strictly between two neighbours is to be
    inserted between them. *)
Lemma searchsorted_between (before after : list Z) (p s v : Z) :
  Sorted Z.le (before ++ p :: s :: after) → p < v → v ≤ s →
  Frame.searchsorted (before ++ p :: s :: after) v = S (length before).
Proof.
  intros Hsorted Hp Hs. unfold Frame.searchsorted.
  apply Sorted_StronglySorted in Hsorted; [| intros ???; lia].
  apply StronglySorted_app in Hsorted as (Hcross & Hb & Hrest).
  apply StronglySorted_inv in Hrest as [Hrest Hp_le].
  apply StronglySorted_inv in Hrest as [_ Hs_le].
  apply bisect_left_boundary; rewrite ?length_app; simpl; try lia.
  - intros j x Hj Hlt.
    destruct (decide (j < length before)%nat) as [Hjb | Hjb].
    + rewrite lookup_app_l in Hj by done.
      assert (x ≤ p); [| lia]. apply (Hcross x); [by eapply list_elem_of_lookup_2 | left].
    + assert (j = length before) as -> by lia.
      rewrite list_lookup_middle in Hj by done. by injection Hj as <-.
  - intros j x Hj Hge.
    rewrite lookup_app_r in Hj by lia.
    destruct (j - length before)%nat as [| [| k]] eqn:Hk; [lia | |]; simpl in Hj.
    + by injection Hj as <-.
    + rewrite Forall_forall in Hs_le. assert (s ≤ x); [| lia].
      apply Hs_le. by eapply list_elem_of_lookup_2.
Qed.

(** In a sorted column, the row made for a time strictly between two
    neighbours, and not nearer to the second, is the row of the first
    with the time replaced. *)
Lemma synthesize_predecessor (i : nat) (df : Frame.t) (before after : list Z)
    (p s missing_ts : Z) :
  Frame.column i df = CInt <$> (before ++ p :: s :: after) →
  Sorted Z.le (before ++ p :: s :: after) →
  p < missing_ts < s →
  missing_ts - p ≤ s - missing_ts →
  ∃ predecessor : row,
    df !! length before = Some predecessor ∧
    predecessor !!! i = CInt p ∧
    Saver.synthesize i df (before ++ p :: s :: after) missing_ts
    = inr (<[ i := CInt missing_ts ]> predecessor).
Proof.
  intros Hcol Hsorted [Hp Hs] Htie.
  assert (length df = length (before ++ p :: s :: after)) as Hlen.
  { rewrite <- (length_fmap CInt), <- Hcol. unfold Frame.column. by rewrite length_fmap. }
  destruct (lookup_lt_is_Some_2 df (length before)) as [predecessor Hrow].
  { rewrite Hlen, length_app. simpl. lia. }
  exists predecessor. split; [done |]. split.
  - assert (Frame.column i df !! length before = Some (CInt p)) as Hcell.
    { rewrite Hcol, list_lookup_fmap, list_lookup_middle by done. done. }
    unfold Frame.column in Hcell. rewrite list_lookup_fmap, Hrow in Hcell.
    by injection Hcell.
  - unfold Saver.synthesize.
    rewrite searchsorted_between by (done || lia).
    replace (S (length before) - 1)%nat with (length before) by lia.
    rewrite length_app. simpl.
    destruct (Nat.ltb_spec (S (length before)) (length before + S (S (length after))))
      as [_ | ?]; [| lia].
    simpl. unfold Frame.min_by_fst. simpl.
    rewrite (list_lookup_total_middle before (s :: after) p (length before) eq_refl).
    replace (before ++ p :: s :: after) with ((before ++ [p]) ++ s :: after)
      by (by rewrite <- app_assoc).
    rewrite (list_lookup_total_middle (before ++ [p]) after s (S (length before)))
      by (rewrite length_app; simpl; lia).
    destruct (Z.ltb_spec (Z.abs (s - missing_ts)) (Z.abs (p - missing_ts))); [lia |].
    simpl. by rewrite (list_lookup_total_correct _ _ _ Hrow).
Qed.

(** The whole action on that table: the synthesized row is appended and
    the table sorted again. *)
Lemma fix_integrity_tie_example :
  Saver._fix_data_integrity Examples.parse_decimal Examples.config Examples.tied_saver
  = (Saver.set_df [[CInt 100; CStr "a"]; [CInt 150; CStr "a"]; [CInt 200; CStr "b"]]
       Examples.tied_saver, [], inr tt).
Proof. vm_compute. reflexivity. Qed.

(** ** The methods of the saver *)

Section Post.
Context {A B : Type}.

Lemma post_ret (a : A) s Q : Q s (inr a) → post (Saver.ret a) s Q.
Proof. intros HQ s' log r [= <- _ <-]. exact HQ. Qed.

Lemma post_lift (r : result A) s Q : Q s r → post (Saver.lift r) s Q.
Proof. intros HQ s' log r' [= <- _ <-]. exact HQ. Qed.

Lemma post_raise (x : exn) s (Q : Saver.t → result A → Prop) :
  Q s (inl x) → post (Saver.raise x) s Q.
Proof. intros HQ s' log r' [= <- _ <-]. exact HQ. Qed.

Lemma post_bind (m : Saver.M A) (k : A → Saver.M B) s Q :
  post m s (λ s1 r1, match r1 with
                     | inl x => Q s1 (inl x)
                     | inr a => post (k a) s1 Q
                     end) →
  post (Saver.bind m k) s Q.
Proof.
  intros Hm s' log r. unfold Saver.bind.
  destruct (m s) as [[s1 log1] [x | a]] eqn:Hms.
  - intros [= <- _ <-]. exact (Hm _ _ _ Hms).
  - destruct (k a s1) as [[s2 log2] r2] eqn:Hk. intros [= <- _ <-].
    exact (Hm _ _ _ Hms _ _ _ Hk).
Qed.

Lemma post_mono (m : Saver.M A) s (Q Q' : Saver.t → result A → Prop) :
  post m s Q → (∀ s' r, Q s' r → Q' s' r) → post m s Q'.
Proof. intros Hm HQ s' log r Hrun. eapply HQ, Hm, Hrun. Qed.
End Post.

Lemma post_get s Q : Q s (inr s) → post Saver.get s Q.
Proof. intros HQ s' log r [= <- _ <-]. exact HQ. Qed.

Lemma post_modify f s Q : Q (f s) (inr tt) → post (Saver.modify f) s Q.
Proof. intros HQ s' log r [= <- _ <-]. exact HQ. Qed.

Lemma post_tell l msg s Q : Q s (inr tt) → post (Saver.tell l msg) s Q.
Proof. intros HQ s' log r [= <- _ <-]. exact HQ. Qed.

Lemma post_get_df attr s Q :
  (∀ df, Saver._df s = Some df → Q s (inr df)) →
  (∀ x, Saver._df s = None → Q s (inl x)) →
  post (Saver.get_df attr) s Q.
Proof.
  intros Hsome Hnone. unfold Saver.get_df. apply post_bind, post_get.
  destruct (Saver._df s) eqn:Hdf; [apply post_ret | apply post_raise]; auto.
Qed.

Lemma untouched_refl s : untouched s s.
Proof. by split. Qed.

Lemma untouched_trans s1 s2 s3 : untouched s1 s2 → untouched s2 s3 → untouched s1 s3.
Proof.
  intros [Ha1 H1] [Ha2 H2]. split; [congruence |].
  intros Hnone. destruct (H2 Hnone) as [Hf2 Hm2]. destruct (H1 Hm2) as [Hf1 Hm1].
  split; congruence.
Qed.

Lemma untouched_set_df df s : untouched s (Saver.set_df df s).
Proof. by split. Qed.

Lemma untouched_set_missing_times m s : untouched s (Saver.set_missing_times m s).
Proof. by split. Qed.

(** Sequencing two computations that keep [untouched]. *)
Lemma post_bind_untouched {A B : Type} (m : Saver.M A) (k : A → Saver.M B) s0 s :
  untouched s0 s →
  post m s (λ s1 _, untouched s s1) →
  (∀ a s1, untouched s0 s1 → post (k a) s1 (λ s2 _, untouched s0 s2)) →
  post (Saver.bind m k) s (λ s2 _, untouched s0 s2).
Proof.
  intros H0 Hm Hk. apply post_bind. eapply post_mono; [exact Hm |].
  intros s1 [x | a] H1; simpl.
  - by eapply untouched_trans.
  - apply Hk. by eapply untouched_trans.
Qed.

Ltac post_step :=
  lazymatch goal with
  | |- post (Saver.bind _ _) _ _ => apply post_bind
  | |- post Saver.get _ _ => apply post_get
  | |- post (Saver.get_df _) _ _ => apply post_get_df; intros
  | |- post (Saver.modify _) _ _ => apply post_modify
  | |- post (Saver.tell _ _) _ _ => apply post_tell
  | |- post (Saver.ret _) _ _ => apply post_ret
  | |- post (Saver.raise _) _ _ => apply post_raise
  | |- post (Saver.lift ?r) _ _ => apply post_lift; try destruct r
  end.

Section MethodFacts.
Context (py_int : string → option Z) (utc_strftime : Z → option string) (cfg : Config).

Lemma _sort_untouched asc s : post (Saver._sort asc) s (λ s' _, untouched s s').
Proof.
  unfold Saver._sort. repeat post_step; simpl;
    auto using untouched_refl, untouched_set_df.
Qed.

Lemma _drop_duplicates_untouched s :
  post Saver._drop_duplicates s (λ s' _, untouched s s').
Proof.
  unfold Saver._drop_duplicates. repeat post_step; simpl;
    auto using untouched_refl, untouched_set_df.
Qed.

Lemma _drop_last_untouched s : post Saver._drop_last s (λ s' _, untouched s s').
Proof.
  unfold Saver._drop_last. repeat post_step; simpl;
    auto using untouched_refl, untouched_set_df.
Qed.

Lemma _transfer_time_untouched s :
  post (Saver._transfer_time py_int utc_strftime) s (λ s' _, untouched s s').
Proof.
  unfold Saver._transfer_time. repeat post_step; simpl;
    auto using untouched_refl, untouched_set_df.
Qed.

Lemma _append_data_untouched data s :
  post (Saver._append_data data) s (λ s' r, untouched s s' ∧ r = inr tt).
Proof.
  unfold Saver._append_data. post_step. post_step.
  destruct (Frame.DataFrame _ _); [| destruct (Saver._df s)]; post_step;
    auto using untouched_refl, untouched_set_df.
Qed.

Lemma _initialize_missing_times_untouched s :
  post (Saver._initialize_missing_times py_int cfg) s
    (λ s' r, untouched s s' ∧
             (r = inr true → is_Some (Saver._missing_times s'))).
Proof.
  unfold Saver._initialize_missing_times. post_step. post_step.
  destruct (Saver._missing_times s) eqn:Hcache.
  { post_step. split; [apply untouched_refl | by rewrite Hcache]. }
  destruct (Saver.timeframe s); [| post_step; split; [apply untouched_refl | done]].
  post_step. post_step; [| by split; [apply untouched_refl |]].
  destruct df as [| r0 df].
  { repeat post_step. split; [apply untouched_refl | done]. }
  repeat (post_step; simpl);
    try (by split; [apply untouched_refl || apply untouched_set_df |]).
  case_decide; [| case_match]; repeat post_step;
    (split; [| by (simpl; eauto)]); split; done.
Qed.

Lemma _fix_data_integrity_untouched s :
  post (Saver._fix_data_integrity py_int cfg) s (λ s' _, untouched s s').
Proof.
  unfold Saver._fix_data_integrity. apply post_bind.
  eapply post_mono; [apply _initialize_missing_times_untouched |].
  intros s1 [x | ok] [Hs1 _]; simpl; [done |].
  destruct ok; simpl; [| by post_step].
  post_step. post_step.
  destruct (Saver._missing_times s1) as [[| m ms] |]; try (by post_step).
  post_step. post_step; [| done].
  case_match; [by post_step |].
  post_step. post_step; [done |].
  case_match; [by post_step |].
  apply (post_bind_untouched _ _ s s1 Hs1).
  - eapply post_mono; [apply _append_data_untouched | by intros ?? []].
  - intros _ s2 Hs2. eapply post_mono; [apply _sort_untouched |].
    simpl. intros s3 _ Hs3. by eapply untouched_trans.
Qed.

Lemma _save_missing_times_untouched s :
  post (Saver._save_missing_times py_int utc_strftime cfg) s (λ s' _, untouched s s').
Proof.
  unfold Saver._save_missing_times. apply post_bind.
  eapply post_mono; [apply _initialize_missing_times_untouched |].
  intros s1 [x | ok] [H1 Hset]; cbv beta iota; [done |].
  destruct ok; cbn [negb]; [| by post_step].
  post_step. post_step.
  destruct (Saver._missing_times s1) as [[| m ms] |] eqn:Hcache; try (by post_step).
  destruct (Saver.missing_lines py_int utc_strftime (m :: ms)) as [lines r].
  assert (untouched s (Saver.set_file
            (Saver._work_folder s1 +:+ "/" +:+ "missingtimes.txt")
            (Saver.TextFile lines) s1)) as H2.
  { destruct H1 as [Ha _]. split; [done |]. simpl. by rewrite Hcache. }
  repeat (post_step; simpl); exact H2.
Qed.

Lemma run_actions_untouched l s :
  post (Saver.run_actions py_int utc_strftime cfg l) s (λ s' _, untouched s s').
Proof.
  revert s. induction l as [| action l IH]; intros s; simpl.
  - post_step. apply untouched_refl.
  - apply (post_bind_untouched _ _ s s (untouched_refl s)).
    + unfold Saver._actions.
      repeat case_decide;
        eauto using _sort_untouched, _drop_duplicates_untouched, _drop_last_untouched,
          _transfer_time_untouched, _fix_data_integrity_untouched,
          _save_missing_times_untouched.
      post_step. apply untouched_refl.
    + intros _ s1 H1. eapply post_mono; [apply IH |].
      simpl. intros s2 _ H2. by eapply untouched_trans.
Qed.
End MethodFacts.

Lemma bind_inl {A B : Type} (m : Saver.M A) (k : A → Saver.M B) s s1 log1 x :
  m s = (s1, log1, inl x) → Saver.bind m k s = (s1, log1, inl x).
Proof. intros Hm. unfold Saver.bind. by rewrite Hm. Qed.

Lemma bind_inr {A B : Type} (m : Saver.M A) (k : A → Saver.M B) s s1 log1 a s2 log2 r :
  m s = (s1, log1, inr a) → k a s1 = (s2, log2, r) →
  Saver.bind m k s = (s2, log1 ++ log2, r).
Proof. intros Hm Hk. unfold Saver.bind. by rewrite Hm, Hk. Qed.

Lemma bind_inv {A B : Type} (m : Saver.M A) (k : A → Saver.M B) s s2 log r :
  Saver.bind m k s = (s2, log, r) →
  (∃ x, m s = (s2, log, inl x) ∧ r = inl x) ∨
  (∃ s1 log1 a log2, m s = (s1, log1, inr a) ∧ k a s1 = (s2, log2, r) ∧
                     log = log1 ++ log2).
Proof.
  unfold Saver.bind. destruct (m s) as [[s1 log1] [x | a]].
  - intros [= <- <- <-]. left. by exists x.
  - destruct (k a s1) as [[s2' log2] r'] eqn:Hk. intros [= <- <- <-].
    right. by exists s1, log1, a, log2.
Qed.

Lemma bind_assoc {A B C : Type} (m : Saver.M A) (f : A → Saver.M B) (g : B → Saver.M C) s :
  Saver.bind (Saver.bind m f) g s = Saver.bind m (λ a, Saver.bind (f a) g) s.
Proof.
  unfold Saver.bind. destruct (m s) as [[s1 log1] [x | a]]; [done |].
  destruct (f a s1) as [[s2 log2] [x | b]]; [done |].
  destruct (g b s2) as [[s3 log3] r]. by rewrite app_assoc.
Qed.

Lemma bind_ext {A B : Type} (m : Saver.M A) (k1 k2 : A → Saver.M B) s :
  (∀ s1 log1 a, m s = (s1, log1, inr a) → k1 a s1 = k2 a s1) →
  Saver.bind m k1 s = Saver.bind m k2 s.
Proof.
  intros Hk. unfold Saver.bind. destruct (m s) as [[s1 log1] [x | a]] eqn:Hm; [done |].
  by rewrite (Hk _ _ _ eq_refl).
Qed.

Lemma bind_get {B : Type} (k : Saver.t → Saver.M B) s :
  Saver.bind Saver.get k s = k s s.
Proof. unfold Saver.bind, Saver.get. by destruct (k s s) as [[??]?]. Qed.

Lemma bind_silent {A B : Type} (m : Saver.M A) (k : A → Saver.M B) s s1 a :
  m s = (s1, [], inr a) → Saver.bind m k s = k a s1.
Proof. intros Hm. unfold Saver.bind. rewrite Hm. by destruct (k a s1) as [[??]?]. Qed.

Lemma get_df_some attr s df :
  Saver._df s = Some df → Saver.get_df attr s = (s, [], inr df).
Proof. intros Hdf. unfold Saver.get_df. by rewrite bind_get, Hdf. Qed.

Section SaveFacts.
Context (py_int : string → option Z) (utc_strftime : Z → option string) (cfg : Config).

#[local] Abbreviation run_actions := (Saver.run_actions py_int utc_strftime cfg).
#[local] Abbreviation save := (Saver.save py_int utc_strftime cfg).
#[local] Abbreviation save_with := (save_with py_int utc_strftime cfg).

Lemma save_unfold data self : save data self = save_with (Saver.actions self) data self.
Proof.
  unfold Saver.save, save_with. apply bind_ext. intros s0 log0 [] Happ.
  destruct (_append_data_untouched data self _ _ _ Happ) as [[Hact _] _].
  by rewrite bind_get, Hact.
Qed.

Lemma run_actions_app l1 l2 s :
  run_actions (l1 ++ l2) s = Saver.bind (run_actions l1) (λ _, run_actions l2) s.
Proof.
  revert s. induction l1 as [| a l1 IH]; intros s; simpl.
  - unfold Saver.bind, Saver.ret. destruct (Saver.run_actions _ _ _ l2 s) as [[??]?].
    reflexivity.
  - rewrite bind_assoc. apply bind_ext. intros s1 _ _ _. apply IH.
Qed.

Lemma run_actions_app_bind {B : Type} l1 l2 (k : unit → Saver.M B) s :
  Saver.bind (run_actions (l1 ++ l2)) k s
  = Saver.bind (run_actions l1) (λ _, Saver.bind (run_actions l2) k) s.
Proof.
  rewrite <- bind_assoc. unfold Saver.bind at 1 3. by rewrite run_actions_app.
Qed.

Lemma _actions_unregistered action :
  action ∉ registered → Saver._actions py_int utc_strftime cfg action = None.
Proof.
  unfold registered. intros Hnot. unfold Saver._actions.
  repeat (case_decide; [subst; exfalso; apply Hnot; set_solver |]). done.
Qed.

Lemma traverse_int_of_cell times :
  Saver.traverse (Utils.int_of_cell py_int) (CInt <$> times) = inr times.
Proof. induction times as [| z times IH]; csimpl; [done | by rewrite IH]. Qed.

Lemma cast_is_identity i (df : Frame.t) times :
  Frame.column i df = CInt <$> times →
  zip_with (λ (r : row) z, <[ i := CInt z ]> r) df times = df.
Proof.
  revert times. induction df as [| r df IH]; intros [| z times]; csimpl; try done.
  intros [= Hr Hcol]. rewrite IH by done. f_equal.
  destruct (decide (i < length r)%nat) as [Hlt | Hge].
  - apply list_insert_id. rewrite <- Hr. by apply list_lookup_lookup_total_lt.
  - apply list_insert_ge. lia.
Qed.

(** C10. Let the action list hold a name [bad] that is none of the six
    registered ids. Whatever [save] does without that name it also does
    with it: it ends in the same instance (table, cache and files
    written) with the same outcome. The name itself only adds the warning
    to the log, at the place where it stands in the list; when an earlier
    action raises, the name is not reached and the log is the same. *)
Theorem unknown_action_is_skipped bad pre later data self s' log r :
  bad ∉ registered →
  Saver.actions self = pre ++ bad :: later →
  save_with (pre ++ later) data self = (s', log, r) →
  ∃ l1 l2, log = l1 ++ l2 ∧
    (save data self
     = (s', l1 ++ (Saver.LWarning, "Cannot find action: " +:+ bad) :: l2, r)
     ∨ (∃ x, r = inl x) ∧ save data self = (s', log, r)).
Proof.
  intros Hbad Hact Hclean. rewrite save_unfold, Hact. unfold save_with in *.
  apply bind_inv in Hclean
    as [(x & Happ & _) | (s0 & log0 & [] & log2 & Happ & Hrest & ->)].
  { by destruct (_append_data_untouched data self _ _ _ Happ) as [_ [=]]. }
  rewrite run_actions_app_bind in Hrest.
  apply bind_inv in Hrest
    as [(x & Hpre & ->) | (s1 & logp & [] & log3 & Hpre & Hlater & ->)].
  - exists (log0 ++ log2), []. split; [by rewrite app_nil_r |]. right.
    split; [by exists x |].
    eapply bind_inr; [exact Happ |].
    rewrite run_actions_app_bind. by apply bind_inl.
  - exists (log0 ++ logp), log3. split; [by rewrite app_assoc |]. left.
    rewrite <- app_assoc. eapply bind_inr; [exact Happ |].
    rewrite run_actions_app_bind. eapply bind_inr; [exact Hpre |].
    cbn [Saver.run_actions]. rewrite (_actions_unregistered _ Hbad), bind_assoc.
    by apply (bind_inr _ _ s1 s1 [(Saver.LWarning, "Cannot find action: " +:+ bad)] tt).
Qed.
End SaveFacts.

(** The detection as the two actions run it: on a table whose time column
    holds the integers [times], with some but not too many points
    missing, it caches the missing set in ascending order. *)
Lemma _initialize_missing_times_caches py_int cfg s tf r0 df times delta missing :
  Saver._missing_times s = None →
  Saver.timeframe s = Some tf →
  Saver._df s = Some (r0 :: df) →
  Frame.column (Saver.time_column_index s) (r0 :: df) = CInt <$> times →
  Utils.timeframe_to_timestamp py_int tf = inr delta →
  Saver.missing_timestamps times delta = inr missing →
  missing ≠ ∅ →
  Z.of_nat (size missing) ≤ ALLOW_MAX_MISSING_TIMESTAMPS cfg →
  Saver._initialize_missing_times py_int cfg s
  = (Saver.set_missing_times (merge_sort Z.le (elements missing)) s,
     [(Saver.LInfo, "Total " +:+ pretty (size missing) +:+ " missing data points")],
     inr true).
Proof.
  intros Hcache Htf Hdf Hcol Hdelta Hmissing Hne Hsize.
  unfold Saver._initialize_missing_times. rewrite bind_get, Hcache, Htf.
  rewrite (bind_silent _ _ s s (r0 :: df)) by (by apply get_df_some).
  cbv beta iota.
  rewrite (bind_silent _ _ s s times)
    by (unfold Saver.lift; by rewrite Hcol, traverse_int_of_cell).
  rewrite (cast_is_identity _ _ _ Hcol).
  rewrite (bind_silent _ _ s (Saver.set_df (r0 :: df) s) tt) by done.
  rewrite (bind_silent _ _ _ (Saver.set_df (r0 :: df) s) delta)
    by (unfold Saver.lift; by rewrite Hdelta).
  rewrite (bind_silent _ _ _ (Saver.set_df (r0 :: df) s) missing)
    by (unfold Saver.lift; by rewrite Hmissing).
  rewrite decide_False by done.
  destruct (Z.ltb_spec (ALLOW_MAX_MISSING_TIMESTAMPS cfg) (Z.of_nat (size missing)));
    [lia |].
  destruct s. simpl in *. subst. reflexivity.
Qed.

(** The cast of the time column: every row keeps its place and its other
    cells, and its time is the integer its old time converts to. *)
Lemma cast_rows py_int i (df : Frame.t) times :
  Saver.traverse (Utils.int_of_cell py_int) (Frame.column i df) = inr times →
  Forall2 (λ old new : row,
             ∃ z, Utils.int_of_cell py_int (old !!! i) = inr z ∧
                  new = <[ i := CInt z ]> old)
    df (zip_with (λ (r : row) z, <[ i := CInt z ]> r) df times).
Proof.
  revert times. induction df as [| r df IH]; intros times; csimpl.
  - intros [= <-]. constructor.
  - destruct (Utils.int_of_cell py_int (r !!! i)) as [x | z] eqn:Hz; [done |].
    destruct (Saver.traverse _ (Frame.column i df)) as [x | zs] eqn:Hzs; [done |].
    intros [= <-]. simpl. constructor; [by exists z | by apply IH].
Qed.

(** The detection on a table whose times convert to the integers
    [times], when some points are missing and more than allowed: the time
    column has been rewritten with the integers when the detection
    raises. *)
Lemma _initialize_missing_times_casts_then_raises py_int cfg s tf r0 df times delta
    missing :
  Saver._missing_times s = None →
  Saver.timeframe s = Some tf →
  Saver._df s = Some (r0 :: df) →
  Saver.traverse (Utils.int_of_cell py_int)
    (Frame.column (Saver.time_column_index s) (r0 :: df)) = inr times →
  Utils.timeframe_to_timestamp py_int tf = inr delta →
  Saver.missing_timestamps times delta = inr missing →
  missing ≠ ∅ →
  ALLOW_MAX_MISSING_TIMESTAMPS cfg < Z.of_nat (size missing) →
  Saver._initialize_missing_times py_int cfg s
  = (Saver.set_df (zip_with (λ (r : row) z, <[ Saver.time_column_index s := CInt z ]> r)
                     (r0 :: df) times) s,
     [], inl (ExceedMaxMissingPointsError
                ("Too many missing time points: " +:+ pretty (size missing)))).
Proof.
  intros Hcache Htf Hdf Hcast Hdelta Hmissing Hne Hsize.
  unfold Saver._initialize_missing_times. rewrite bind_get, Hcache, Htf.
  rewrite (bind_silent _ _ s s (r0 :: df)) by (by apply get_df_some).
  cbv beta iota.
  rewrite (bind_silent _ _ s s times) by (unfold Saver.lift; by rewrite Hcast).
  set (s' := Saver.set_df _ s).
  rewrite (bind_silent _ _ s s' tt) by done.
  rewrite (bind_silent _ _ _ s' delta) by (unfold Saver.lift; by rewrite Hdelta).
  rewrite (bind_silent _ _ _ s' missing) by (unfold Saver.lift; by rewrite Hmissing).
  rewrite decide_False by done.
  by destruct (Z.ltb_spec (ALLOW_MAX_MISSING_TIMESTAMPS cfg) (Z.of_nat (size missing)));
    [| lia].
Qed.

(** With a cached list the detection returns at once. *)
Lemma _initialize_missing_times_cached py_int cfg s missing :
  Saver._missing_times s = Some missing →
  Saver._initialize_missing_times py_int cfg s = (s, [], inr true).
Proof.
  intros Hcache. unfold Saver._initialize_missing_times. by rewrite bind_get, Hcache.
Qed.

(** C6, amended. Let [save] reach the action [fix_integrity] or
    [save_missing_times] on a table whose times convert to integers, with
    at least one point of the grid missing and more points missing than
    the ceiling allows.

    When no missing-time list is cached, [save] raises an
    [ExceedMaxMissingPointsError] whose message gives the number of
    missing points, and this [save] has written no file. The failing
    action leaves the instance as it found it but for the time column,
    which the detection has rewritten with the integers before it counts:
    every row keeps its place and its other cells, and a column that held
    integers already is unchanged. The table therefore keeps the rows
    [save] appended and the effects of the earlier actions.

    When a list is cached (by an earlier [save] on this instance), the
    detection returns at once and the ceiling is not looked at. *)
Theorem exceeding_the_ceiling_fails py_int utc_strftime cfg data self pre a later s1 log1
    tf r0 df times delta missing :
  let i := Saver.time_column_index s1 in
  let table := zip_with (λ (r : row) z, <[ i := CInt z ]> r) (r0 :: df) times in
  Saver.actions self = pre ++ a :: later →
  a = "fix_integrity" ∨ a = "save_missing_times" →
  Saver.bind (Saver._append_data data)
    (λ _, Saver.run_actions py_int utc_strftime cfg pre) self = (s1, log1, inr tt) →
  Saver.timeframe s1 = Some tf →
  Saver._df s1 = Some (r0 :: df) →
  Saver.traverse (Utils.int_of_cell py_int) (Frame.column i (r0 :: df)) = inr times →
  Utils.timeframe_to_timestamp py_int tf = inr delta →
  Saver.missing_timestamps times delta = inr missing →
  missing ≠ ∅ →
  ALLOW_MAX_MISSING_TIMESTAMPS cfg < Z.of_nat (size missing) →
  match Saver._missing_times s1 with
  | None =>
      Saver.save py_int utc_strftime cfg data self
      = (Saver.set_df table s1, log1,
         inl (ExceedMaxMissingPointsError
                ("Too many missing time points: " +:+ pretty (size missing))))
      ∧ Forall2 (λ old new : row,
                   ∃ z, Utils.int_of_cell py_int (old !!! i) = inr z ∧
                        new = <[ i := CInt z ]> old) (r0 :: df) table
      ∧ (Frame.column i (r0 :: df) = CInt <$> times → table = r0 :: df)
      ∧ Saver.files s1 = Saver.files self
  | Some cached =>
      Saver._initialize_missing_times py_int cfg s1 = (s1, [], inr true)
  end.
Proof.
  intros i table Hact Ha Hpre Htf Hdf Hcast Hdelta Hmissing Hne Hsize.
  destruct (Saver._missing_times s1) as [cached |] eqn:Hcache;
    [by eapply _initialize_missing_times_cached |].
  apply bind_inv in Hpre as [(x & _ & [=]) | (s0 & log0 & [] & logp & Happ & Hrun & ->)].
  pose proof (_initialize_missing_times_casts_then_raises py_int cfg _ _ _ _ _ _ _
                Hcache Htf Hdf Hcast Hdelta Hmissing Hne Hsize) as Hinit.
  fold i in Hinit. fold table in Hinit.
  split; [| split; [| split]].
  - rewrite save_unfold, Hact. unfold save_with.
    rewrite <- (app_nil_r logp).
    eapply bind_inr; [exact Happ |]. apply bind_inl.
    rewrite run_actions_app. eapply bind_inr; [exact Hrun |].
    cbn [Saver.run_actions]. apply bind_inl.
    destruct Ha as [-> | ->]; cbn; by apply bind_inl.
  - by apply cast_rows.
  - intros Hcol. by apply cast_is_identity.
  - destruct (_append_data_untouched data self _ _ _ Happ) as [H0 _].
    pose proof (run_actions_untouched py_int utc_strftime cfg pre s0 _ _ _ Hrun) as H1.
    destruct (untouched_trans _ _ _ H0 H1) as [_ Hfiles].
    by destruct (Hfiles Hcache).
Qed.

Lemma exceeding_the_ceiling_fails_witness :
  let self := Saver.set_df [[CStr "0"; CInt 1]] Examples.sparse_saver in
  ∃ s',
    Saver.save Examples.parse_decimal Examples.seconds_text Examples.config
      [[CStr "600000"; CInt 2]] self
    = (s', [], inl (ExceedMaxMissingPointsError "Too many missing time points: 9")) ∧
    Saver._df s' = Some [[CInt 0; CInt 1]; [CInt 600000; CInt 2]] ∧
    Saver.files s' = Saver.files self.
Proof.
  intros self.
  set (missing := list_to_set [60000; 120000; 180000; 240000; 300000; 360000; 420000;
                               480000; 540000] : gset Z).
  set (s1 := Saver.set_df [[CStr "0"; CInt 1]; [CStr "600000"; CInt 2]] self).
  assert ("Too many missing time points: 9"
          = "Too many missing time points: " +:+ pretty (size missing)) as ->
    by (vm_compute; reflexivity).
  pose proof (exceeding_the_ceiling_fails Examples.parse_decimal Examples.seconds_text
                Examples.config [[CStr "600000"; CInt 2]] self
                ["drop_duplicates"; "sort"] "save_missing_times"
                ["fix_integrity"; "drop_last"; "transfer_time"]
                s1 [] "1m" [CStr "0"; CInt 1] [[CStr "600000"; CInt 2]] [0; 600000] 60000
                missing) as H.
  simpl in H. destruct H as (Hsave & _ & _ & Hfiles).
  - reflexivity.
  - by right.
  - vm_compute. reflexivity.
  - reflexivity.
  - reflexivity.
  - vm_compute. reflexivity.
  - vm_compute. reflexivity.
  - vm_compute. reflexivity.
  - vm_compute. discriminate.
  - vm_compute. reflexivity.
  - eexists. split; [exact Hsave |]. split; [reflexivity | exact Hfiles].
Defined.

(** C6, as stated, fails in four ways.
    - After a [save] that raised for too many missing points, the table
      holds the row that this [save] appended.
    - The detection itself changes the table before it raises: a time
      column of text has become a column of integers.
    - Once a missing-time list is cached the ceiling is not applied: a
      second [save] on the same saver succeeds although eight points are
      missing and five are allowed.
    - With a negative ceiling and nothing missing, the count, zero,
      exceeds the ceiling and [save] succeeds. *)
Lemma ceiling_counterexamples :
  (∃ s' log msg,
     Saver.save Examples.parse_decimal Examples.seconds_text Examples.config
       [[CInt 600000; CInt 2]] Examples.sparse_saver
     = (s', log, inl (ExceedMaxMissingPointsError msg)) ∧
     Saver._df Examples.sparse_saver = Some [[CInt 0; CInt 1]] ∧
     Saver._df s' = Some [[CInt 0; CInt 1]; [CInt 600000; CInt 2]])
  ∧
  (let s0 := Saver.set_df [[CStr "0"; CInt 1]; [CStr "600000"; CInt 2]]
               Examples.sparse_saver in
   ∃ s' log msg,
     Saver._save_missing_times Examples.parse_decimal Examples.seconds_text
       Examples.config s0 = (s', log, inl (ExceedMaxMissingPointsError msg)) ∧
     Saver._df s' = Some [[CInt 0; CInt 1]; [CInt 600000; CInt 2]])
  ∧
  (∃ s1 log1 s2 log2 missing,
     Saver.save Examples.parse_decimal Examples.seconds_text Examples.config
       [[CInt 0; CInt 1]; [CInt 60000; CInt 2]] Cases.gap_saver = (s1, log1, inr tt) ∧
     Saver._missing_times s1 = Some [] ∧
     Saver.save Examples.parse_decimal Examples.seconds_text Examples.config
       [[CInt 600000; CInt 3]] s1 = (s2, log2, inr tt) ∧
     Saver._df s2 = Some [[CInt 0; CInt 1]; [CInt 60000; CInt 2]; [CInt 600000; CInt 3]] ∧
     Saver.missing_timestamps [0; 60000; 600000] 60000 = inr missing ∧
     size missing = 8%nat ∧
     ALLOW_MAX_MISSING_TIMESTAMPS Examples.config = 5)
  ∧
  (∃ s1 log1,
     Saver.save Examples.parse_decimal Examples.seconds_text Cases.negative_ceiling
       [[CInt 0; CInt 1]; [CInt 60000; CInt 2]] Cases.gap_saver = (s1, log1, inr tt) ∧
     Saver.missing_timestamps [0; 60000] 60000 = inr ∅ ∧
     ALLOW_MAX_MISSING_TIMESTAMPS Cases.negative_ceiling
     < Z.of_nat (size (∅ : gset Z))).
Proof.
  split; [| split; [| split]].
  - do 3 eexists. split; [vm_compute; reflexivity |]. done.
  - do 3 eexists. split; vm_compute; reflexivity.
  - do 5 eexists. split; [vm_compute; reflexivity |]. split; [reflexivity |].
    split; [vm_compute; reflexivity |]. split; [reflexivity |].
    split; [reflexivity |]. split; [by vm_compute | reflexivity].
  - do 2 eexists. split; [vm_compute; reflexivity |]. split; [by vm_compute | done].
Qed.

Lemma unknown_action_is_skipped_witness :
  ∃ s',
    Saver.save Examples.parse_decimal Examples.seconds_text Examples.config
      [[CInt 3000; CInt 2]; [CInt 1000; CInt 7]; [CInt 2000; CInt 9]]
      Examples.misnamed_saver
    = (s', [(Saver.LWarning, "Cannot find action: sort_descending");
            (Saver.LInfo, "Created 1 file in data")], inr tt) ∧
    Saver._df s' = Some [[CInt 1000; CInt 7]; [CInt 2000; CInt 9]] ∧
    Saver.files s' !! "data/0.csv"
    = Some (Saver.CsvFile ["time"; "close"] [[CInt 1000; CInt 7]; [CInt 2000; CInt 9]]).
Proof.
  destruct (save_with Examples.parse_decimal Examples.seconds_text Examples.config
              (["sort"] ++ ["drop_last"])
              [[CInt 3000; CInt 2]; [CInt 1000; CInt 7]; [CInt 2000; CInt 9]]
              Examples.misnamed_saver) as [[s' log] r] eqn:Hclean.
  assert ("sort_descending" ∉ registered) as Hbad.
  { intros H. repeat (apply elem_of_cons in H as [H | H]; [discriminate |]).
    by apply elem_of_nil in H. }
  destruct (unknown_action_is_skipped Examples.parse_decimal Examples.seconds_text
              Examples.config "sort_descending" ["sort"] ["drop_last"]
              [[CInt 3000; CInt 2]; [CInt 1000; CInt 7]; [CInt 2000; CInt 9]]
              Examples.misnamed_saver s' log r Hbad eq_refl Hclean)
    as (l1 & l2 & Hlog & Hsave).
  vm_compute in Hclean. injection Hclean as <- <- <-.
  exists (Saver.set_file "data/0.csv"
            (Saver.CsvFile ["time"; "close"] [[CInt 1000; CInt 7]; [CInt 2000; CInt 9]])
            (Saver.set_df [[CInt 1000; CInt 7]; [CInt 2000; CInt 9]]
               Examples.misnamed_saver)).
  split; [| split; vm_compute; reflexivity].
  destruct Hsave as [Hsave | [[x [=]] _]]. rewrite Hsave.
  destruct l1 as [| e1 [| e2 l1]]; simpl in Hlog.
  - subst l2. vm_compute. reflexivity.
  - exfalso. injection Hlog as <- <-. vm_compute in Hsave. discriminate Hsave.
  - injection Hlog as _ Hl. by destruct l1.
Defined.

(** ** The engine *)

Import Factory.

Lemma fetches_cons ts x c : fetches ts c ≤ fetches ts (x :: c).
Proof.
  unfold fetches. rewrite filter_cons. case_decide; simpl; lia.
Qed.

Lemma fetches_cons_eq ts c : fetches ts (ts :: c) = fetches ts c + 1.
Proof.
  unfold fetches. rewrite filter_cons, decide_True by done. simpl. lia.
Qed.

Lemma unit_counted_cons x c item : unit_counted c item → unit_counted (x :: c) item.
Proof. destruct item as [[ts a] |]; simpl; [| done]. pose proof (fetches_cons ts x c). lia. Qed.

Lemma fetched_counted_cons x c item : fetched_counted c item → fetched_counted (x :: c) item.
Proof.
  destruct item as [[[[ts d] f] a] |]; simpl; [| done].
  pose proof (fetches_cons ts x c). lia.
Qed.

Lemma online_counted_cons x c pc : online_counted c pc → online_counted (x :: c) pc.
Proof. destruct pc as [| | | ts a | ts a | ts d f a | |]; simpl; try done;
  pose proof (fetches_cons ts x c); lia. Qed.

Lemma local_counted_cons x c pc : local_counted c pc → local_counted (x :: c) pc.
Proof. destruct pc as [| | | ts d f a | |]; simpl; try done;
  pose proof (fetches_cons ts x c); lia. Qed.

Lemma done_prefix_insert (l : list online_pc) k i pc pc' :
  Forall (λ pc, pc = ODone) (take k l) → l !! i = Some pc → pc ≠ ODone →
  take k (<[i := pc']> l) = take k l.
Proof.
  intros Hdone Hi Hpc. apply take_insert_ge.
  destruct (decide (k ≤ i)%nat) as [? | Hlt]; [done |]. exfalso.
  rewrite Forall_lookup in Hdone. apply Hpc, (Hdone i).
  rewrite lookup_take_lt by lia. done.
Qed.

Lemma all_done_no_step (l : list online_pc) i pc :
  Forall (λ pc, pc = ODone) l → l !! i = Some pc → pc = ODone.
Proof. intros Hdone Hi. rewrite Forall_lookup in Hdone. by apply (Hdone i). Qed.

Lemma elem_of_insert_other {A : Type} (l : list A) i x y z :
  x ∈ l → l !! i = Some y → y ≠ x → x ∈ <[i := z]> l.
Proof.
  intros Hx Hi Hne. apply list_elem_of_lookup in Hx as [j Hj].
  apply list_elem_of_lookup. exists j. rewrite list_lookup_insert_ne; [done |].
  intros ->. congruence.
Qed.

(** A worker of the online pool that has not finished may change its own
    position: what the main thread has joined stays joined. *)
Lemma joined_online_pc (s s' : state) i pc pc' :
  joined s →
  online_threads s !! i = Some pc → pc ≠ ODone →
  main s' = main s →
  online_threads s' = <[i := pc']> (online_threads s) →
  (∀ info, _abnormal_termination_info s = Some info →
           _abnormal_termination_info s' = Some info) →
  joined s'.
Proof.
  unfold joined. intros Hj Hi Hpc -> -> Hinfo.
  destruct (main s); try done.
  - by rewrite (done_prefix_insert _ _ _ _ _ Hj Hi Hpc).
  - by destruct Hpc, (all_done_no_step _ _ _ Hj Hi).
  - by destruct Hpc, (all_done_no_step _ _ _ Hj Hi).
  - destruct Hj as [Hj _]. by destruct Hpc, (all_done_no_step _ _ _ Hj Hi).
Qed.

Section EngineInvariant.
Context (fetch : fetch_callback) (max_attempts : Z).

Lemma online_step_invariant i pc s s' :
  engine_invariant max_attempts s →
  online_threads s !! i = Some pc →
  online_step fetch max_attempts i pc s = Some s' →
  engine_invariant max_attempts s'.
Proof.
  intros ([Hoq Hlq Hot Hlt] & Hinfo & Hjoin) Hi Hstep.
  assert (online_counted (calls s) pc) as Hpc
    by (rewrite Forall_lookup in Hot; by apply (Hot i)).
  destruct pc as [| | | ts a | ts a | ts d flag a | |]; simpl in Hstep.
  - (* the loop test *)
    injection Hstep as <-. split; [| split].
    + split; simpl; try done. apply Forall_insert; [done |]. by destruct (_stop_event s).
    + intros info Hsome. destruct (Hinfo info Hsome) as (ts & a & -> & Hmax & [Hin | Hle]);
        exists ts, a; (split; [done | split; [done |]]); [left | by right].
      simpl. by eapply elem_of_insert_other.
    + by eapply (joined_online_pc s _ i OLoop).
  - (* get *)
    destruct (items (_online_queue s)) as [| item rest] eqn:Hitems; [done |].
    injection Hstep as <-. apply Forall_cons in Hoq as [Hitem Hrest].
    split; [| split].
    + split; simpl; try done. apply Forall_insert; [done |].
      by destruct item as [[ts a] |].
    + intros info Hsome. destruct (Hinfo info Hsome) as (ts & a & -> & Hmax & [Hin | Hle]);
        exists ts, a; (split; [done | split; [done |]]); [left | by right].
      simpl. by eapply elem_of_insert_other.
    + by eapply (joined_online_pc s _ i OGet).
  - (* the sentinel is acknowledged *)
    injection Hstep as <-. split; [| split].
    + split; simpl; try done. by apply Forall_insert.
    + intros info Hsome. destruct (Hinfo info Hsome) as (ts & a & -> & Hmax & [Hin | Hle]);
        exists ts, a; (split; [done | split; [done |]]); [left | by right].
      simpl. by eapply elem_of_insert_other.
    + by eapply (joined_online_pc s _ i OSentinel).
  - (* the retry bound is checked *)
    injection Hstep as <-. simpl in Hpc.
    destruct (Z.ltb_spec max_attempts a) as [Hexc | Hok].
    + split; [| split].
      * split; simpl; try done. by apply Forall_insert.
      * intros info. simpl.
        destruct (_abnormal_termination_info s) as [info0 |] eqn:Hold.
        -- intros [= <-].
           destruct (Hinfo info0 Hold) as (ts0 & a0 & -> & Hmax & [Hin | Hle]);
             exists ts0, a0; (split; [done | split; [done |]]); [left | by right].
           by eapply elem_of_insert_other.
        -- intros [= <-]. exists ts, a. split; [done | split; [done |]]. left.
           apply list_elem_of_lookup. exists i. apply list_lookup_insert_eq.
           by eapply lookup_lt_Some.
      * eapply (joined_online_pc s _ i (OCheck ts a)); try done.
        simpl. intros info Hsome. by rewrite Hsome.
    + split; [| split].
      * split; simpl; try done. by apply Forall_insert.
      * intros info Hsome.
        destruct (Hinfo info Hsome) as (ts0 & a0 & -> & Hmax & [Hin | Hle]);
          exists ts0, a0; (split; [done | split; [done |]]); [left | by right].
        simpl. by eapply elem_of_insert_other.
      * by eapply (joined_online_pc s _ i (OCheck ts a)).
  - (* the fetch *)
    destruct (fetch (calls s) ts) as [d flag]. injection Hstep as <-. simpl in Hpc.
    split; [| split].
    + split; simpl.
      * eapply Forall_impl; [exact Hoq |]. apply unit_counted_cons.
      * eapply Forall_impl; [exact Hlq |]. apply fetched_counted_cons.
      * apply Forall_insert.
        -- eapply Forall_impl; [exact Hot |]. apply online_counted_cons.
        -- simpl. rewrite fetches_cons_eq. lia.
      * eapply Forall_impl; [exact Hlt |]. apply local_counted_cons.
    + intros info Hsome. simpl in Hsome.
      destruct (Hinfo info Hsome) as (ts0 & a0 & -> & Hmax & [Hin | Hle]);
        exists ts0, a0; (split; [done | split; [done |]]); simpl.
      * destruct (decide (ts0 = ts)) as [-> | Hne].
        -- right. rewrite fetches_cons_eq.
           rewrite Forall_forall in Hot. specialize (Hot _ Hin). simpl in Hot. lia.
        -- left. eapply elem_of_insert_other; [done | done | congruence].
      * right. pose proof (fetches_cons ts0 ts (calls s)). lia.
    + by eapply (joined_online_pc s _ i (OFetch ts a)).
  - (* the result is queued *)
    injection Hstep as <-. simpl in Hpc. split; [| split].
    + split; simpl; try done.
      * apply Forall_app. split; [done |]. by repeat constructor.
      * by apply Forall_insert.
    + intros info Hsome. destruct (Hinfo info Hsome) as (ts0 & a0 & -> & Hmax & [Hin | Hle]);
        exists ts0, a0; (split; [done | split; [done |]]); [left | by right].
      simpl. by eapply elem_of_insert_other.
    + by eapply (joined_online_pc s _ i (OPut ts d flag a)).
  - (* the unit is acknowledged *)
    injection Hstep as <-. split; [| split].
    + split; simpl; try done. by apply Forall_insert.
    + intros info Hsome. destruct (Hinfo info Hsome) as (ts & a & -> & Hmax & [Hin | Hle]);
        exists ts, a; (split; [done | split; [done |]]); [left | by right].
      simpl. by eapply elem_of_insert_other.
    + by eapply (joined_online_pc s _ i OAck).
  - done.
Qed.

Lemma local_step_invariant i pc s s' :
  engine_invariant max_attempts s →
  local_threads s !! i = Some pc →
  local_step i pc s = Some s' →
  engine_invariant max_attempts s'.
Proof.
  intros ([Hoq Hlq Hot Hlt] & Hinfo & Hjoin) Hi Hstep.
  assert (local_counted (calls s) pc) as Hpc
    by (rewrite Forall_lookup in Hlt; by apply (Hlt i)).
  destruct pc as [| | | ts d flag a | |]; simpl in Hstep.
  - injection Hstep as <-. split; [| done].
    split; simpl; try done. apply Forall_insert; [done |]. by destruct (_stop_event s).
  - destruct (items (_local_queue s)) as [| item rest] eqn:Hitems; [done |].
    injection Hstep as <-. apply Forall_cons in Hlq as [Hitem Hrest].
    split; [| done]. split; simpl; try done. apply Forall_insert; [done |].
    by destruct item as [[[[ts d] flag] a] |].
  - injection Hstep as <-. split; [| done].
    split; simpl; try done. by apply Forall_insert.
  - injection Hstep as <-. simpl in Hpc.
    destruct flag; [destruct d as [[| e rows] |] |]; (split; [| done]);
      split; simpl; try done; try (by apply Forall_insert).
    apply Forall_app. split; [done |]. by repeat constructor.
  - injection Hstep as <-. split; [| done].
    split; simpl; try done. by apply Forall_insert.
  - done.
Qed.

Lemma main_step_invariant s s' :
  engine_invariant max_attempts s →
  main_step (main s) s = Some s' →
  engine_invariant max_attempts s'.
Proof.
  intros ([Hoq Hlq Hot Hlt] & Hinfo & Hjoin) Hstep. unfold joined in Hjoin.
  destruct (main s) as [| | [| k] | k | [| k] | k | | rows | x] eqn:Hmain;
    simpl in Hstep.
  - destruct (unfinished_tasks (_online_queue s)); [| done].
    injection Hstep as <-. by repeat split.
  - destruct (unfinished_tasks (_local_queue s)); [| done].
    injection Hstep as <-. by repeat split.
  - injection Hstep as <-. by repeat split.
  - injection Hstep as <-. split; [| done]. split; simpl; try done.
    apply Forall_app. split; [done |]. by repeat constructor.
  - destruct (local_threads s !! k) as [[] |]; try done;
      injection Hstep as <-; by repeat split.
  - injection Hstep as <-. split; [done |]. split; [done |].
    unfold joined. simpl. constructor.
  - injection Hstep as <-. split; [| done]. split; simpl; try done.
    apply Forall_app. split; [done |]. by repeat constructor.
  - destruct (online_threads s !! k) as [pc |] eqn:Hk.
    + destruct pc; try done. injection Hstep as <-.
      split; [done |]. split; [done |]. unfold joined. simpl.
      rewrite (take_S_r _ _ _ Hk). apply Forall_app. split; [done |]. by repeat constructor.
    + injection Hstep as <-. split; [done |]. split; [done |]. unfold joined. simpl.
      apply lookup_ge_None in Hk. by rewrite take_ge in Hjoin.
  - injection Hstep as <-. split; [done |]. split; [done |]. unfold joined. simpl.
    destruct (_abnormal_termination_info s) as [info |] eqn:Hsome; [| done].
    case_decide; [done |]. split; [done |]. by exists info.
  - done.
  - done.
Qed.

Lemma step_invariant t s s' :
  engine_invariant max_attempts s →
  step fetch max_attempts t s = Some s' →
  engine_invariant max_attempts s'.
Proof.
  intros Hinv. destruct t as [| i | i]; simpl.
  - by apply main_step_invariant.
  - destruct (online_threads s !! i) as [pc |] eqn:Hi; [| done]. simpl.
    by apply online_step_invariant.
  - destruct (local_threads s !! i) as [pc |] eqn:Hi; [| done]. simpl.
    by apply local_step_invariant.
Qed.

Lemma run_invariant schedule s s' :
  engine_invariant max_attempts s →
  run fetch max_attempts schedule s = Some s' →
  engine_invariant max_attempts s'.
Proof.
  revert s. induction schedule as [| t schedule IH]; intros s Hinv; simpl.
  - by intros [= <-].
  - destruct (step fetch max_attempts t s) as [s1 |] eqn:Hstep; [| done]. simpl.
    apply IH. by eapply step_invariant.
Qed.

Lemma started_invariant timestamp_list n m :
  engine_invariant max_attempts (started timestamp_list n m).
Proof.
  split; [| split]; [| done | done].
  split; simpl.
  - apply Forall_fmap, Forall_true. intros ts. simpl. unfold fetches. simpl. lia.
  - constructor.
  - by apply Forall_replicate.
  - by apply Forall_replicate.
Qed.

(** In every schedule: when [complete] raises, the message names a unit
    and an attempt count above the bound, and that unit has been fetched
    at least [max_attempts + 2] times. *)
Theorem raising_needs_an_extra_fetch task schedule s info :
  complete fetch max_attempts task schedule = Some s →
  main s = MRaised (RuntimeError info) →
  ∃ ts a, info = exhaustion_message ts a ∧ max_attempts < a ∧
          max_attempts + 2 ≤ fetches ts (calls s).
Proof.
  unfold complete.
  destruct (Task.timestamp_list task) as [l |]; [| done].
  destruct (Task.online_worker_count task) as [n |]; [| done].
  destruct (Task.local_worker_count task) as [m |]; [| done].
  intros Hrun Hmain.
  destruct (run_invariant _ _ _ (started_invariant l n m) Hrun) as (Hc & Hinfo & Hjoin).
  unfold joined in Hjoin. rewrite Hmain in Hjoin.
  destruct Hjoin as [Hdone (info' & [= <-] & Hsome)].
  destruct (Hinfo info Hsome) as (ts & a & -> & Hmax & [Hin | Hle]).
  - rewrite Forall_forall in Hdone. by specialize (Hdone _ Hin).
  - exists ts, a. split; [done | split; [done | lia]].
Qed.
End EngineInvariant.

(** *** What every schedule guarantees

    Two facts that do not depend on the schedule. The rows [complete]
    returns are rows the fetch answered with the flag NORMAL, none used
    twice. And when no fetch answers ERROR, [complete] does not raise and
    what it returns is the rows of every unit, each fetched once. *)

(** Moving one thread of a pool changes the pool's account by that
    thread's share only. *)
Lemma held_insert {A B : Type} (f : A → list B) (l : list A) i old new :
  l !! i = Some old →
  ∃ others, concat (f <$> l) ≡ₚ f old ++ others ∧
            concat (f <$> <[i := new]> l) ≡ₚ f new ++ others.
Proof.
  intros Hi. exists (concat (f <$> take i l) ++ concat (f <$> drop (S i) l)).
  rewrite insert_take_drop by (by eapply lookup_lt_Some).
  rewrite <- (take_drop_middle l i old Hi) at 1.
  rewrite !fmap_app, !fmap_cons, !concat_app, !concat_cons.
  split; solve_Permutation.
Qed.

(** The cases of [step]: which thread moves and where it stands. *)
Ltac step_cases Hstep :=
  match type of Hstep with
  | step _ _ ?t ?s = Some _ =>
      destruct t as [| ?i | ?i]; simpl in Hstep;
      [ destruct (main s) as [| | [| ?k] | ?k | [| ?k] | ?k | | ?rows | ?x] eqn:?Hmain;
          simpl in Hstep
      | destruct (online_threads s !! i)
          as [[| | | ?ts ?a | ?ts ?a | ?ts ?d ?flag ?a | |] |] eqn:?Hi; simpl in Hstep
      | destruct (local_threads s !! i)
          as [[| | | ?ts ?d ?flag ?a | |] |] eqn:?Hi; simpl in Hstep ];
      repeat case_match; simplify_eq
  end.

(** What a [Forall] says about the thread that moves and about the head
    of a queue. *)
Ltac use_forall :=
  repeat match goal with
  | H : Forall ?P ?l, Hi : ?l !! ?i = Some ?x |- _ =>
      lazymatch goal with
      | _ : P x |- _ => fail
      | _ => let Hx := fresh "Hx" in
             assert (P x) as Hx by (rewrite Forall_lookup in H; exact (H i x Hi))
      end
  | H : Forall _ (_ :: _) |- _ => apply Forall_cons in H as [? ?]
  end.

(** In a pool whose account is empty, the thread that moves held
    nothing, and the account stays empty if it takes nothing. *)
Lemma drained_insert {A B : Type} (f : A → list B) (l : list A) i old new :
  l !! i = Some old → concat (f <$> l) = [] →
  f old = [] ∧ (f new = [] → concat (f <$> <[i := new]> l) = []).
Proof.
  intros Hi Hnil. destruct (held_insert f l i old new Hi) as (others & Hold & Hnew).
  rewrite Hnil in Hold. symmetry in Hold. apply Permutation_nil_r in Hold.
  apply app_eq_nil in Hold as [Hf ->]. split; [done |].
  intros Hfn. rewrite Hfn in Hnew. by apply Permutation_nil_r in Hnew.
Qed.

(** A worker that holds no unacknowledged item holds no timestamp and
    no rows. *)
Lemma not_busy_online (l : list online_pc) :
  concat (busy_online <$> l) = [] →
  concat (pending_pc <$> l) = [] ∧ concat (held_online <$> l) = [].
Proof.
  induction l as [| pc l IH]; [done |]. csimpl. intros Hnil.
  apply app_eq_nil in Hnil as [Hpc Hl]. destruct (IH Hl) as [-> ->].
  by destruct pc.
Qed.

Lemma not_busy_local (l : list local_pc) :
  concat (busy_local <$> l) = [] → concat (held_local <$> l) = [].
Proof.
  induction l as [| pc l IH]; [done |]. csimpl. intros Hnil.
  apply app_eq_nil in Hnil as [Hpc Hl]. rewrite (IH Hl). by destruct pc.
Qed.

(** The thread that moves is taken out of the account of its pool. *)
Ltac move_thread f :=
  match goal with
  | Hi : ?l !! ?i = Some ?old |- context [f <$> <[?i := ?new]> ?l] =>
      let others := fresh "others" in
      let Hold := fresh "Hold" in
      let Hnew := fresh "Hnew" in
      destruct (held_insert f l i old new Hi) as (others & Hold & Hnew);
      rewrite ?Hnew; simpl in Hold
  end.

(** [rows_accounted] holds when the workers start and every action of
    every thread preserves it. *)
Section Accounting.
Context (fetch : fetch_callback) (max_attempts : Z).

Lemma online_step_accounted i pc s s' :
  rows_accounted fetch s →
  online_threads s !! i = Some pc →
  online_step fetch max_attempts i pc s = Some s' →
  rows_accounted fetch s'.
Proof.
  intros [Hrows Hret] Hi Hstep. unfold rows_accounted, in_flight in *.
  destruct pc as [| | | ts a | ts a | ts d flag a | |]; simpl in Hstep.
  - injection Hstep as <-. simpl. split; [| done].
    destruct (held_insert held_online _ i _ (if _stop_event s then ODone else OGet) Hi)
      as (others & Hold & Hnew).
    rewrite Hnew. rewrite Hold in Hrows. by destruct (_stop_event s).
  - destruct (items (_online_queue s)) as [| item rest]; [done |].
    injection Hstep as <-. simpl. split; [| done].
    destruct (held_insert held_online _ i _
                (match item with
                 | Some (ts, attempt_times) => OCheck ts attempt_times
                 | None => OSentinel
                 end) Hi) as (others & Hold & Hnew).
    rewrite Hnew. rewrite Hold in Hrows. by destruct item as [[??] |].
  - injection Hstep as <-. simpl. split; [| done].
    destruct (held_insert held_online _ i _ ODone Hi) as (others & Hold & Hnew).
    rewrite Hnew. by rewrite Hold in Hrows.
  - injection Hstep as <-.
    destruct (held_insert held_online _ i _ (OFetch ts a) Hi) as (others & Hold & Hnew).
    destruct (max_attempts <? a); simpl; (split; [| done]);
      rewrite Hnew; by rewrite Hold in Hrows.
  - destruct (fetch (calls s) ts) as [d flag] eqn:Hfetch. injection Hstep as <-. simpl.
    split; [| done]. rewrite Hfetch.
    destruct (held_insert held_online _ i _ (OPut ts d flag a) Hi)
      as (others & Hold & Hnew).
    rewrite Hnew. rewrite Hold in Hrows. simpl in *. rewrite <- Hrows. solve_Permutation.
  - injection Hstep as <-. simpl. split; [| done].
    destruct (held_insert held_online _ i _ OAck Hi) as (others & Hold & Hnew).
    rewrite Hnew. rewrite Hold in Hrows. simpl in *.
    rewrite fmap_app, concat_app. simpl. rewrite <- Hrows. solve_Permutation.
  - injection Hstep as <-. simpl. split; [| done].
    destruct (held_insert held_online _ i _ OLoop Hi) as (others & Hold & Hnew).
    rewrite Hnew. by rewrite Hold in Hrows.
  - done.
Qed.

Lemma local_step_accounted i pc s s' :
  rows_accounted fetch s →
  local_threads s !! i = Some pc →
  local_step i pc s = Some s' →
  rows_accounted fetch s'.
Proof.
  intros [Hrows Hret] Hi Hstep. unfold rows_accounted, in_flight in *.
  destruct pc as [| | | ts d flag a | |]; simpl in Hstep.
  - injection Hstep as <-. simpl. split; [| done].
    destruct (held_insert held_local _ i _ (if _stop_event s then LDone else LGet) Hi)
      as (others & Hold & Hnew).
    rewrite Hnew. rewrite Hold in Hrows. by destruct (_stop_event s).
  - destruct (items (_local_queue s)) as [| item rest]; [done |].
    injection Hstep as <-. simpl. split; [| done].
    destruct (held_insert held_local _ i _
                (match item with
                 | Some (ts, d, flag, attempt_times) => LProcess ts d flag attempt_times
                 | None => LSentinel
                 end) Hi) as (others & Hold & Hnew).
    rewrite Hnew. rewrite Hold in Hrows. simpl in *. rewrite <- Hrows.
    destruct item as [[[[ts d] flag] a] |]; simpl; solve_Permutation.
  - injection Hstep as <-. simpl. split; [| done].
    destruct (held_insert held_local _ i _ LDone Hi) as (others & Hold & Hnew).
    rewrite Hnew. by rewrite Hold in Hrows.
  - injection Hstep as <-.
    destruct (held_insert held_local _ i _ LAck Hi) as (others & Hold & Hnew).
    rewrite Hold in Hrows. simpl in Hrows.
    destruct flag; [destruct d as [[| e rows] |] |]; simpl in *;
      (split; [rewrite Hnew; simpl; rewrite <- Hrows; solve_Permutation |]);
      destruct (main s); try done.
    by apply prefix_app_r.
  - injection Hstep as <-. simpl. split; [| done].
    destruct (held_insert held_local _ i _ LLoop Hi) as (others & Hold & Hnew).
    rewrite Hnew. by rewrite Hold in Hrows.
  - done.
Qed.

Lemma main_step_accounted s s' :
  rows_accounted fetch s →
  main_step (main s) s = Some s' →
  rows_accounted fetch s'.
Proof.
  intros [Hrows Hret] Hstep. unfold rows_accounted, in_flight in *.
  destruct (main s) as [| | [| k] | k | [| k] | k | | rows | x] eqn:Hmain;
    simpl in Hstep.
  - destruct (unfinished_tasks (_online_queue s)); [| done]. by injection Hstep as <-.
  - destruct (unfinished_tasks (_local_queue s)); [| done]. by injection Hstep as <-.
  - by injection Hstep as <-.
  - injection Hstep as <-. simpl. split; [| done].
    rewrite fmap_app, concat_app. simpl. rewrite <- Hrows. solve_Permutation.
  - destruct (local_threads s !! k) as [[] |]; try done; by injection Hstep as <-.
  - by injection Hstep as <-.
  - by injection Hstep as <-.
  - destruct (online_threads s !! k) as [[] |]; try done; by injection Hstep as <-.
  - injection Hstep as <-. simpl. split; [done |].
    destruct (_abnormal_termination_info s); [case_decide |]; done.
  - done.
  - done.
Qed.

Lemma run_accounted schedule s s' :
  rows_accounted fetch s →
  run fetch max_attempts schedule s = Some s' →
  rows_accounted fetch s'.
Proof.
  revert s. induction schedule as [| t schedule IH]; intros s Hinv; simpl.
  - by intros [= <-].
  - destruct (step fetch max_attempts t s) as [s1 |] eqn:Hstep; [| done]. simpl.
    apply IH. destruct t as [| i | i]; simpl in Hstep.
    + by apply (main_step_accounted s).
    + destruct (online_threads s !! i) as [pc |] eqn:Hi; [| done].
      by eapply online_step_accounted.
    + destruct (local_threads s !! i) as [pc |] eqn:Hi; [| done].
      by eapply local_step_accounted.
Qed.

Lemma started_accounted timestamp_list n m :
  rows_accounted fetch (started timestamp_list n m).
Proof.
  split; [| done]. unfold in_flight. simpl.
  assert (∀ k, concat (held_online <$> replicate k OLoop) = []) as ->
    by (induction k; [done | by csimpl]).
  assert (∀ k, concat (held_local <$> replicate k LLoop) = []) as ->
    by (induction k; [done | by csimpl]).
  done.
Qed.

(** In every schedule: the rows [complete] returns were answered by the
    fetch with the flag NORMAL, and no answer is used twice. *)
Theorem returned_rows_were_fetched task schedule s rows :
  complete fetch max_attempts task schedule = Some s →
  main s = MReturned rows →
  rows ⊆+ fetched_rows fetch (calls s).
Proof.
  unfold complete.
  destruct (Task.timestamp_list task) as [l |]; [| done].
  destruct (Task.online_worker_count task) as [n |]; [| done].
  destruct (Task.local_worker_count task) as [m |]; [| done].
  intros Hrun Hmain.
  destruct (run_accounted _ _ _ (started_accounted l n m) Hrun) as [Hrows Hret].
  rewrite Hmain in Hret. rewrite <- Hrows.
  destruct Hret as [later ->]. rewrite <- !app_assoc. apply submseteq_inserts_r.
  done.
Qed.
End Accounting.

(** [smooth] holds when the workers start and, for a fetch that never
    answers ERROR and a non-negative retry bound, every action of every
    thread preserves it; each field has its own lemma. *)
Section Smooth.
Context (fetch : fetch_callback) (max_attempts : Z).
Hypothesis fetch_normal : ∀ calls ts, (fetch calls ts).2 = NORMAL.

Lemma flags_normal_step t s s' :
  flags_normal s → step fetch max_attempts t s = Some s' → flags_normal s'.
Proof.
  intros (Hq & Ho & Hl) Hstep. unfold flags_normal.
  step_cases Hstep; use_forall; simpl in *; repeat split; try done;
    try (apply Forall_insert; [done |]; simpl; try done);
    try (apply Forall_app; split; [done |]; repeat constructor; done).
  match goal with H : fetch ?c ?ts = _ |- _ =>
    pose proof (fetch_normal c ts) as Hn; by rewrite H in Hn end.
Qed.

Hypothesis bound_nonneg : 0 ≤ max_attempts.

Lemma first_attempts_step t s s' :
  flags_normal s → first_attempts s →
  step fetch max_attempts t s = Some s' → first_attempts s'.
Proof.
  intros (Hq & Ho & Hl) (Hoq & Hot & Hinfo) Hstep. unfold first_attempts.
  step_cases Hstep; use_forall; simpl in *; simplify_eq; try lia;
    repeat split; try done;
    try (apply Forall_insert; [done |]; simpl; try done);
    try (apply Forall_app; split; [done |]; repeat constructor; done).
Qed.

Lemma counters_step t s s' :
  counters s → step fetch max_attempts t s = Some s' → counters s'.
Proof.
  intros [Hon Hloc] Hstep. unfold counters in *.
  step_cases Hstep; simpl in *; rewrite ?length_app; simpl;
    try match goal with
    | Hi : online_threads ?s !! ?i = Some ?old
      |- context [busy_online <$> <[?i := ?new]> _] =>
        destruct (held_insert busy_online _ i old new Hi) as (others & Hold & Hnew);
        apply Permutation_length in Hold, Hnew; rewrite length_app in Hold, Hnew;
        rewrite Hnew; rewrite Hold in Hon
    | Hi : local_threads ?s !! ?i = Some ?old
      |- context [busy_local <$> <[?i := ?new]> _] =>
        destruct (held_insert busy_local _ i old new Hi) as (others & Hold & Hnew);
        apply Permutation_length in Hold, Hnew; rewrite length_app in Hold, Hnew;
        rewrite Hnew; rewrite Hold in Hloc
    end;
    repeat match goal with H : items _ = _ |- _ => rewrite H in *; simpl in * end;
    simpl in *; unfold fetched_item, unit_item in *; split; lia.
Qed.

Lemma pending_step timestamp_list t s s' :
  flags_normal s → pending s ≡ₚ timestamp_list →
  step fetch max_attempts t s = Some s' → pending s' ≡ₚ timestamp_list.
Proof.
  intros (Hq & Ho & Hl) Hpend Hstep. unfold pending in *.
  step_cases Hstep; use_forall; simpl in *; simplify_eq;
    try move_thread pending_pc;
    repeat match goal with H : items _ = _ |- _ => rewrite H in *; simpl in * end;
    rewrite ?fmap_app, ?concat_app; simpl;
    rewrite <- Hpend; rewrite ?Hold; solve_Permutation.
Qed.

Lemma online_drained_step t s s' :
  flags_normal s → counters s →
  (main s ≠ MJoinOnline → online_drained s) →
  step fetch max_attempts t s = Some s' →
  main s' ≠ MJoinOnline → online_drained s'.
Proof.
  intros (Hq & Ho & Hl) [Hon Hloc] Hdr Hstep Hne. unfold online_drained in *.
  step_cases Hstep; use_forall; simpl in *; simplify_eq.
  all: try (destruct Hdr as (Hitems & Hpcs & Hheld); [first [exact Hne | done] |]).
  all: try match goal with
       | Hi : online_threads _ !! ?i = Some ?old |- context [<[?i := ?new]> _] =>
           destruct (drained_insert pending_pc _ i old new Hi Hpcs) as [Hp1 Hp2];
           destruct (drained_insert held_online _ i old new Hi Hheld) as [Hh1 Hh2];
           simpl in Hp1, Hh1; try discriminate
       end.
  all: repeat match goal with H : items _ = _ |- _ => rewrite H in *; simpl in * end.
  all: rewrite ?fmap_app, ?concat_app; simpl.
  all: try (by repeat split; auto).
  all: try (symmetry in Hon; apply Nat.eq_add_0 in Hon as [Hi0 Hb0];
       apply nil_length_inv in Hi0, Hb0; rewrite Hi0;
       destruct (not_busy_online _ Hb0) as [-> ->]; done).
  all: try (rewrite app_nil_r; by repeat split; auto).
Qed.

Lemma local_drained_step t s s' :
  flags_normal s → counters s →
  (main s ≠ MJoinOnline → online_drained s) →
  (main s ≠ MJoinOnline → main s ≠ MJoinLocal → local_drained s) →
  step fetch max_attempts t s = Some s' →
  main s' ≠ MJoinOnline → main s' ≠ MJoinLocal → local_drained s'.
Proof.
  intros (Hq & Ho & Hl) [Hon Hloc] Hdr Hdl Hstep Hne1 Hne2.
  unfold online_drained, local_drained in *.
  step_cases Hstep; use_forall; simpl in *; simplify_eq.
  all: try (destruct Hdr as (Hitems & Hpcs & Hheld); [first [exact Hne1 | done] |]).
  all: try (destruct Hdl as (Hqueue & Hlocal); [first [exact Hne1 | done] | first [exact Hne2 | done] |]).
  all: try match goal with
       | Hi : online_threads _ !! ?i = Some ?old |- _ =>
           destruct (drained_insert held_online _ i old old Hi Hheld) as [Hh1 _];
           simpl in Hh1
       end.
  all: try match goal with
       | Hi : local_threads _ !! ?i = Some ?old |- context [<[?i := ?new]> _] =>
           destruct (drained_insert held_local _ i old new Hi Hlocal) as [Hl1 Hl2];
           simpl in Hl1
       end.
  all: repeat match goal with H : items _ = _ |- _ => rewrite H in *; simpl in * end.
  all: rewrite ?fmap_app, ?concat_app; simpl.
  all: try (by repeat split; auto).
  all: try (symmetry in Hloc; apply Nat.eq_add_0 in Hloc as [Hi0 Hb0];
       apply nil_length_inv in Hi0, Hb0; rewrite Hi0;
       rewrite (not_busy_local _ Hb0); done).
  all: try (rewrite app_nil_r; by repeat split; auto).
  - split; [| done]. rewrite Hh1. simpl. rewrite app_nil_r. exact Hqueue.
  - apply app_eq_nil in Hqueue as [Hq1 Hq2]. split; [done |]. by apply Hl2.
Qed.

Lemma returned_step t s s' :
  flags_normal s →
  (main s ≠ MJoinOnline → main s ≠ MJoinLocal → local_drained s) →
  (∀ rows, main s = MReturned rows → rows = _cached_raw_data s) →
  step fetch max_attempts t s = Some s' →
  ∀ rows, main s' = MReturned rows → rows = _cached_raw_data s'.
Proof.
  intros (Hq & Ho & Hl) Hdl Hret Hstep rows Hrows.
  step_cases Hstep; use_forall; simpl in *; simplify_eq; auto.
  rewrite Hrows in Hdl. destruct Hdl as [_ Hlocal]; [done | done |].
  match goal with
  | Hi : local_threads _ !! ?i = Some ?old |- _ =>
      destruct (drained_insert held_local _ i old old Hi Hlocal) as [Hl1 _]
  end.
  done.
Qed.

Lemma not_raised_step t s s' :
  first_attempts s → (∀ x, main s ≠ MRaised x) →
  step fetch max_attempts t s = Some s' → ∀ x, main s' ≠ MRaised x.
Proof.
  intros (_ & _ & Hinfo) Hmain Hstep x.
  step_cases Hstep; simpl in *; simplify_eq; auto; congruence.
Qed.

Lemma smooth_step timestamp_list t s s' :
  smooth timestamp_list s → step fetch max_attempts t s = Some s' →
  smooth timestamp_list s'.
Proof.
  intros [Hf Ha Hc Hp Ho Hl Hr Hn] Hstep. split.
  - by eapply flags_normal_step.
  - by eapply first_attempts_step.
  - by eapply counters_step.
  - by eapply pending_step.
  - by eapply online_drained_step.
  - by eapply local_drained_step.
  - by eapply returned_step.
  - by eapply not_raised_step.
Qed.

Lemma smooth_run timestamp_list schedule s s' :
  smooth timestamp_list s → run fetch max_attempts schedule s = Some s' →
  smooth timestamp_list s'.
Proof.
  revert s. induction schedule as [| t schedule IH]; intros s Hinv; simpl.
  - by intros [= <-].
  - destruct (step fetch max_attempts t s) as [s1 |] eqn:Hstep; [| done]. simpl.
    apply IH. by eapply smooth_step.
Qed.

Lemma smooth_started timestamp_list n m :
  smooth timestamp_list (started timestamp_list n m).
Proof.
  assert (∀ k, concat (pending_pc <$> replicate k OLoop) = []) as Hpc
    by (induction k; [done | by csimpl]).
  assert (∀ k, concat (busy_online <$> replicate k OLoop) = []) as Hbo
    by (induction k; [done | by csimpl]).
  assert (∀ k, concat (busy_local <$> replicate k LLoop) = []) as Hbl
    by (induction k; [done | by csimpl]).
  split; try done.
  - repeat split; simpl; [constructor | |]; apply Forall_replicate; done.
  - repeat split; simpl; [| apply Forall_replicate; done].
    apply Forall_fmap, Forall_true. done.
  - split; simpl; rewrite ?Hbo, ?Hbl, ?length_fmap; simpl; lia.
  - unfold pending. simpl. rewrite Hpc, app_nil_r.
    induction timestamp_list as [| ts l IH]; [done |]. csimpl. by f_equiv.
Qed.

(** When the fetch never answers ERROR and the retry bound
    [max_attempts] is not negative, on every schedule: [complete] does
    not raise, and when it returns, every unit of the plan has been
    fetched exactly once and the rows returned are the rows of those
    fetches, each once. (With a negative bound the first check of a
    unit's attempt count, zero, already exceeds it.) *)
Theorem complete_without_errors task schedule s :
  complete fetch max_attempts task schedule = Some s →
  ∃ timestamp_list,
    Task.timestamp_list task = Some timestamp_list ∧
    (∀ x, main s ≠ MRaised x) ∧
    ∀ rows, main s = MReturned rows →
      calls s ≡ₚ timestamp_list ∧ rows ≡ₚ fetched_rows fetch (calls s).
Proof.
  unfold complete.
  destruct (Task.timestamp_list task) as [l |]; [| done].
  destruct (Task.online_worker_count task) as [n |]; [| done].
  destruct (Task.local_worker_count task) as [m |]; [| done].
  intros Hrun. exists l. split; [done |].
  destruct (smooth_run _ _ _ _ (smooth_started l n m) Hrun)
    as [Hf Ha Hc Hp Ho Hl Hr Hn].
  destruct (run_accounted fetch max_attempts _ _ _ (started_accounted fetch l n m) Hrun)
    as [Hrows _].
  split; [done |]. intros rows Hmain.
  destruct Ho as (Hitems & Hpcs & Hheld); [by rewrite Hmain |].
  destruct Hl as (Hqueue & Hlocal); [by rewrite Hmain | by rewrite Hmain |].
  split.
  - unfold pending in Hp. by rewrite Hitems, Hpcs, !app_nil_r in Hp.
  - rewrite (Hr rows Hmain). rewrite <- Hrows. unfold in_flight.
    by rewrite Hqueue, Hheld, Hlocal, !app_nil_r.
Qed.
End Smooth.

(** Such runs exist: [single_row] never answers ERROR and the schedule
    below takes [complete] to its [return]. Two runs that go well: two
    units on one worker per pool, and the
    retried unit of [fails_once] when the main thread reaches its first
    [join] late. *)
Lemma sequential_run_returns_both_rows :
  main <$> complete Examples.single_row 3 Examples.two_units Examples.sequential_schedule
  = Some (MReturned [ESeq [CInt 1000; CInt 42]; ESeq [CInt 2000; CInt 42]]).
Proof. vm_compute. reflexivity. Qed.

Lemma late_join_returns_retried_row :
  main <$> complete Examples.fails_once 3 Examples.one_unit Examples.late_join_schedule
  = Some (MReturned [ESeq [CInt 1000; CInt 5]]).
Proof. vm_compute. reflexivity. Qed.

(** C1, at the failing input. One unit is planned; its first fetch
    answers ERROR and its second answers NORMAL with one row, well within
    the three attempts allowed. On the schedule [early_join_schedule] the
    main thread gets past both [join()] calls between the two fetches, the
    local pool is shut down, the retried fetch leaves its row in the local
    queue, and [complete] returns an empty list. *)
Theorem complete_can_lose_retried_rows :
  Examples.fails_once [1000] 1000 = (Some [ESeq [CInt 1000; CInt 5]], NORMAL) ∧
  ∃ s, Factory.complete Examples.fails_once 3 Examples.one_unit
         Examples.early_join_schedule = Some s ∧
       Factory.main s = Factory.MReturned [] ∧
       Factory.calls s = [1000; 1000] ∧
       Factory.items (Factory._local_queue s)
       = [Some (1000, Some [ESeq [CInt 1000; CInt 5]], NORMAL, 2)].
Proof. split; [reflexivity |]. eexists. split; [vm_compute; reflexivity |]. done. Qed.

(** C2, at the failing input. One unit is planned, its fetch always
    answers ERROR, and [max_attempts] is 1. Three schedules, three ends:
    [complete] raises the error that names the timestamp, after three
    fetches of the unit and not two; or every worker has left its loop
    while the unit waits in the online queue, and the main thread stays
    blocked in [join()] for ever; or [complete] returns an empty list
    without any error, after two fetches. *)
Theorem always_failing_unit_outcomes :
  (∃ s, Factory.complete Examples.always_error 1 Examples.one_unit
          Examples.raising_schedule = Some s ∧
        Factory.main s
        = Factory.MRaised (RuntimeError "Exceeded max attempts (1) for timestamp (1000).") ∧
        Factory.calls s = [1000; 1000; 1000]) ∧
  (∃ s, Factory.complete Examples.always_error 1 Examples.one_unit
          Examples.stuck_schedule = Some s ∧
        Factory.main s = Factory.MJoinOnline ∧
        Factory.calls s = [1000; 1000; 1000] ∧
        ∀ t, Factory.step Examples.always_error 1 t s = None) ∧
  (∃ s, Factory.complete Examples.always_error 1 Examples.one_unit
          Examples.early_join_schedule = Some s ∧
        Factory.main s = Factory.MReturned [] ∧
        Factory.calls s = [1000; 1000]).
Proof.
  split; [| split].
  - eexists. split; [vm_compute; reflexivity |]. done.
  - eexists. split; [vm_compute; reflexivity |]. repeat split.
    intros [| [| i] | [| i]]; reflexivity.
  - eexists. split; [vm_compute; reflexivity |]. done.
Qed.

(** ** The engine, on every schedule *)

(** What every action of every thread preserves holds all along a run. *)
Lemma run_preserves (fetch : fetch_callback) (max_attempts : Z) (P : state → Prop) :
  (∀ t s s', P s → step fetch max_attempts t s = Some s' → P s') →
  ∀ schedule s s', P s → run fetch max_attempts schedule s = Some s' → P s'.
Proof.
  intros Hstep schedule. induction schedule as [| t schedule IH]; intros s s' HP; simpl.
  - by intros [= <-].
  - destruct (step fetch max_attempts t s) as [s1 |] eqn:Hs; [| done]. simpl.
    apply IH. by eapply Hstep.
Qed.

Lemma complete_inv fetch max_attempts task schedule s :
  complete fetch max_attempts task schedule = Some s →
  ∃ l n m, Task.timestamp_list task = Some l ∧
           Task.online_worker_count task = Some n ∧
           Task.local_worker_count task = Some m ∧
           run fetch max_attempts schedule (started l n m) = Some s.
Proof.
  unfold complete.
  destruct (Task.timestamp_list task) as [l |]; [| done].
  destruct (Task.online_worker_count task) as [n |]; [| done].
  destruct (Task.local_worker_count task) as [m |]; [| done].
  intros Hrun. by exists l, n, m.
Qed.

Lemma planned_step fetch max_attempts l t s s' :
  planned l s → step fetch max_attempts t s = Some s' → planned l s'.
Proof.
  intros [Hoq Hlq Hot Hlt Hc] Hstep.
  step_cases Hstep; use_forall; simpl in *; simplify_eq;
    split; simpl; try done;
    repeat match goal with H : items _ = _ |- _ => rewrite H in *; simpl in * end;
    use_forall;
    try (apply Forall_insert; [done |]; simpl; try done);
    try (apply Forall_app; split; [done |]; repeat constructor; done);
    try (constructor; done).
Qed.

Lemma planned_started l n m : planned l (started l n m).
Proof.
  split; simpl; try done.
  - apply Forall_fmap, Forall_forall. by intros ts Hts.
  - by apply Forall_replicate.
  - by apply Forall_replicate.
Qed.

(** The engine fetches for the timestamps of the plan and for no other,
    whatever the fetch answers and whatever the schedule. *)
Theorem fetches_stay_within_the_plan fetch max_attempts task schedule s l :
  complete fetch max_attempts task schedule = Some s →
  Task.timestamp_list task = Some l →
  ∀ ts, ts ∈ calls s → ts ∈ l.
Proof.
  intros Hrun Hl ts Hts.
  apply complete_inv in Hrun as (l' & n & m & Hl' & _ & _ & Hrun).
  rewrite Hl in Hl'. injection Hl' as <-.
  destruct (run_preserves fetch max_attempts (planned l)
              (planned_step fetch max_attempts l) _ _ _ (planned_started l n m) Hrun)
    as [_ _ _ _ Hc].
  rewrite Forall_forall in Hc. by apply Hc.
Qed.

Lemma fetches_stay_within_the_plan_witness :
  ∃ s, complete Examples.fails_once 3 Examples.one_unit Examples.late_join_schedule
       = Some s ∧
       calls s = [1000; 1000] ∧ ∀ ts, ts ∈ calls s → ts ∈ [1000].
Proof.
  destruct (complete Examples.fails_once 3 Examples.one_unit Examples.late_join_schedule)
    as [s |] eqn:Hrun; [| vm_compute in Hrun; discriminate].
  exists s. split; [reflexivity |]. split.
  - vm_compute in Hrun. by injection Hrun as <-.
  - exact (fetches_stay_within_the_plan Examples.fails_once 3 Examples.one_unit
             Examples.late_join_schedule s [1000] Hrun eq_refl).
Defined.

(** *** The empty plan *)

Lemma quiet_step fetch max_attempts t s s' :
  planned [] s → quiet s → step fetch max_attempts t s = Some s' → quiet s'.
Proof.
  intros [Hoq Hlq Hot Hlt Hc] [Hinfo Hmain] Hstep. unfold quiet.
  step_cases Hstep; use_forall; simpl in *; simplify_eq;
    try (split; [done | intros x; by try apply Hmain]);
    try by match goal with H : _ ∈ [] |- _ => apply elem_of_nil in H end.
Qed.

(** With no unit planned, [complete] fetches nothing and does not raise,
    and what it returns is the empty list, on every schedule. *)
Theorem empty_plan_fetches_nothing fetch max_attempts task schedule s :
  complete fetch max_attempts task schedule = Some s →
  Task.timestamp_list task = Some [] →
  calls s = [] ∧ (∀ x, main s ≠ MRaised x) ∧
  ∀ rows, main s = MReturned rows → rows = [].
Proof.
  intros Hrun Hl.
  apply complete_inv in Hrun as (l' & n & m & Hl' & _ & _ & Hrun).
  rewrite Hl in Hl'. injection Hl' as <-.
  assert (planned [] s ∧ quiet s) as [[_ _ _ _ Hc] [_ Hmain]].
  { apply (run_preserves fetch max_attempts (λ s, planned [] s ∧ quiet s))
      with (schedule := schedule) (s := started [] n m); [| | done].
    - intros t s0 s1 [Hp Hq] Hstep. split;
        [by eapply planned_step | by eapply quiet_step].
    - split; [apply planned_started | by split]. }
  assert (calls s = []) as Hcalls.
  { destruct (calls s) as [| ts c]; [done |].
    apply Forall_cons in Hc as [Hts _]. by apply elem_of_nil in Hts. }
  split; [done |]. split; [done |]. intros rows Hrows.
  destruct (run_accounted fetch max_attempts _ _ _ (started_accounted fetch [] n m) Hrun)
    as [Hacc Hret].
  rewrite Hrows in Hret. rewrite Hcalls in Hacc. simpl in Hacc.
  apply Permutation_nil_r in Hacc. apply app_eq_nil in Hacc as [Hcached _].
  rewrite Hcached in Hret. by apply prefix_nil_inv in Hret.
Qed.

Lemma empty_plan_fetches_nothing_witness :
  ∃ s, complete Examples.single_row 3 Cases.no_unit Cases.idle_schedule = Some s ∧
       main s = MReturned [] ∧ calls s = [].
Proof.
  destruct (complete Examples.single_row 3 Cases.no_unit Cases.idle_schedule)
    as [s |] eqn:Hrun; [| vm_compute in Hrun; discriminate].
  exists s. split; [reflexivity |].
  destruct (empty_plan_fetches_nothing Examples.single_row 3 Cases.no_unit
              Cases.idle_schedule s Hrun eq_refl) as (Hcalls & _ & _).
  split; [| exact Hcalls].
  vm_compute in Hrun. by injection Hrun as <-.
Defined.

(** *** No online worker *)

Lemma starved_step fetch max_attempts t s s' :
  starved s → step fetch max_attempts t s = Some s' → starved s'.
Proof.
  intros (Hthreads & Hmain & Hunf & Hitems) Hstep. unfold starved.
  destruct t as [| i | i]; simpl in Hstep.
  - rewrite Hmain in Hstep. simpl in Hstep.
    by destruct (unfinished_tasks (_online_queue s)).
  - by rewrite Hthreads in Hstep.
  - destruct (local_threads s !! i) as [[| | | ts d flag a | |] |] eqn:Hi;
      simpl in Hstep; simplify_eq; try done.
    + by rewrite Hitems in Hstep.
    + by destruct flag; [destruct d as [[|] |] |].
Qed.

(** With a unit planned and no online worker started (a thread count of
    zero or less), the main thread never leaves its first [join]:
    [complete] neither returns nor raises, whatever the schedule. *)
Theorem no_online_worker_never_finishes fetch max_attempts task schedule s l n :
  complete fetch max_attempts task schedule = Some s →
  Task.timestamp_list task = Some l → l ≠ [] →
  Task.online_worker_count task = Some n → n ≤ 0 →
  main s = MJoinOnline.
Proof.
  intros Hrun Hl Hne Hn Hle.
  apply complete_inv in Hrun as (l' & n' & m & Hl' & Hn' & _ & Hrun).
  rewrite Hl in Hl'. injection Hl' as <-. rewrite Hn in Hn'. injection Hn' as <-.
  assert (starved s) as (_ & Hmain & _); [| done].
  apply (run_preserves fetch max_attempts starved (starved_step fetch max_attempts)
           schedule (started l n m)); [| done].
  repeat split; simpl.
  - by replace (Z.to_nat n) with 0%nat by lia.
  - by destruct l.
Qed.

Lemma no_online_worker_never_finishes_witness :
  ∃ s, complete Examples.single_row 3 Cases.no_online_worker
         [Local 0] = Some s ∧
       main s = MJoinOnline.
Proof.
  destruct (complete Examples.single_row 3 Cases.no_online_worker [Local 0])
    as [s |] eqn:Hrun; [| vm_compute in Hrun; discriminate].
  exists s. split; [reflexivity |].
  apply (no_online_worker_never_finishes Examples.single_row 3 Cases.no_online_worker
           [Local 0] s [1000] 0 Hrun eq_refl); [done | reflexivity | lia].
Defined.

(** *** The workers at the end *)

Lemma joined_prefix_insert {A : Type} (d : A) (l : list A) k i pc pc' :
  Forall (λ pc, pc = d) (take k l) → l !! i = Some pc → pc ≠ d →
  take k (<[i := pc']> l) = take k l.
Proof.
  intros Hdone Hi Hpc. apply take_insert_ge.
  destruct (decide (k ≤ i)%nat) as [? | Hlt]; [done |]. exfalso.
  rewrite Forall_lookup in Hdone. apply Hpc, (Hdone i).
  rewrite lookup_take_lt by lia. done.
Qed.

Lemma online_step_frame fetch max_attempts i pc s s' :
  online_step fetch max_attempts i pc s = Some s' →
  main s' = main s ∧ local_threads s' = local_threads s.
Proof.
  destruct pc; simpl; intros Hstep; repeat case_match; by simplify_eq.
Qed.

Lemma local_step_frame i pc s s' :
  local_step i pc s = Some s' →
  pc ≠ LDone ∧ main s' = main s ∧ online_threads s' = online_threads s ∧
  ∃ pc', local_threads s' = <[i := pc']> (local_threads s).
Proof.
  destruct pc; simpl; intros Hstep; repeat case_match; simplify_eq;
    (split; [done |]); (split; [done |]); (split; [done |]); by eexists.
Qed.

Lemma local_joined_step fetch max_attempts t s s' :
  local_joined s → step fetch max_attempts t s = Some s' → local_joined s'.
Proof.
  intros Hj Hstep. unfold local_joined in *.
  destruct t as [| i | i]; simpl in Hstep.
  - destruct (main s) as [| | [| k] | k | [| k] | k | | rows | x] eqn:Hmain;
      simpl in Hstep;
      repeat match type of Hstep with
             | context [match ?x with _ => _ end] => destruct x eqn:?
             end;
      simplify_eq; simpl; try done; try (by constructor).
    + match goal with H : local_threads s !! _ = Some LDone |- _ =>
        rewrite (take_S_r _ _ _ H) end.
      apply Forall_app. split; [done |]. by repeat constructor.
    + match goal with H : local_threads s !! _ = None |- _ =>
        apply lookup_ge_None in H; by rewrite take_ge in Hj end.
  - destruct (online_threads s !! i) as [pc |] eqn:Hi; [| done]. simpl in Hstep.
    apply online_step_frame in Hstep as [-> ->]. done.
  - destruct (local_threads s !! i) as [pc |] eqn:Hi; [| done]. simpl in Hstep.
    apply local_step_frame in Hstep as (Hpc & -> & _ & pc' & ->).
    destruct (main s); try done;
      try (exfalso; apply Hpc; rewrite Forall_lookup in Hj; by apply (Hj i)).
    by rewrite (joined_prefix_insert LDone _ _ _ _ pc' Hj Hi Hpc).
Qed.

Lemma local_joined_started l n m : local_joined (started l n m).
Proof. done. Qed.

(** When [complete] returns or raises, every worker of both pools has
    left its loop and no thread has anything left to do: the list
    returned cannot change afterwards. *)
Theorem nothing_runs_after_complete fetch max_attempts task schedule s :
  complete fetch max_attempts task schedule = Some s →
  finished s →
  Forall (λ pc, pc = ODone) (online_threads s) ∧
  Forall (λ pc, pc = LDone) (local_threads s) ∧
  ∀ t, step fetch max_attempts t s = None.
Proof.
  intros Hrun Hfin.
  apply complete_inv in Hrun as (l & n & m & _ & _ & _ & Hrun).
  pose proof (run_invariant fetch max_attempts _ _ _ (started_invariant max_attempts l n m) Hrun)
    as (_ & _ & Hj).
  pose proof (run_preserves fetch max_attempts local_joined
                (local_joined_step fetch max_attempts) _ _ _
                (local_joined_started l n m) Hrun) as Hlj.
  unfold finished, joined, local_joined in *.
  assert (Forall (λ pc, pc = ODone) (online_threads s) ∧
          Forall (λ pc, pc = LDone) (local_threads s)) as [Ho Hl].
  { destruct (main s); try done. by destruct Hj. }
  split; [done |]. split; [done |]. intros [| i | i]; simpl.
  - by destruct (main s).
  - destruct (online_threads s !! i) as [pc |] eqn:Hi; [| done].
    rewrite Forall_lookup in Ho. by rewrite (Ho i pc Hi).
  - destruct (local_threads s !! i) as [pc |] eqn:Hi; [| done].
    rewrite Forall_lookup in Hl. by rewrite (Hl i pc Hi).
Qed.

Lemma nothing_runs_after_complete_witness :
  ∃ s, complete Examples.fails_once 3 Examples.one_unit Examples.late_join_schedule
       = Some s ∧
       main s = MReturned [ESeq [CInt 1000; CInt 5]] ∧
       ∀ t, step Examples.fails_once 3 t s = None.
Proof.
  destruct (complete Examples.fails_once 3 Examples.one_unit Examples.late_join_schedule)
    as [s |] eqn:Hrun; [| vm_compute in Hrun; discriminate].
  exists s. split; [reflexivity |].
  assert (main s = MReturned [ESeq [CInt 1000; CInt 5]]) as Hmain.
  { vm_compute in Hrun. by injection Hrun as <-. }
  split; [exact Hmain |].
  apply (nothing_runs_after_complete Examples.fails_once 3 Examples.one_unit
           Examples.late_join_schedule s Hrun).
  unfold finished. by rewrite Hmain.
Defined.

(** *** Instances of the schedule-independent facts *)

Lemma returned_rows_were_fetched_witness :
  ∃ s, complete Examples.fails_once 3 Examples.one_unit Examples.late_join_schedule
       = Some s ∧
       main s = MReturned [ESeq [CInt 1000; CInt 5]] ∧
       [ESeq [CInt 1000; CInt 5]] ⊆+ fetched_rows Examples.fails_once (calls s).
Proof.
  destruct (complete Examples.fails_once 3 Examples.one_unit Examples.late_join_schedule)
    as [s |] eqn:Hrun; [| vm_compute in Hrun; discriminate].
  exists s. split; [reflexivity |].
  assert (main s = MReturned [ESeq [CInt 1000; CInt 5]]) as Hmain.
  { vm_compute in Hrun. by injection Hrun as <-. }
  split; [exact Hmain |].
  exact (returned_rows_were_fetched Examples.fails_once 3 Examples.one_unit
           Examples.late_join_schedule s _ Hrun Hmain).
Defined.

Lemma complete_without_errors_witness :
  ∃ s, complete Examples.single_row 3 Examples.two_units Examples.sequential_schedule
       = Some s ∧
       main s = MReturned [ESeq [CInt 1000; CInt 42]; ESeq [CInt 2000; CInt 42]] ∧
       calls s ≡ₚ [1000; 2000].
Proof.
  destruct (complete Examples.single_row 3 Examples.two_units Examples.sequential_schedule)
    as [s |] eqn:Hrun; [| vm_compute in Hrun; discriminate].
  exists s. split; [reflexivity |].
  assert (main s = MReturned [ESeq [CInt 1000; CInt 42]; ESeq [CInt 2000; CInt 42]])
    as Hmain.
  { vm_compute in Hrun. by injection Hrun as <-. }
  split; [exact Hmain |].
  destruct (complete_without_errors Examples.single_row 3 (λ _ _, eq_refl)
              ltac:(lia) Examples.two_units Examples.sequential_schedule s Hrun)
    as (l & Hl & _ & Hret).
  injection Hl as <-. by destruct (Hret _ Hmain).
Defined.

Lemma raising_needs_an_extra_fetch_witness :
  ∃ s, complete Examples.always_error 1 Examples.one_unit Examples.raising_schedule
       = Some s ∧
       main s = MRaised (RuntimeError "Exceeded max attempts (1) for timestamp (1000).") ∧
       ∃ ts a, "Exceeded max attempts (1) for timestamp (1000)." = exhaustion_message ts a ∧
               1 < a ∧ 1 + 2 ≤ fetches ts (calls s).
Proof.
  destruct (complete Examples.always_error 1 Examples.one_unit Examples.raising_schedule)
    as [s |] eqn:Hrun; [| vm_compute in Hrun; discriminate].
  exists s. split; [reflexivity |].
  assert (main s
          = MRaised (RuntimeError "Exceeded max attempts (1) for timestamp (1000)."))
    as Hmain.
  { vm_compute in Hrun. by injection Hrun as <-. }
  split; [exact Hmain |].
  exact (raising_needs_an_extra_fetch Examples.always_error 1 Examples.one_unit
           Examples.raising_schedule s _ Hrun Hmain).
Defined.

(** ** The planner: probes and plan *)






(** With a negative [MAX_ATTEMPT_TIMES] the test [while attempt_times:]
    never fails: when [LOCAL_THREADS_RATIO] is not zero (the division by
    it comes first and raises otherwise), every probe is turned down
    (flag ERROR, or an empty page) and there is no mapper, the planner
    probes for ever. *)
Theorem negative_bound_probes_for_ever cfg since until thread_count fetch_func fuel self w :
  LOCAL_THREADS_RATIO cfg ≠ 0 →
  MAX_ATTEMPT_TIMES cfg < 0 →
  (∀ calls ts, (fetch_func calls ts).2 = ERROR ∨ (fetch_func calls ts).1 = Some []) →
  Task.initialize_func cfg since until thread_count fetch_func None fuel self w = None.
Proof.
  intros Hratio Hmax Hfetch. unfold Task.initialize_func.
  destruct (Z.eqb_spec (LOCAL_THREADS_RATIO cfg) 0); [done |].
  generalize (MAX_ATTEMPT_TIMES cfg) Hmax. clear Hmax. revert w.
  induction fuel as [| fuel IH]; intros w a Ha; [done |].
  cbn [Task.probe_loop].
  destruct (Z.eqb_spec a 0); [lia |].
  unfold Task.probe.
  destruct (fetch_func (Task.calls w) since) as [d flag] eqn:Hf.
  specialize (Hfetch (Task.calls w) since). rewrite Hf in Hfetch. simpl in Hfetch.
  destruct Hfetch as [-> | ->].
  - apply IH. lia.
  - destruct flag; apply IH; lia.
Qed.

Lemma negative_bound_probes_for_ever_witness :
  Task.initialize_func
    {| MAX_ATTEMPT_TIMES := -1; LOCAL_THREADS_RATIO := 4; CSV_CHUNK_SIZE := 2;
       ALLOW_MAX_MISSING_TIMESTAMPS := 5 |}
    1000 9000 8 Examples.always_error None 50 Task.new Examples.fresh_world = None.
Proof.
  apply negative_bound_probes_for_ever.
  - simpl. lia.
  - simpl. lia.
  - intros calls ts. by left.
Defined.

(** A loop that ends well ends on an accepted page. *)
Lemma probe_loop_success fetch_func map_func since until online local fuel :
  ∀ attempt_times self w w' self',
    Task.probe_loop fetch_func map_func since until online local fuel
      attempt_times self w = Some (w', self', inr tt) →
    ∃ w0 e0 rest,
      Task.probe fetch_func map_func since w0 = (w', NORMAL, inr (Some (e0 :: rest))) ∧
      Task.plan until online local e0 (e0 :: rest) self = (self', inr tt).
Proof.
  induction fuel as [| fuel IH]; intros a self w w' self'; [done |].
  cbn [Task.probe_loop].
  destruct (Z.eqb_spec a 0); [done |].
  destruct (Task.probe fetch_func map_func since w) as [[w1 flag] [x | d]] eqn:Hprobe;
    [done |].
  destruct flag; [| by apply IH].
  destruct d as [[| e0 rest] |]; [by apply IH | | done].
  destruct (Task.plan until online local e0 (e0 :: rest) self) as [self1 r1] eqn:Hplan.
  intros [= <- <- ->]. by exists w, e0, rest.
Qed.

Lemma elem_of_range start stop step l t :
  0 < step →
  range start stop step = inr l →
  t ∈ l ↔ grid_below start stop step t.
Proof.
  intros Hstep. unfold range.
  destruct (Z.eqb_spec step 0); [lia |]. intros [= <-].
  rewrite list_elem_of_fmap. unfold grid_below. split.
  - intros (k & -> & Hk). apply elem_of_seqZ in Hk. exists k.
    split; [lia | split; [done |]]. apply range_len_lt; lia.
  - intros (k & Hk & -> & Hlt). exists k. split; [done |].
    apply elem_of_seqZ. split; [lia |]. apply range_len_lt in Hlt; lia.
Qed.

Lemma range_ascending start stop step l :
  0 < step → range start stop step = inr l → StronglySorted Z.lt l.
Proof.
  intros Hstep. unfold range.
  destruct (Z.eqb_spec step 0); [lia |]. intros [= <-].
  generalize (range_len start stop step). intros len0.
  assert (∀ (len : nat) from, StronglySorted Z.lt
            ((λ i, start + i * step) <$> seqZ from (Z.of_nat len))) as Hs.
  { induction len as [| len IH]; intros from; [constructor |].
    rewrite Nat2Z.inj_succ, seqZ_cons by lia. csimpl. constructor.
    - replace (Z.pred (Z.succ (Z.of_nat len))) with (Z.of_nat len) by lia. apply IH.
    - apply Forall_fmap, Forall_forall. intros i Hi. apply elem_of_seqZ in Hi.
      simpl. nia. }
  destruct (Z.le_gt_cases 0 len0) as [Hn | Hn].
  - rewrite <- (Z2Nat.id len0 Hn). apply Hs.
  - rewrite seqZ_nil by lia. constructor.
Qed.

(** A plan that [initialize] has produced: it was read off an accepted
    probe page, NORMAL and not empty, whose first and last rows carry the
    integer times [first] and [last]; these differ, the timestamps are
    [first], [first + delta], ... below [until] in ascending order, with
    [delta] their distance (so the plan starts at the page's first time,
    not at the [since] asked for), and the pools get [thread_count] online
    workers and at least one local worker. *)
Theorem initialized_plan cfg since until thread_count fetch_func map_func fuel
    self w w' self' :
  Task.initialize_func cfg since until thread_count fetch_func map_func fuel self w
  = Some (w', self', inr tt) →
  ∃ w0 e0 rest first last timestamp_list,
    Task.probe fetch_func map_func since w0 = (w', NORMAL, inr (Some (e0 :: rest))) ∧
    Task.first_field e0 = inr (CInt first) ∧
    Task.first_field (List.last (e0 :: rest) e0) = inr (CInt last) ∧
    first ≠ last ∧
    Task.timestamp_list self' = Some timestamp_list ∧
    (∀ t, t ∈ timestamp_list ↔
          ∃ k, 0 ≤ k ∧ t = first + k * Z.abs (first - last) ∧ t < until) ∧
    StronglySorted Z.lt timestamp_list ∧
    Task.online_worker_count self' = Some thread_count ∧
    ∃ local_worker_count,
      Task.local_worker_count self' = Some local_worker_count ∧
      1 ≤ local_worker_count ∧
      local_worker_count = Z.max 1 (thread_count `div` LOCAL_THREADS_RATIO cfg).
Proof.
  unfold Task.initialize_func.
  destruct (Z.eqb_spec (LOCAL_THREADS_RATIO cfg) 0); [done |]. intros Hloop.
  apply probe_loop_success in Hloop as (w0 & e0 & rest & Hprobe & Hplan).
  exists w0, e0, rest. unfold Task.plan in Hplan.
  destruct (Task.first_field e0) as [x | a]; [by simplify_eq |].
  destruct (Task.first_field (List.last (e0 :: rest) e0)) as [x | b]; [by simplify_eq |].
  destruct a as [first | ?], b as [last | ?]; simpl in Hplan; try by simplify_eq.
  destruct (range first until (Z.abs (first - last))) as [x | l] eqn:Hrange;
    [by simplify_eq |].
  injection Hplan as <-. exists first, last, l.
  assert (first ≠ last) as Hne.
  { intros ->. rewrite Z.sub_diag in Hrange. done. }
  assert (0 < Z.abs (first - last)) as Hdelta by lia.
  repeat split; try done.
  - by apply elem_of_range.
  - by apply (elem_of_range first until (Z.abs (first - last)) l t Hdelta Hrange).
  - by eapply range_ascending.
  - eexists. split; [reflexivity |]. split; [lia | done].
Qed.

Lemma initialized_plan_witness :
  ∃ w' self',
    Task.initialize_func Examples.config 1000 200000 8 Cases.two_rows None 1
      Task.new Examples.fresh_world = Some (w', self', inr tt) ∧
    Task.timestamp_list self' = Some [1000; 61000; 121000; 181000] ∧
    ∃ w0 e0 rest first last timestamp_list,
      Task.probe Cases.two_rows None 1000 w0 = (w', NORMAL, inr (Some (e0 :: rest))) ∧
      Task.first_field e0 = inr (CInt first) ∧
      Task.first_field (List.last (e0 :: rest) e0) = inr (CInt last) ∧
      first ≠ last ∧
      Task.timestamp_list self' = Some timestamp_list ∧
      (∀ t, t ∈ timestamp_list ↔
            ∃ k, 0 ≤ k ∧ t = first + k * Z.abs (first - last) ∧ t < 200000) ∧
      StronglySorted Z.lt timestamp_list ∧
      Task.online_worker_count self' = Some 8 ∧
      ∃ local_worker_count,
        Task.local_worker_count self' = Some local_worker_count ∧
        1 ≤ local_worker_count ∧
        local_worker_count = Z.max 1 (8 `div` LOCAL_THREADS_RATIO Examples.config).
Proof.
  eexists _, _. split; [vm_compute; reflexivity |]. split; [reflexivity |].
  apply (initialized_plan Examples.config 1000 200000 8 Cases.two_rows None 1
           Task.new Examples.fresh_world).
  vm_compute. reflexivity.
Defined.

(** ** The mappers *)

Lemma map_entries_inr c l rows :
  Mapper.map_entries c l = inr rows →
  Forall2 (λ e r, Mapper.map_entry c e = inr r) l rows.
Proof.
  revert rows. induction l as [| e l IH]; intros rows; simpl.
  - intros [= <-]. constructor.
  - destruct (Mapper.map_entry c e) as [x | r] eqn:He; [done |].
    destruct (Mapper.map_entries c l) as [x | rs]; [done |].
    intros [= <-]. constructor; [done | by apply IH].
Qed.

Lemma map_entries_inl c l x :
  Mapper.map_entries c l = inl x → ∃ e, e ∈ l ∧ Mapper.map_entry c e = inl x.
Proof.
  induction l as [| e l IH]; simpl; [done |].
  destruct (Mapper.map_entry c e) as [y | r] eqn:He.
  - intros [= <-]. exists e. split; [left | done].
  - destruct (Mapper.map_entries c l) as [y | rs]; [| done].
    intros [= <-]. destruct (IH eq_refl) as (e' & Hin & He').
    exists e'. split; [by right | done].
Qed.

Lemma validate_uniform c cols rows σ :
  Mapper.columns c = Some cols →
  Forall (λ r : row, length r = length cols) rows →
  ∃ σ', Mapper.validate c rows σ = (σ', inr true) ∧ Mapper.get_validated σ' c = true.
Proof.
  intros Hcols Hrows. unfold Mapper.validate.
  destruct (Mapper.get_validated σ c) eqn:Hv; simpl; [by exists σ |].
  rewrite Hcols.
  destruct (list_find _ rows) as [[i r] |] eqn:Hfind.
  - apply list_find_Some in Hfind as (Hi & Hr & _).
    rewrite Forall_lookup in Hrows. by destruct Hr, (Hrows i r Hi).
  - eexists. split; [done |]. apply get_validated_set.
Qed.

(** The funding-rate mapper makes rows of exactly two fields, as many as
    it declares columns: [map_with_validation] either fails inside [map],
    on an element that is no record with the two keys, and then leaves
    the class as it was, or returns one row of two fields for every
    element and leaves the class validated. It never raises the format
    error. *)
Theorem funding_rows_have_two_fields l σ σ' r :
  Mapper.map_with_validation Mapper.FundingRateHistoryMapper (Some l) σ = (σ', r) →
  match r with
  | inr rows =>
      length rows = length l ∧ Forall (λ row : row, length row = 2%nat) rows ∧
      Mapper.get_validated σ' Mapper.FundingRateHistoryMapper = true
  | inl x =>
      σ' = σ ∧
      ∃ e, e ∈ l ∧ Mapper.map_entry Mapper.FundingRateHistoryMapper e = inl x ∧
           ∀ message, x ≠ DataFormatValidationError message
  end.
Proof.
  unfold Mapper.map_with_validation, Mapper.map.
  destruct (Mapper.map_entries Mapper.FundingRateHistoryMapper l) as [x | rows] eqn:Hmap.
  - intros [= <- <-]. split; [done |].
    destruct (map_entries_inl _ _ _ Hmap) as (e & Hin & He).
    exists e. split; [done |]. split; [done |]. intros message ->.
    destruct e as [cells | items]; simpl in He; [done |].
    destruct (items !! "info") as [info |]; [| done].
    by destruct (info !! "fundingTime"), (info !! "fundingRate").
  - apply map_entries_inr in Hmap.
    assert (Forall (λ row : row, length row = 2%nat) rows) as Hwidth.
    { induction Hmap as [| e row l rows He _ IH]; constructor; [| done].
      destruct e as [cells | items]; simpl in He; [done |].
      destruct (items !! "info") as [info |]; [| done].
      destruct (info !! "fundingTime"), (info !! "fundingRate"); by simplify_eq. }
    destruct (validate_uniform Mapper.FundingRateHistoryMapper ["time"; "rate"] rows σ
                eq_refl Hwidth) as (σ1 & Hval & Hflag).
    rewrite Hval. intros [= <- <-].
    split; [symmetry; by eapply Forall2_length | done].
Qed.

Lemma funding_rows_have_two_fields_witness :
  let record : entry :=
    EDict {[ "info" := {[ "fundingTime" := CInt 1000; "fundingRate" := CStr "0.0001" ]} ]} in
  ∃ σ',
    Mapper.map_with_validation Mapper.FundingRateHistoryMapper (Some [record])
      Mapper.initial = (σ', inr [[CInt 1000; CStr "0.0001"]]) ∧
    length [[CInt 1000; CStr "0.0001"]] = length [record] ∧
    Forall (λ row : row, length row = 2%nat) [[CInt 1000; CStr "0.0001"]] ∧
    Mapper.get_validated σ' Mapper.FundingRateHistoryMapper = true.
Proof.
  intros record.
  destruct (Mapper.map_with_validation Mapper.FundingRateHistoryMapper (Some [record])
              Mapper.initial) as [σ' r] eqn:Hmap.
  pose proof (funding_rows_have_two_fields [record] Mapper.initial σ' r Hmap) as Hspec.
  assert (r = inr [[CInt 1000; CStr "0.0001"]]) as ->.
  { vm_compute in Hmap. by injection Hmap as _ <-. }
  exists σ'. split; [reflexivity | exact Hspec].
Defined.

(** The OHLCV mapper, on a class not validated yet: [map_with_validation]
    returns rows exactly when every element is a sequence of at least
    five fields; the rows are then the first five fields of each element
    and the class is left validated. Otherwise it raises and the class is
    left as it was. *)
Theorem ohlcv_rows_are_the_first_five_fields l σ σ' r :
  Mapper.get_validated σ Mapper.OHLCVMapper = false →
  Mapper.map_with_validation Mapper.OHLCVMapper (Some l) σ = (σ', r) →
  (Forall is_candle l ∧ r = inr (candle_row <$> l) ∧
   Forall (λ row : row, length row = 5%nat) (candle_row <$> l) ∧
   Mapper.get_validated σ' Mapper.OHLCVMapper = true)
  ∨
  (¬ Forall is_candle l ∧ (∃ x, r = inl x) ∧ σ' = σ).
Proof.
  intros Hfresh. unfold Mapper.map_with_validation, Mapper.map.
  destruct (Mapper.map_entries Mapper.OHLCVMapper l) as [x | rows] eqn:Hmap.
  - intros [= <- <-]. right. split; [| split; [by exists x | done]].
    destruct (map_entries_inl _ _ _ Hmap) as (e & Hin & He).
    intros Hall. rewrite Forall_forall in Hall. specialize (Hall e Hin).
    by destruct e.
  - apply map_entries_inr in Hmap.
    assert (rows = candle_row <$> l) as ->.
    { induction Hmap as [| e row l rows He _ IH]; [done |]. csimpl.
      rewrite IH. f_equal. destruct e; simpl in He; by simplify_eq. }
    clear Hmap. unfold Mapper.validate. rewrite Hfresh. simpl.
    destruct (list_find _ (candle_row <$> l)) as [[i row] |] eqn:Hfind.
    + intros [= <- <-]. right. split; [| split; [by eexists | done]].
      apply list_find_Some in Hfind as (Hi & Hrow & _).
      intros Hall. apply Hrow.
      apply list_lookup_fmap_Some in Hi as (e & -> & He).
      rewrite Forall_lookup in Hall. specialize (Hall i e He).
      destruct e as [cells |]; [| done]. simpl in *. rewrite length_take. lia.
    + intros [= <- <-]. left.
      apply list_find_None in Hfind.
      assert (Forall (λ row : row, length row = 5%nat) (candle_row <$> l)) as Hwidth.
      { eapply Forall_impl; [exact Hfind |]. simpl. intros row Hrow.
        destruct (decide (length row = 5%nat)); [done | by destruct Hrow]. }
      split; [| split; [done | split; [done | apply get_validated_set]]].
      rewrite Forall_fmap in Hwidth. eapply Forall_impl; [exact Hwidth |].
      intros [cells | items]; simpl; [| done]. rewrite length_take. lia.
Qed.

Lemma ohlcv_rows_are_the_first_five_fields_witness :
  let candle := ESeq [CInt 0; CInt 1; CInt 2; CInt 3; CInt 4; CInt 5] in
  ∃ σ',
    Mapper.map_with_validation Mapper.OHLCVMapper (Some [candle]) Mapper.initial
    = (σ', inr [[CInt 0; CInt 1; CInt 2; CInt 3; CInt 4]]) ∧
    Mapper.get_validated σ' Mapper.OHLCVMapper = true.
Proof.
  intros candle.
  destruct (Mapper.map_with_validation Mapper.OHLCVMapper (Some [candle]) Mapper.initial)
    as [σ' r] eqn:Hmap.
  exists σ'.
  destruct (ohlcv_rows_are_the_first_five_fields [candle] Mapper.initial σ' r
              eq_refl Hmap) as [(_ & -> & _ & Hflag) | (Hno & _)].
  - split; [reflexivity | exact Hflag].
  - exfalso. apply Hno. repeat constructor; simpl; lia.
Defined.

Lemma first_entry_other (σ : gmap string bool) (name : string) (l : list string) :
  name ∉ l →
  list_find (λ b : option bool, is_Some b) ((λ k, <[ name := true ]> σ !! k) <$> l)
  = list_find (λ b : option bool, is_Some b) ((λ k, σ !! k) <$> l).
Proof.
  intros Hnot. f_equal. apply list_fmap_ext. intros n k Hk.
  apply lookup_insert_ne. intros Heq. apply Hnot. rewrite Heq.
  by eapply list_elem_of_lookup_2.
Qed.

Lemma first_entry_true (σ : gmap string bool) (name : string) (l : list string) :
  default false (list_find (λ b : option bool, is_Some b) ((λ k, σ !! k) <$> l) ≫= snd)
  = true →
  default false (list_find (λ b : option bool, is_Some b)
                   ((λ k, <[ name := true ]> σ !! k) <$> l) ≫= snd) = true.
Proof.
  induction l as [| k l IH]; csimpl; [done |].
  destruct (decide (k = name)) as [-> | Hne].
  - rewrite lookup_insert_eq. intros _. by rewrite decide_True by eauto.
  - rewrite lookup_insert_ne by done.
    destruct (σ !! k) as [b |] eqn:Hk; [done |].
    + rewrite !decide_False by (by intros [? [=]]).
      destruct (list_find _ ((λ k, σ !! k) <$> l)) as [[n b] |];
        destruct (list_find _ ((λ k, <[name:=true]> σ !! k) <$> l)) as [[n' b'] |];
        csimpl in *; auto.
Qed.

Lemma first_entry_reached (σ : gmap string bool) (name : string)
    (nearer further : list string) :
  Forall (λ k, σ !! k = None) nearer →
  default false (list_find (λ b : option bool, is_Some b)
                   ((λ k, <[ name := true ]> σ !! k) <$> (nearer ++ name :: further))
                   ≫= snd) = true.
Proof.
  induction 1 as [| k nearer Hk _ IH]; csimpl.
  - rewrite lookup_insert_eq. by rewrite decide_True by eauto.
  - destruct (decide (k = name)) as [-> | Hne].
    + rewrite lookup_insert_eq. by rewrite decide_True by eauto.
    + rewrite lookup_insert_ne, Hk by done.
      rewrite decide_False by (by intros [? [=]]).
      destruct (list_find _ _) as [[n b] |]; csimpl in *; auto.
Qed.

Lemma validate_outcome c rows σ σ' r :
  Hierarchy.validate c rows σ = (σ', r) →
  (σ' = σ ∧ (r = inr true → Hierarchy.get_validated σ c = true)) ∨
  (r = inr true ∧ Hierarchy.get_validated σ c = false ∧
   σ' = <[ Hierarchy.name c := true ]> σ).
Proof.
  unfold Hierarchy.validate.
  destruct (Hierarchy.get_validated σ c) eqn:Hv; simpl; [intros [= <- <-]; by left |].
  destruct (Hierarchy.columns c) as [cols |]; [| intros [= <- <-]; by left].
  destruct (list_find _ rows) as [[? ?] |]; intros [= <- <-]; [by left | by right].
Qed.

(** What [validate] does for the classes of the module is what it does
    for them as classes of the hierarchy. *)
Lemma validate_of_module (c : Mapper.cls) rows σ :
  Mapper.validate c rows σ = Hierarchy.validate (Hierarchy.of_module c) rows σ ∧
  Mapper.get_validated σ c = Hierarchy.get_validated σ (Hierarchy.of_module c).
Proof. by destruct c. Qed.

(** [validate] on a class writes at most the [_validated] entry of that
    class. A class whose method resolution order does not pass through it
    reads the flag it read before; no class that read True reads False
    afterwards; and when [validate] sets the flag, every class that
    inherits from it, with no entry of its own or of a nearer base, reads
    True as well, without any of its rows having been checked. *)
Theorem validation_reaches_only_subclasses c rows σ σ' r :
  Hierarchy.validate c rows σ = (σ', r) →
  (σ' = σ ∨ σ' = <[ Hierarchy.name c := true ]> σ) ∧
  (∀ c', Hierarchy.name c ∉ Hierarchy.mro c' →
         Hierarchy.get_validated σ' c' = Hierarchy.get_validated σ c') ∧
  (∀ c', Hierarchy.get_validated σ c' = true → Hierarchy.get_validated σ' c' = true) ∧
  (Hierarchy.get_validated σ c = false → r = inr true →
   ∀ c' nearer further,
     Hierarchy.mro c' = nearer ++ Hierarchy.name c :: further →
     Forall (λ k, σ !! k = None) nearer →
     Hierarchy.get_validated σ' c' = true).
Proof.
  intros Hrun.
  destruct (validate_outcome _ _ _ _ _ Hrun) as [[-> Hkept] | (-> & Hold & ->)].
  - split; [by left |]. split; [done |]. split; [done |].
    intros Hold Hr. rewrite (Hkept Hr) in Hold. done.
  - split; [by right |]. split; [| split].
    + intros c' Hnot. unfold Hierarchy.get_validated. by rewrite first_entry_other.
    + intros c'. apply first_entry_true.
    + intros _ _ c' nearer further Hmro Hnone.
      unfold Hierarchy.get_validated. rewrite Hmro. by apply first_entry_reached.
Qed.

Lemma validation_reaches_only_subclasses_witness :
  let rows := [[CInt 0; CInt 1; CInt 2; CInt 3; CInt 4]] in
  ∃ σ',
    Hierarchy.validate (Hierarchy.of_module Mapper.OHLCVMapper) rows Mapper.initial
    = (σ', inr true) ∧
    Hierarchy.get_validated σ' Cases.derived_mapper = true ∧
    Hierarchy.get_validated Mapper.initial Cases.derived_mapper = false ∧
    Hierarchy.get_validated σ'
      (Hierarchy.of_module Mapper.FundingRateHistoryMapper) = false.
Proof.
  intros rows.
  destruct (Hierarchy.validate (Hierarchy.of_module Mapper.OHLCVMapper) rows
              Mapper.initial) as [σ' r] eqn:Hrun.
  destruct (validation_reaches_only_subclasses _ _ _ _ _ Hrun)
    as (_ & Hother & _ & Hderived).
  assert (r = inr true) as -> by (vm_compute in Hrun; by injection Hrun as _ <-).
  exists σ'. split; [done |]. split; [| split].
  - apply (Hderived eq_refl eq_refl Cases.derived_mapper ["DailyMapper"] ["BaseMapper"]);
      [reflexivity |]. by repeat constructor.
  - reflexivity.
  - rewrite Hother; [reflexivity |].
    intros H. repeat (apply elem_of_cons in H as [H | H]; [discriminate |]).
    by apply elem_of_nil in H.
Defined.

(** ** The table operations of the persister *)

(** *** [_drop_duplicates] *)

Lemma drop_duplicates_from_sublist i seen df :
  Frame.drop_duplicates_from i seen df `sublist_of` df.
Proof.
  revert seen. induction df as [| r df IH]; intros seen; simpl; [done |].
  case_decide; [by apply sublist_cons | by apply sublist_skip].
Qed.

Lemma drop_duplicates_from_covers i seen df r :
  r ∈ df →
  r !!! i ∈ seen ∨ r !!! i ∈ Frame.column i (Frame.drop_duplicates_from i seen df).
Proof.
  revert seen. induction df as [| r0 df IH]; intros seen Hr; [by apply elem_of_nil in Hr |].
  simpl. apply elem_of_cons in Hr as [-> | Hr].
  - case_decide; [by left |]. right. simpl. left.
  - case_decide.
    + by apply IH.
    + destruct (IH (r0 !!! i :: seen) Hr) as [Hseen | Hkept].
      * apply elem_of_cons in Hseen as [-> | Hseen]; [| by left].
        right. simpl. left.
      * right. simpl. by right.
Qed.

Lemma drop_duplicates_from_first i seen df r :
  r ∈ Frame.drop_duplicates_from i seen df →
  ∃ before after, df = before ++ r :: after ∧ r !!! i ∉ Frame.column i before.
Proof.
  revert seen. induction df as [| r0 df IH]; intros seen; simpl;
    [intros Hr; by apply elem_of_nil in Hr |].
  case_decide as Hseen.
  - intros Hr. destruct (IH seen Hr) as (before & after & -> & Hfresh).
    exists (r0 :: before), after. split; [done |]. simpl.
    rewrite not_elem_of_cons. split; [| done]. intros Heq.
    destruct (drop_duplicates_from_fresh i seen (before ++ r :: after)) as [_ Hall].
    rewrite Forall_forall in Hall. apply (Hall r Hr). by rewrite Heq.
  - intros Hr. apply elem_of_cons in Hr as [-> | Hr].
    + exists [], df. split; [done |]. simpl. apply not_elem_of_nil.
    + destruct (IH _ Hr) as (before & after & -> & Hfresh).
      exists (r0 :: before), after. split; [done |]. simpl.
      rewrite not_elem_of_cons. split; [| done]. intros Heq.
      destruct (drop_duplicates_from_fresh i (r0 !!! i :: seen) (before ++ r :: after))
        as [_ Hall].
      rewrite Forall_forall in Hall. apply (Hall r Hr). rewrite Heq. left.
Qed.

(** [_drop_duplicates] keeps, for every time value of the table, the
    first row that carries it, in the order of the table: the rows kept
    carry pairwise different times, no time value is lost, and no row
    before a kept row carries its time. Nothing else of the saver
    changes. *)
Theorem drop_duplicates_keeps_the_first_row_of_each_time (self : Saver.t) df :
  Saver._df self = Some df →
  let i := Saver.time_column_index self in
  ∃ df',
    Saver._drop_duplicates self = (Saver.set_df df' self, [], inr tt) ∧
    NoDup (Frame.column i df') ∧
    df' `sublist_of` df ∧
    (∀ r, r ∈ df → r !!! i ∈ Frame.column i df') ∧
    (∀ r, r ∈ df' →
       ∃ before after, df = before ++ r :: after ∧ r !!! i ∉ Frame.column i before).
Proof.
  intros Hdf i. exists (Frame.drop_duplicates i df).
  rewrite _drop_duplicates_unfold, Hdf. split; [done |].
  unfold Frame.drop_duplicates. split; [apply drop_duplicates_from_fresh |].
  split; [apply drop_duplicates_from_sublist |]. split.
  - intros r Hr. destruct (drop_duplicates_from_covers i [] df r Hr) as [Hnil | Hin];
      [by apply elem_of_nil in Hnil | done].
  - intros r. apply drop_duplicates_from_first.
Qed.

Lemma drop_duplicates_keeps_the_first_row_of_each_time_witness :
  ∃ df',
    Saver._drop_duplicates (Saver.set_df [[CInt 2; CStr "a"]; [CInt 1; CStr "b"];
                                          [CInt 2; CStr "c"]] Examples.misnamed_saver)
    = (Saver.set_df df' Examples.misnamed_saver, [], inr tt) ∧
    df' = [[CInt 2; CStr "a"]; [CInt 1; CStr "b"]] ∧
    NoDup (Frame.column 0 df').
Proof.
  destruct (drop_duplicates_keeps_the_first_row_of_each_time
              (Saver.set_df [[CInt 2; CStr "a"]; [CInt 1; CStr "b"]; [CInt 2; CStr "c"]]
                 Examples.misnamed_saver)
              [[CInt 2; CStr "a"]; [CInt 1; CStr "b"]; [CInt 2; CStr "c"]] eq_refl)
    as (df' & Hrun & Hnodup & _).
  exists df'. split; [exact Hrun |].
  assert (df' = [[CInt 2; CStr "a"]; [CInt 1; CStr "b"]]) as Hdf'.
  { vm_compute in Hrun. by injection Hrun as <-. }
  split; [exact Hdf' | exact Hnodup].
Defined.

(** *** [_sort] *)

Lemma sort_values_descending i df df' :
  Frame.sort_values i false df = inr df' →
  df' ≡ₚ df ∧ Sorted (le_rel (Frame.row_le i)) (rev df').
Proof.
  unfold Frame.sort_values.
  destruct (Frame.comparable (Frame.column i df)) eqn:Hc; [| done].
  intros [= <-]. rewrite rev_involutive.
  assert (Frame.sort_values i true (rev df)
          = inr (Frame.stable_sort (Frame.row_le i) (rev df))) as Hasc.
  { unfold Frame.sort_values.
    rewrite (comparable_perm (Frame.column i (rev df)) (Frame.column i df)), Hc; [done |].
    unfold Frame.column. by rewrite <- Permutation_rev. }
  destruct (sort_values_sorted _ _ _ Hasc) as [Hp Hs]. split; [| done].
  rewrite <- Permutation_rev, Hp. by rewrite <- Permutation_rev.
Qed.

(** [_sort] orders the rows by their time: when the time column holds
    only integers or only text, the table becomes a rearrangement of
    itself in which the times never decrease (never increase, for a
    descending sort); when it mixes the two, [_sort] raises a TypeError
    and leaves the saver as it was. *)
Theorem sort_orders_the_rows_by_time (ascending : bool) (self : Saver.t) df :
  Saver._df self = Some df →
  let i := Saver.time_column_index self in
  if Frame.comparable (Frame.column i df) then
    ∃ df',
      Saver._sort ascending self = (Saver.set_df df' self, [], inr tt) ∧
      df' ≡ₚ df ∧
      Sorted (le_rel (Frame.row_le i)) (if ascending then df' else rev df')
  else
    ∃ message, Saver._sort ascending self = (self, [], inl (TypeError message)).
Proof.
  intros Hdf i. rewrite _sort_unfold, Hdf. fold i.
  destruct (Frame.comparable (Frame.column i df)) eqn:Hc.
  - destruct (Frame.sort_values i ascending df) as [x | df'] eqn:Hsort.
    { unfold Frame.sort_values in Hsort. by rewrite Hc in Hsort. }
    exists df'. split; [done |]. destruct ascending.
    + by apply sort_values_sorted.
    + by apply sort_values_descending.
  - unfold Frame.sort_values. rewrite Hc. by eexists.
Qed.

Lemma sort_orders_the_rows_by_time_witness :
  ∃ df',
    Saver._sort true (Saver.set_df [[CInt 3; CStr "a"]; [CInt 1; CStr "b"];
                                    [CInt 2; CStr "c"]] Examples.misnamed_saver)
    = (Saver.set_df df' Examples.misnamed_saver, [], inr tt) ∧
    df' = [[CInt 1; CStr "b"]; [CInt 2; CStr "c"]; [CInt 3; CStr "a"]] ∧
    Sorted (le_rel (Frame.row_le 0)) df'.
Proof.
  pose proof (sort_orders_the_rows_by_time true
                (Saver.set_df [[CInt 3; CStr "a"]; [CInt 1; CStr "b"]; [CInt 2; CStr "c"]]
                   Examples.misnamed_saver)
                [[CInt 3; CStr "a"]; [CInt 1; CStr "b"]; [CInt 2; CStr "c"]] eq_refl)
    as Hsort.
  simpl in Hsort. destruct Hsort as (df' & Hrun & _ & Hsorted).
  exists df'. split; [exact Hrun |].
  assert (df' = [[CInt 1; CStr "b"]; [CInt 2; CStr "c"]; [CInt 3; CStr "a"]]) as Hdf'.
  { vm_compute in Hrun. by injection Hrun as <-. }
  split; [exact Hdf' | exact Hsorted].
Defined.

(** *** [_save_file] *)

Lemma length_append (s1 s2 : string) :
  String.length (s1 +:+ s2) = (String.length s1 + String.length s2)%nat.
Proof. induction s1 as [| a s1 IH]; simpl; [done | by rewrite IH]. Qed.

Lemma append_inj_r (s1 s2 t : string) : s1 +:+ t = s2 +:+ t → s1 = s2.
Proof.
  revert s2. induction s1 as [| a s1 IH]; intros [| b s2] Heq.
  - done.
  - apply (f_equal String.length) in Heq. rewrite !length_append in Heq.
    simpl in Heq. lia.
  - apply (f_equal String.length) in Heq. rewrite !length_append in Heq.
    simpl in Heq. lia.
  - change (String a (s1 +:+ t) = String b (s2 +:+ t)) in Heq.
    injection Heq as -> Heq. f_equal. by apply IH.
Qed.

Lemma chunk_path_inj folder k1 k2 : chunk_path folder k1 = chunk_path folder k2 → k1 = k2.
Proof.
  unfold chunk_path. intros Heq.
  apply String.app_inj, String.app_inj, append_inj_r in Heq.
  by apply pretty_nat_inj in Heq.
Qed.

Lemma write_chunks_spec folder header df chunk_size starts :
  ∀ file_count fs fs' file_count',
    Saver.write_chunks folder header df chunk_size starts file_count fs
    = (fs', file_count') →
    file_count' = (file_count + length starts)%nat ∧
    (∀ k start, starts !! k = Some start →
       fs' !! chunk_path folder (file_count + k)
       = Some (Saver.CsvFile header (take chunk_size (drop (Z.to_nat start) df)))) ∧
    (∀ p, (∀ k, (k < length starts)%nat → p ≠ chunk_path folder (file_count + k)) →
          fs' !! p = fs !! p).
Proof.
  induction starts as [| start starts IH]; intros fc fs fs' fc'; simpl.
  - intros [= <- <-]. split; [lia |]. split; [done | done].
  - intros Hw. destruct (IH _ _ _ _ Hw) as (Hfc & Hfiles & Hother).
    split; [lia |]. split.
    + intros [| k] start'; simpl.
      * intros [= <-]. rewrite Hother.
        -- rewrite Nat.add_0_r. apply lookup_insert_eq.
        -- intros k _ Heq. apply chunk_path_inj in Heq. lia.
      * intros Hk. replace (fc + S k)%nat with (S fc + k)%nat by lia. by apply Hfiles.
    + intros p Hp. rewrite Hother.
      * apply lookup_insert_ne. intros <-. apply (Hp 0%nat); [lia |].
        by rewrite Nat.add_0_r.
      * intros k Hk. replace (S fc + k)%nat with (fc + S k)%nat by lia.
        apply Hp. lia.
Qed.

Lemma chunks_concat chunk_size (n : nat) :
  (0 < chunk_size)%nat →
  ∀ df : Frame.t, (length df ≤ n * chunk_size)%nat →
    concat (chunk_rows chunk_size df <$> seq 0 n) = df.
Proof.
  intros Hc. induction n as [| n IH]; intros df Hlen.
  - simpl in *. by destruct df; [| simpl in Hlen; lia].
  - cbn [seq]. rewrite <- fmap_S_seq. csimpl. rewrite <- list_fmap_compose.
    assert (chunk_rows chunk_size df ∘ S <$> seq 0 n
            = chunk_rows chunk_size (drop chunk_size df) <$> seq 0 n) as ->.
    { apply list_fmap_ext. intros _ k _. unfold chunk_rows. simpl.
      by rewrite drop_drop, Nat.add_comm. }
    rewrite IH by (rewrite length_drop; simpl in Hlen; lia).
    unfold chunk_rows. simpl. apply take_drop.
Qed.

Lemma chunk_count_spec chunk_size len :
  0 < chunk_size →
  Z.of_nat (chunk_count chunk_size len) = range_len 0 (Z.of_nat len) chunk_size ∧
  (len ≤ chunk_count chunk_size len * Z.to_nat chunk_size)%nat ∧
  ∀ k, (k < chunk_count chunk_size len)%nat → (k * Z.to_nat chunk_size < len)%nat.
Proof.
  intros Hc. unfold chunk_count, range_len.
  destruct (Z.ltb_spec 0 chunk_size) as [_ | ?]; [| lia].
  rewrite Z.sub_0_r.
  set (a := Z.of_nat len + chunk_size - 1).
  assert (0 ≤ a `div` chunk_size) as Hq by (apply Z.div_pos; lia).
  pose proof (Z.mul_div_le a chunk_size Hc).
  pose proof (Z.mul_succ_div_gt a chunk_size Hc).
  split; [lia |]. split; [nia |]. intros k Hk. nia.
Qed.

(** The chunk files [_save_file] writes. *)
Lemma _save_file_chunks cfg (self : Saver.t) df :
  Saver._df self = Some df →
  0 < CSV_CHUNK_SIZE cfg →
  let size := Z.to_nat (CSV_CHUNK_SIZE cfg) in
  let count := chunk_count (CSV_CHUNK_SIZE cfg) (length df) in
  ∃ s',
    Saver._save_file cfg self
    = (s', [(Saver.LInfo, "Created " +:+ pretty count +:+ " file" +:+
                          (if (1 <? count)%nat then "s" else "") +:+
                          " in " +:+ Saver._work_folder self)], inr tt) ∧
    Saver._df s' = Some df ∧
    (∀ k, (k < count)%nat →
       Saver.files s' !! chunk_path (Saver._work_folder self) k
       = Some (Saver.CsvFile (Saver.columns self) (chunk_rows size df k)) ∧
       chunk_rows size df k ≠ [] ∧ (length (chunk_rows size df k) ≤ size)%nat) ∧
    (∀ p, (∀ k, (k < count)%nat → p ≠ chunk_path (Saver._work_folder self) k) →
          Saver.files s' !! p = Saver.files self !! p) ∧
    concat (chunk_rows size df <$> seq 0 count) = df.
Proof.
  intros Hdf Hc size count.
  destruct (chunk_count_spec (CSV_CHUNK_SIZE cfg) (length df) Hc) as (Hcount & Hcover & Hin).
  fold count in Hcount, Hcover, Hin. fold size in Hcover, Hin.
  unfold Saver._save_file. rewrite bind_get, Hdf.
  assert (range 0 (Z.of_nat (length df)) (CSV_CHUNK_SIZE cfg)
          = inr ((λ k : nat, Z.of_nat (k * size)) <$> seq 0 count)) as Hrange.
  { unfold range. destruct (Z.eqb_spec (CSV_CHUNK_SIZE cfg) 0); [lia |]. f_equal.
    rewrite <- Hcount. 
    unfold seqZ. rewrite Nat2Z.id.
    rewrite <- list_fmap_compose. apply list_fmap_ext. intros _ k _. simpl.
    unfold size. rewrite Nat2Z.inj_mul, Z2Nat.id by lia. lia. }
  rewrite (bind_silent _ _ self self _) by (unfold Saver.lift; by rewrite Hrange).
  destruct (Saver.write_chunks (Saver._work_folder self) (Saver.columns self) df
              (Z.to_nat (CSV_CHUNK_SIZE cfg))
              ((λ k : nat, Z.of_nat (k * size)) <$> seq 0 count) 0 (Saver.files self))
    as [fs file_count] eqn:Hw.
  destruct (write_chunks_spec _ _ _ _ _ _ _ _ _ Hw) as (Hfc & Hfiles & Hother).
  rewrite length_fmap, length_seq in Hfc, Hother. simpl in Hfc, Hfiles, Hother.
  subst file_count.
  eexists. split; [reflexivity |]. simpl. split; [done |]. split; [| split].
  - intros k Hk. split; [| split].
    + rewrite (Hfiles k (Z.of_nat (k * size))).
      * unfold chunk_rows. by rewrite Nat2Z.id.
      * rewrite list_lookup_fmap, lookup_seq_lt by done. done.
    + unfold chunk_rows. intros Hnil. apply (f_equal length) in Hnil.
      rewrite length_take, length_drop in Hnil. simpl in Hnil.
      specialize (Hin k Hk). unfold size in *. lia.
    + unfold chunk_rows. rewrite length_take. lia.
  - exact Hother.
  - apply chunks_concat; [unfold size; lia | done].
Qed.

(** [_save_file] with a positive [CSV_CHUNK_SIZE]: the table is written
    to the files [0.csv], [1.csv], ... of the work folder, as many as
    the row count divided by the chunk size, rounded up; each file holds
    the columns as header and the next rows of the table, at least one
    and at most a chunk; the files read in order give the table back; no
    other file is touched and the table stays as it is. *)
Theorem save_file_cuts_the_table_into_chunks cfg (self : Saver.t) df :
  Saver._df self = Some df →
  0 < CSV_CHUNK_SIZE cfg →
  let size := Z.to_nat (CSV_CHUNK_SIZE cfg) in
  let count := chunk_count (CSV_CHUNK_SIZE cfg) (length df) in
  ∃ s',
    Saver._save_file cfg self
    = (s', [(Saver.LInfo, "Created " +:+ pretty count +:+ " file" +:+
                          (if (1 <? count)%nat then "s" else "") +:+
                          " in " +:+ Saver._work_folder self)], inr tt) ∧
    Saver._df s' = Some df ∧
    (∀ k, (k < count)%nat →
       Saver.files s' !! chunk_path (Saver._work_folder self) k
       = Some (Saver.CsvFile (Saver.columns self) (chunk_rows size df k)) ∧
       chunk_rows size df k ≠ [] ∧ (length (chunk_rows size df k) ≤ size)%nat) ∧
    (∀ p, (∀ k, (k < count)%nat → p ≠ chunk_path (Saver._work_folder self) k) →
          Saver.files s' !! p = Saver.files self !! p) ∧
    concat (chunk_rows size df <$> seq 0 count) = df.
Proof. apply _save_file_chunks. Qed.

Lemma save_file_cuts_the_table_into_chunks_witness :
  let table := [[CInt 1; CStr "a"]; [CInt 2; CStr "b"]; [CInt 3; CStr "c"]] in
  ∃ s',
    Saver._save_file Examples.config (Saver.set_df table Examples.misnamed_saver)
    = (s', [(Saver.LInfo, "Created 2 files in data")], inr tt) ∧
    Saver.files s' !! "data/0.csv"
    = Some (Saver.CsvFile ["time"; "close"] [[CInt 1; CStr "a"]; [CInt 2; CStr "b"]]) ∧
    Saver.files s' !! "data/1.csv"
    = Some (Saver.CsvFile ["time"; "close"] [[CInt 3; CStr "c"]]).
Proof.
  intros table.
  destruct (save_file_cuts_the_table_into_chunks Examples.config
              (Saver.set_df table Examples.misnamed_saver) table eq_refl)
    as (s' & Hrun & _ & Hfiles & _).
  - simpl. lia.
  - exists s'. split; [exact Hrun |]. split.
    + exact (proj1 (Hfiles 0%nat ltac:(vm_compute; lia))).
    + exact (proj1 (Hfiles 1%nat ltac:(vm_compute; lia))).
Defined.

(** With a [CSV_CHUNK_SIZE] of zero [_save_file] raises, and with a
    negative one it reports zero files: either way no file is written
    and the table is not saved. *)
Theorem save_file_needs_a_positive_chunk_size cfg (self : Saver.t) df :
  Saver._df self = Some df →
  CSV_CHUNK_SIZE cfg ≤ 0 →
  ∃ s' log r,
    Saver._save_file cfg self = (s', log, r) ∧
    Saver.files s' = Saver.files self ∧
    Saver._df s' = Some df ∧
    if decide (CSV_CHUNK_SIZE cfg = 0)
    then r = inl (ValueError "range() arg 3 must not be zero") ∧ log = []
    else r = inr tt ∧
         log = [(Saver.LInfo, "Created 0 file in " +:+ Saver._work_folder self)].
Proof.
  intros Hdf Hc. unfold Saver._save_file. rewrite bind_get, Hdf.
  unfold range. case_decide as Hzero.
  - rewrite Hzero. simpl. eexists _, _, _. split; [reflexivity |]. done.
  - destruct (Z.eqb_spec (CSV_CHUNK_SIZE cfg) 0); [done |].
    assert (range_len 0 (Z.of_nat (length df)) (CSV_CHUNK_SIZE cfg) = 0) as ->.
    { unfold range_len. destruct (Z.ltb_spec 0 (CSV_CHUNK_SIZE cfg)); [lia |].
      apply Z.max_l.
      assert ((0 - Z.of_nat (length df) - CSV_CHUNK_SIZE cfg - 1)
                `div` (- CSV_CHUNK_SIZE cfg) < 1); [| lia].
      apply Z.div_lt_upper_bound; lia. }
    simpl. destruct self. simpl in *. eexists _, _, _. split; [reflexivity |]. done.
Qed.

Lemma save_file_needs_a_positive_chunk_size_witness :
  ∃ s' log,
    Saver._save_file
      {| MAX_ATTEMPT_TIMES := 3; LOCAL_THREADS_RATIO := 4; CSV_CHUNK_SIZE := 0;
         ALLOW_MAX_MISSING_TIMESTAMPS := 5 |}
      (Saver.set_df [[CInt 1; CStr "a"]] Examples.misnamed_saver)
    = (s', log, inl (ValueError "range() arg 3 must not be zero")) ∧
    Saver.files s' = ∅.
Proof.
  destruct (save_file_needs_a_positive_chunk_size
              {| MAX_ATTEMPT_TIMES := 3; LOCAL_THREADS_RATIO := 4; CSV_CHUNK_SIZE := 0;
                 ALLOW_MAX_MISSING_TIMESTAMPS := 5 |}
              (Saver.set_df [[CInt 1; CStr "a"]] Examples.misnamed_saver)
              [[CInt 1; CStr "a"]] eq_refl)
    as (s' & log & r & Hrun & Hfiles & _ & Hr).
  - simpl. lia.
  - simpl in Hr. destruct Hr as [-> _]. exists s', log. split; [exact Hrun | exact Hfiles].
Defined.

(** *** [_append_data] *)

(** [_append_data] never raises. Rows that are all as wide as the
    columns are put behind the rows of the table, in their order, and
    nothing is logged; when a row is wider than the columns the whole
    batch is dropped: the saver stays as it was and the only trace is
    one error record in the log. *)
Theorem append_data_never_raises (data_list : list row) (self : Saver.t) :
  ∃ s' log,
    Saver._append_data data_list self = (s', log, inr tt) ∧
    (Forall (λ r : row, length r = length (Saver.columns self)) data_list →
       s' = Saver.set_df (default [] (Saver._df self) ++ data_list) self ∧ log = []) ∧
    (Exists (λ r : row, (length (Saver.columns self) < length r)%nat) data_list →
       s' = self ∧ ∃ message, log = [(Saver.LError, message)]).
Proof.
  unfold Saver._append_data. rewrite bind_get. unfold Frame.DataFrame.
  case_decide as Hwidth.
  - destruct (Saver._df self) as [df |] eqn:Hdf; simpl;
      (eexists _, _; split; [reflexivity |]; split; [done |]);
      intros Hwide; exfalso; apply Exists_exists in Hwide as (r & Hr & Hlt);
      rewrite Forall_forall in Hwidth; specialize (Hwidth r Hr); lia.
  - eexists _, _. split; [reflexivity |]. split; [done |]. intros _.
    split; [done |]. by eexists.
Qed.

Lemma append_data_never_raises_witness :
  ∃ s',
    Saver._append_data [[CInt 2; CStr "b"]]
      (Saver.set_df [[CInt 1; CStr "a"]] Examples.misnamed_saver)
    = (s', [], inr tt) ∧
    Saver._df s' = Some [[CInt 1; CStr "a"]; [CInt 2; CStr "b"]].
Proof.
  destruct (append_data_never_raises [[CInt 2; CStr "b"]]
              (Saver.set_df [[CInt 1; CStr "a"]] Examples.misnamed_saver))
    as (s' & log & Hrun & Hfit & _).
  destruct Hfit as [-> ->]; [by repeat constructor |].
  eexists. split; [exact Hrun | reflexivity].
Defined.

(** *** [_transfer_time] *)

Lemma traverse_inr {A B : Type} (f : A → result B) l bs :
  Saver.traverse f l = inr bs → Forall2 (λ a b, f a = inr b) l bs.
Proof.
  revert bs. induction l as [| a l IH]; intros bs; simpl.
  - intros [= <-]. constructor.
  - destruct (f a) as [x | b] eqn:Ha; [done |].
    destruct (Saver.traverse f l) as [x | bs']; [done |].
    intros [= <-]. constructor; [done | by apply IH].
Qed.

Lemma traverse_inl {A B : Type} (f : A → result B) l x :
  Saver.traverse f l = inl x → ∃ a, a ∈ l ∧ f a = inl x.
Proof.
  induction l as [| a l IH]; simpl; [done |].
  destruct (f a) as [y | b] eqn:Ha.
  - intros [= <-]. exists a. split; [left | done].
  - destruct (Saver.traverse f l) as [y | bs]; [| done].
    intros [= <-]. destruct (IH eq_refl) as (a' & Hin & Ha').
    exists a'. split; [by right | done].
Qed.

(** [_transfer_time] rewrites the time of every row or of none: when
    every time converts, each row keeps its place and its other fields
    and its time becomes the text of that time; when one conversion
    raises, [_transfer_time] raises the same error and the saver is as it
    was. *)
Theorem transfer_time_converts_all_or_nothing py_int utc_strftime (self : Saver.t) df :
  Saver._df self = Some df →
  let i := Saver.time_column_index self in
  ∃ s' r,
    Saver._transfer_time py_int utc_strftime self = (s', [], r) ∧
    match r with
    | inr _ =>
        ∃ df', s' = Saver.set_df df' self ∧
          Forall2 (λ (old new : row),
                     ∃ text, Utils.timestamp_to_datetime py_int utc_strftime (old !!! i)
                             = inr text ∧
                             new = <[ i := CStr text ]> old) df df'
    | inl x =>
        s' = self ∧
        ∃ old, old ∈ df ∧
               Utils.timestamp_to_datetime py_int utc_strftime (old !!! i) = inl x
    end.
Proof.
  intros Hdf i. unfold Saver._transfer_time.
  rewrite (bind_silent _ _ self self df) by (by apply get_df_some).
  rewrite bind_get. fold i.
  destruct (Saver.traverse (Utils.timestamp_to_datetime py_int utc_strftime)
              (Frame.column i df)) as [x | texts] eqn:Htr.
  - exists self, (inl x). split; [done |].
    split; [done |]. apply traverse_inl in Htr as (c & Hc & Hx).
    unfold Frame.column in Hc. apply list_elem_of_fmap in Hc as (old & -> & Hold).
    by exists old.
  - eexists _, (inr tt). split; [reflexivity |]. eexists. split; [reflexivity |].
    apply traverse_inr in Htr. unfold Frame.column in Htr.
    rewrite Forall2_fmap_l in Htr. clear Hdf.
    induction Htr as [| old text df texts Hold _ IH]; csimpl; constructor; [| done].
    by exists text.
Qed.

Lemma transfer_time_converts_all_or_nothing_witness :
  ∃ s',
    Saver._transfer_time Examples.parse_decimal Examples.seconds_text
      (Saver.set_df [[CInt 1500; CStr "a"]] Examples.misnamed_saver) = (s', [], inr tt) ∧
    Saver._df s' = Some [[CStr "1"; CStr "a"]].
Proof.
  destruct (transfer_time_converts_all_or_nothing Examples.parse_decimal
              Examples.seconds_text
              (Saver.set_df [[CInt 1500; CStr "a"]] Examples.misnamed_saver)
              [[CInt 1500; CStr "a"]] eq_refl) as (s' & r & Hrun & Hr).
  assert (r = inr tt) as ->.
  { vm_compute in Hrun. by injection Hrun as _ <-. }
  exists s'. split; [exact Hrun |].
  vm_compute in Hrun. by injection Hrun as <-.
Defined.

(** *** [_fix_data_integrity] *)

Lemma bisect_left_range (arr : list Z) (v : Z) (fuel : nat) :
  ∀ lo hi, (lo ≤ hi)%nat → (lo ≤ Frame.bisect_left arr v fuel lo hi ≤ hi)%nat.
Proof.
  induction fuel as [| fuel IH]; intros lo hi Hle; cbn [Frame.bisect_left]; [lia |].
  destruct (Nat.ltb_spec lo hi) as [Hlt | ?]; [| lia].
  assert ((hi - lo) / 2 < hi - lo)%nat as Hhalf
    by (apply Nat.div_lt; lia).
  destruct (arr !!! (lo + (hi - lo) / 2)%nat <? v).
  - specialize (IH (S (lo + (hi - lo) / 2)) hi). lia.
  - specialize (IH lo (lo + (hi - lo) / 2)%nat). lia.
Qed.

Lemma min_by_fst_elem c cs : Frame.min_by_fst c cs ∈ c :: cs.
Proof.
  unfold Frame.min_by_fst.
  assert (∀ best, best ∈ c :: cs →
            (∀ x, x ∈ cs → x ∈ c :: cs) →
            foldl (λ best x, if x.1 <? best.1 then x else best) best cs ∈ c :: cs) as Hfold.
  { generalize (c :: cs). intros all. induction cs as [| x cs IH]; intros best Hbest Hcs;
      simpl; [done |].
    apply IH.
    - destruct (x.1 <? best.1); [apply Hcs; left | done].
    - intros y Hy. apply Hcs. by right. }
  apply Hfold; [left |]. intros x Hx. by right.
Qed.

(** The row made for a missing time is a row of the table with the time
    replaced. *)
Lemma synthesize_clones i (df : Frame.t) (arr : list Z) (missing_ts : Z) :
  arr ≠ [] → length arr = length df →
  ∃ source, source ∈ df ∧
            Saver.synthesize i df arr missing_ts = inr (<[ i := CInt missing_ts ]> source).
Proof.
  intros Hne Hlen. unfold Saver.synthesize.
  pose proof (bisect_left_range arr missing_ts (length arr) 0 (length arr) ltac:(lia))
    as Hpos.
  fold (Frame.searchsorted arr missing_ts) in Hpos.
  set (pos := Frame.searchsorted arr missing_ts) in *.
  assert (0 < length arr)%nat as Hnonempty by (destruct arr; [done | simpl; lia]).
  set (candidates := _ ++ _).
  assert (candidates ≠ [] ∧ Forall (λ c : Z * nat, (c.2 < length df)%nat) candidates)
    as [Hcand Hbound].
  { subst candidates.
    destruct (Nat.ltb_spec 0 pos), (Nat.ltb_spec pos (length arr)); simpl;
      try lia; (split; [done |]); repeat constructor; simpl; lia. }
  destruct candidates as [| c cs]; [done |].
  pose proof (min_by_fst_elem c cs) as Hmin.
  rewrite Forall_forall in Hbound. specialize (Hbound _ Hmin).
  destruct (lookup_lt_is_Some_2 df _ Hbound) as [source Hsource].
  exists source. split; [by eapply list_elem_of_lookup_2 |].
  by rewrite (list_lookup_total_correct _ _ _ Hsource).
Qed.

Lemma traverse_synthesize i (df : Frame.t) (arr : list Z) (missing : list Z) :
  arr ≠ [] → length arr = length df →
  ∃ new_data,
    Saver.traverse (Saver.synthesize i df arr) missing = inr new_data ∧
    Forall2 (λ t (new : row), ∃ source, source ∈ df ∧ new = <[ i := CInt t ]> source)
      missing new_data.
Proof.
  intros Hne Hlen. induction missing as [| t missing (new_data & Htr & Hall)]; simpl.
  - exists []. split; [done | constructor].
  - destruct (synthesize_clones i df arr t Hne Hlen) as (source & Hin & ->).
    rewrite Htr. eexists. split; [done |]. constructor; [by exists source | done].
Qed.

Lemma traverse_int_column (times : list Z) :
  Saver.traverse
    (λ c, from_option inr
            (inl (TypeError "'<' not supported between instances of 'str' and 'int'"))
            (Frame.int_of c)) (CInt <$> times) = inr times.
Proof. induction times as [| z times IH]; csimpl; [done | by rewrite IH]. Qed.

Lemma _append_data_fits (data_list : list row) (self : Saver.t) :
  Forall (λ r : row, length r = length (Saver.columns self)) data_list →
  Saver._append_data data_list self
  = (Saver.set_df (default [] (Saver._df self) ++ data_list) self, [], inr tt).
Proof.
  intros Hfit. unfold Saver._append_data. rewrite bind_get. unfold Frame.DataFrame.
  rewrite decide_True by done. by destruct (Saver._df self).
Qed.

Lemma _initialize_missing_times_complete py_int cfg s tf r0 df times delta :
  Saver._missing_times s = None →
  Saver.timeframe s = Some tf →
  Saver._df s = Some (r0 :: df) →
  Frame.column (Saver.time_column_index s) (r0 :: df) = CInt <$> times →
  Utils.timeframe_to_timestamp py_int tf = inr delta →
  Saver.missing_timestamps times delta = inr ∅ →
  Saver._initialize_missing_times py_int cfg s
  = (Saver.set_missing_times [] s,
     [(Saver.LInfo, "All expected time points are present")], inr true).
Proof.
  intros Hcache Htf Hdf Hcol Hdelta Hmissing.
  unfold Saver._initialize_missing_times. rewrite bind_get, Hcache, Htf.
  rewrite (bind_silent _ _ s s (r0 :: df)) by (by apply get_df_some).
  cbv beta iota.
  rewrite (bind_silent _ _ s s times)
    by (unfold Saver.lift; by rewrite Hcol, traverse_int_of_cell).
  rewrite (cast_is_identity _ _ _ Hcol).
  rewrite (bind_silent _ _ s (Saver.set_df (r0 :: df) s) tt) by done.
  rewrite (bind_silent _ _ _ (Saver.set_df (r0 :: df) s) delta)
    by (unfold Saver.lift; by rewrite Hdelta).
  rewrite (bind_silent _ _ _ (Saver.set_df (r0 :: df) s) ∅)
    by (unfold Saver.lift; by rewrite Hmissing).
  rewrite decide_True by done.
  destruct s. simpl in *. subst. reflexivity.
Qed.

Lemma sorted_rows_sorted_times i (df : Frame.t) (times : list Z) :
  Frame.column i df = CInt <$> times →
  Sorted (le_rel (Frame.row_le i)) df → Sorted Z.le times.
Proof.
  intros Hcol Hs. revert times Hcol.
  induction Hs as [| r df Hs IH Hhd]; intros [| t times]; csimpl; try done.
  intros [= Hr Hcol]. constructor; [by apply IH |].
  destruct Hhd as [| r' df' Hle]; destruct times as [| t' times]; csimpl in *; try done.
  constructor. injection Hcol as Hr' _.
  unfold le_rel, Frame.row_le in Hle. rewrite Hr, Hr' in Hle. simpl in Hle. lia.
Qed.

Lemma int_column_of_perm (col : list cell) (times : list Z) :
  col ≡ₚ CInt <$> times →
  ∃ times', col = CInt <$> times' ∧ times' ≡ₚ times.
Proof.
  intros Hp. exists (omap Frame.int_of col). split.
  - assert (Forall (λ c, Frame.is_int c = true) col) as Hint.
    { rewrite Hp. apply Forall_fmap, Forall_true. done. }
    clear Hp. induction Hint as [| c col Hc _ IH]; csimpl; [done |].
    destruct c; [| done]. csimpl. by rewrite <- IH.
  - rewrite Hp. clear Hp. induction times as [| t times IH]; csimpl; [done |].
    by rewrite IH.
Qed.

(** What [_fix_data_integrity] does once the missing times are known:
    one clone per missing time is appended and the table sorted. *)
Lemma fill_cached_gaps (s : Saver.t) (df : Frame.t) (times missing : list Z) :
  Saver._missing_times s = Some missing →
  Saver._df s = Some df →
  df ≠ [] →
  Frame.column (Saver.time_column_index s) df = CInt <$> times →
  Forall (λ r : row, length r = length (Saver.columns s)) df →
  (Saver.time_column_index s < length (Saver.columns s))%nat →
  let i := Saver.time_column_index s in
  post (Saver.bind Saver.get (λ self,
          match Saver._missing_times self with
          | None => Saver.raise (TypeError "object of type 'NoneType' has no len()")
          | Some [] => Saver.ret tt
          | Some (m :: ms) =>
              Saver.bind (Saver.get_df "__getitem__") (λ df,
                let i := Saver.time_column_index self in
                match Saver.traverse
                        (λ c, from_option inr
                                (inl (TypeError
                                   "'<' not supported between instances of 'str' and 'int'"))
                                (Frame.int_of c)) (Frame.column i df) with
                | inl x => Saver.raise x
                | inr arr =>
                    Saver.bind
                      (Saver.lift (Saver.traverse (Saver.synthesize i df arr) (m :: ms)))
                      (λ new_data,
                         match new_data with
                         | [] => Saver.ret tt
                         | _ :: _ =>
                             Saver.bind (Saver._append_data new_data)
                               (λ _, Saver._sort true)
                         end)
                end)
          end)) s
    (λ s' r,
       r = inr tt ∧
       ∃ df' times',
         s' = Saver.set_df df' s ∧
         Frame.column i df' = CInt <$> times' ∧
         times' ≡ₚ times ++ missing ∧
         (missing = [] ∧ df' = df ∨ Sorted Z.le times') ∧
         (∀ new, new ∈ df' →
            new ∈ df ∨ ∃ source t, source ∈ df ∧ t ∈ missing ∧
                                   new = <[ i := CInt t ]> source)).
Proof.
  intros Hcache Hdf Hne Hcol Hwidth Hi i. subst i.
  apply post_bind, post_get. rewrite Hcache.
  destruct missing as [| m ms].
  { apply post_ret. split; [done |]. exists df, times.
    rewrite app_nil_r. repeat split; try done; [| by left | by left].
    clear -Hdf. destruct s. simpl in *. by subst. }
  apply post_bind, post_get_df; [| intros x Hnone; congruence].
  intros df0 Hdf0. rewrite Hdf in Hdf0. injection Hdf0 as <-.
  cbv zeta. set (i := Saver.time_column_index s) in *.
  rewrite Hcol, traverse_int_column.
  assert (length times = length df) as Hlen.
  { rewrite <- (length_fmap CInt), <- Hcol. unfold Frame.column. by rewrite length_fmap. }
  assert (times ≠ []) as Htimes by (intros ->; by destruct df).
  destruct (traverse_synthesize i df times (m :: ms) Htimes Hlen)
    as (new_data & Htr & Hclones).
  rewrite Htr. apply post_bind, post_lift.
  destruct new_data as [| n ns]; [by apply Forall2_length in Hclones |].
  assert (Forall (λ r : row, length r = length (Saver.columns s)) (n :: ns)) as Hfit.
  { apply Forall2_Forall_r with (l := m :: ms)
      (P := λ t new, ∃ source : row, source ∈ df ∧ new = <[i := CInt t]> source);
      [done |].
    apply Forall_forall. intros t _ new (source & Hsrc & ->).
    transitivity (length source); [apply length_insert |].
    rewrite Forall_forall in Hwidth. by apply Hwidth. }
  assert (Frame.column i (n :: ns) = CInt <$> (m :: ms)) as Hnewcol.
  { clear Htr Hfit Hcache. unfold Frame.column.
    induction Hclones as [| t new missing news (source & Hsrc & ->) _ IH];
      [done |]. csimpl. rewrite IH. f_equal.
    apply list_lookup_total_correct, list_lookup_insert_eq.
    rewrite Forall_forall in Hwidth. rewrite (Hwidth _ Hsrc). exact Hi. }
  apply post_bind. intros s1 log1 r1. rewrite (_append_data_fits _ _ Hfit), Hdf.
  intros [= <- <- <-]. simpl.
  intros s2 log2 r2. rewrite _sort_unfold. simpl. fold i.
  assert (Frame.column i (df ++ n :: ns) = CInt <$> (times ++ m :: ms)) as Hall.
  { unfold Frame.column in *. by rewrite fmap_app, Hcol, Hnewcol, fmap_app. }
  destruct (Frame.sort_values i true (df ++ n :: ns)) as [x | df'] eqn:Hsort.
  { unfold Frame.sort_values in Hsort. rewrite Hall in Hsort.
    unfold Frame.comparable in Hsort.
    assert (forallb Frame.is_int (CInt <$> (times ++ m :: ms)) = true) as Hint.
    { apply Is_true_true, forallb_True, Forall_fmap, Forall_true. done. }
    by rewrite Hint in Hsort. }
  intros [= <- <- <-]. split; [done |].
  destruct (sort_values_sorted _ _ _ Hsort) as [Hperm Hsorted].
  destruct (int_column_of_perm (Frame.column i df') (times ++ m :: ms))
    as (times' & Hcol' & Hperm').
  { rewrite <- Hall. unfold Frame.column. by rewrite Hperm. }
  exists df', times'. split; [done |]. split; [done |]. split; [done |].
  split; [right; by eapply sorted_rows_sorted_times |].
  intros new Hnew. rewrite Hperm in Hnew. apply elem_of_app in Hnew as [Hold | Hnew];
    [by left |]. right.
  apply list_elem_of_lookup in Hnew as [k Hk].
  destruct (Forall2_lookup_r _ _ _ _ _ Hclones Hk) as (t & Ht & source & Hsrc & ->).
  exists source, t. split; [done |]. split; [| done].
  by eapply list_elem_of_lookup_2.
Qed.

(** [_fix_data_integrity] on a table whose missing times have not been
    looked for yet (integer times, rows as wide as the columns, a
    positive step, no more gaps than allowed): it succeeds and leaves no
    gap. Every point of the grid from the smallest time up to the largest
    is then the time of a row; the table has grown by one row for every
    missing time and by nothing else; a row that was added is a row of
    the old table with the time replaced by a missing time; and, when
    something was missing, the times are in ascending order. *)
Theorem fix_integrity_fills_every_gap py_int cfg (self : Saver.t) tf df times delta
    missing :
  let i := Saver.time_column_index self in
  Saver._missing_times self = None →
  Saver.timeframe self = Some tf →
  Utils.timeframe_to_timestamp py_int tf = inr delta →
  0 < delta →
  Saver._df self = Some df →
  df ≠ [] →
  Frame.column i df = CInt <$> times →
  Forall (λ r : row, length r = length (Saver.columns self)) df →
  (i < length (Saver.columns self))%nat →
  Saver.missing_timestamps times delta = inr missing →
  Z.of_nat (size missing) ≤ ALLOW_MAX_MISSING_TIMESTAMPS cfg →
  ∃ s' log df' times',
    Saver._fix_data_integrity py_int cfg self = (s', log, inr tt) ∧
    Saver._df s' = Some df' ∧
    Frame.column i df' = CInt <$> times' ∧
    (∀ t, t ∈ times' ↔
          t ∈ times ∨
          grid_below (Saver.list_min times) (Saver.list_max times + delta) delta t) ∧
    length df' = (length df + size missing)%nat ∧
    (∀ new, new ∈ df' →
       new ∈ df ∨ ∃ source t, source ∈ df ∧ t ∈ missing ∧
                              new = <[ i := CInt t ]> source) ∧
    (missing = ∅ ∨ Sorted Z.le times').
Proof.
  intros i Hcache Htf Hdelta Hpos Hdf Hne Hcol Hwidth Hi Hmissing Hsize.
  destruct df as [| r0 df]; [done |].
  set (ms := if decide (missing = ∅) then [] else merge_sort Z.le (elements missing)).
  assert (∃ log1, Saver._initialize_missing_times py_int cfg self
                  = (Saver.set_missing_times ms self, log1, inr true)) as [log1 Hinit].
  { subst ms. case_decide as Hempty.
    - subst missing. eexists. by eapply _initialize_missing_times_complete.
    - eexists. by eapply _initialize_missing_times_caches. }
  assert (ms ≡ₚ elements missing) as Hms.
  { subst ms. case_decide as Hempty.
    - subst missing. by rewrite elements_empty.
    - apply merge_sort_Permutation. }
  destruct (Saver._fix_data_integrity py_int cfg self) as [[s' log] r] eqn:Hrun.
  unfold Saver._fix_data_integrity in Hrun.
  apply bind_inv in Hrun as [(x & Hm & _) | (s1 & log1' & ok & log2 & Hm & Hk & ->)];
    rewrite Hinit in Hm; [done |].
  injection Hm as <- <- <-. simpl in Hk.
  destruct (fill_cached_gaps (Saver.set_missing_times ms self) (r0 :: df) times ms
              eq_refl Hdf Hne Hcol Hwidth Hi s' log2 r Hk)
    as (-> & df' & times' & -> & Hcol' & Hperm & Hsorted & Hrows).
  eexists _, (log1 ++ log2), df', times'. split; [done |]. split; [done |].
  split; [done |].
  assert (∀ t, t ∈ missing ↔
               grid_below (Saver.list_min times) (Saver.list_max times + delta) delta t ∧
               t ∉ times) as Hgrid.
  { intros t. unfold Saver.missing_timestamps in Hmissing.
    destruct (Frame.arange _ _ delta) as [x | expected] eqn:Harange; [done |].
    injection Hmissing as <-.
    rewrite elem_of_difference, !elem_of_list_to_set.
    by rewrite (elem_of_arange _ _ _ _ t Hpos Harange). }
  split; [| split; [| split]].
  - intros t. rewrite Hperm, elem_of_app, Hms, elem_of_elements, Hgrid.
    destruct (decide (t ∈ times)); tauto.
  - assert (length df' = length times') as ->.
    { rewrite <- (length_fmap CInt times'), <- Hcol'. unfold Frame.column.
      by rewrite length_fmap. }
    rewrite Hperm, length_app, Hms.
    assert (length times = length (r0 :: df)) as ->.
    { rewrite <- (length_fmap CInt times), <- Hcol. unfold Frame.column.
      by rewrite length_fmap. }
    done.
  - intros new Hnew. destruct (Hrows new Hnew) as [? | (source & t & Hsrc & Ht & ->)];
      [by left |]. right. exists source, t. split; [done |]. split; [| done].
    rewrite Hms in Ht. by apply elem_of_elements in Ht.
  - destruct Hsorted as [[Hnil _] | Hsorted]; [left | by right].
    rewrite Hnil in Hms. apply Permutation_nil_l in Hms. symmetry in Hms.
    by apply elements_empty_inv, leibniz_equiv in Hms.
Qed.

Lemma fix_integrity_fills_every_gap_witness :
  let self := Saver.set_df [[CInt 0; CInt 1]; [CInt 180000; CInt 2]] Examples.sparse_saver in
  ∃ s' log,
    Saver._fix_data_integrity Examples.parse_decimal Examples.config self
    = (s', log, inr tt) ∧
    Saver._df s' = Some [[CInt 0; CInt 1]; [CInt 60000; CInt 1]; [CInt 120000; CInt 2];
                         [CInt 180000; CInt 2]].
Proof.
  intros self.
  destruct (fix_integrity_fills_every_gap Examples.parse_decimal Examples.config self
              "1m" [[CInt 0; CInt 1]; [CInt 180000; CInt 2]] [0; 180000] 60000
              (list_to_set [60000; 120000]))
    as (s' & log & df' & times' & Hrun & Hdf' & _).
  - reflexivity.
  - reflexivity.
  - vm_compute. reflexivity.
  - lia.
  - reflexivity.
  - done.
  - reflexivity.
  - by repeat constructor.
  - simpl. lia.
  - vm_compute. reflexivity.
  - vm_compute. discriminate.
  - exists s', log. split; [exact Hrun |].
    vm_compute in Hrun. by injection Hrun as <- _.
Defined.

(** The detection never touches the columns nor the index of the time
    column. *)
Lemma _initialize_missing_times_shape py_int cfg s :
  post (Saver._initialize_missing_times py_int cfg) s
    (λ s' _, Saver.columns s' = Saver.columns s ∧
             Saver.time_column_index s' = Saver.time_column_index s).
Proof.
  unfold Saver._initialize_missing_times. post_step. post_step.
  destruct (Saver._missing_times s); [by post_step |].
  destruct (Saver.timeframe s); [| by post_step].
  post_step. post_step; [| done].
  destruct df as [| r0 df]; [by repeat post_step |].
  repeat (post_step; simpl); try done.
  case_decide; [| case_match]; by repeat post_step.
Qed.

(** [_fix_data_integrity] once the detection has answered: the rows made
    for the missing times are appended to the table, and the table is
    sorted. *)
Lemma _fix_data_integrity_appends py_int cfg (self s1 : Saver.t) log1 (df : Frame.t)
    (times ms : list Z) :
  Saver._initialize_missing_times py_int cfg self = (s1, log1, inr true) →
  Saver._missing_times s1 = Some ms →
  ms ≠ [] →
  Saver._df s1 = Some df →
  Frame.column (Saver.time_column_index s1) df = CInt <$> times →
  times ≠ [] →
  Forall (λ r : row, length r = length (Saver.columns s1)) df →
  ∃ new_data df',
    Saver.traverse (Saver.synthesize (Saver.time_column_index s1) df times) ms
    = inr new_data ∧
    Saver._fix_data_integrity py_int cfg self = (Saver.set_df df' s1, log1, inr tt) ∧
    df' ≡ₚ df ++ new_data.
Proof.
  intros Hinit Hcache Hms Hdf Hcol Htimes Hwidth.
  set (i := Saver.time_column_index s1) in *.
  assert (length times = length df) as Hlen.
  { rewrite <- (length_fmap CInt), <- Hcol. unfold Frame.column. by rewrite length_fmap. }
  destruct (traverse_synthesize i df times ms Htimes Hlen) as (new_data & Htr & Hclones).
  assert (Forall (λ r : row, length r = length (Saver.columns s1)) new_data) as Hfit.
  { apply Forall2_Forall_r with (l := ms)
      (P := λ t new, ∃ source : row, source ∈ df ∧ new = <[i := CInt t]> source);
      [done |].
    apply Forall_forall. intros t _ new (source & Hsrc & ->).
    transitivity (length source); [apply length_insert |].
    rewrite Forall_forall in Hwidth. by apply Hwidth. }
  assert (∃ df', Frame.sort_values i true (df ++ new_data) = inr df') as [df' Hsort].
  { unfold Frame.sort_values.
    assert (Frame.comparable (Frame.column i (df ++ new_data)) = true) as ->;
      [| by eexists].
    unfold Frame.comparable. apply orb_true_iff. left.
    apply Is_true_true, forallb_True. unfold Frame.column.
    rewrite fmap_app, Forall_app. split.
    - fold (Frame.column i df). rewrite Hcol. apply Forall_fmap, Forall_true. done.
    - apply Forall_fmap. apply Forall2_Forall_r with (l := ms)
        (P := λ t new, ∃ source : row, source ∈ df ∧ new = <[i := CInt t]> source);
        [done |].
      apply Forall_forall. intros t _ new (source & Hsrc & ->). simpl.
      destruct (decide (i < length source)%nat) as [Hlt | Hge].
      + replace (<[i:=CInt t]> source !!! i) with (CInt t); [done |].
        symmetry. by apply list_lookup_total_correct, list_lookup_insert_eq.
      + replace (<[i:=CInt t]> source) with source
          by (symmetry; apply list_insert_ge; lia).
        assert (source !!! i ∈ Frame.column i df) as Hin
          by (unfold Frame.column; apply list_elem_of_fmap; by exists source).
        rewrite Hcol in Hin. apply list_elem_of_fmap in Hin as (z & -> & _). done. }
  exists new_data, df'. split; [done |]. split;
    [| by destruct (sort_values_sorted _ _ _ Hsort)].
  unfold Saver._fix_data_integrity.
  rewrite <- (app_nil_r log1). eapply bind_inr; [exact Hinit |]. cbn [negb].
  rewrite bind_get, Hcache. destruct ms as [| m ms]; [done |]. cbv beta iota.
  rewrite (bind_silent _ _ s1 s1 df) by (by apply get_df_some).
  cbv beta zeta. fold i. rewrite Hcol, traverse_int_column.
  rewrite (bind_silent _ _ s1 s1 new_data) by (unfold Saver.lift; by rewrite Htr).
  destruct new_data as [| n ns]; [by apply Forall2_length in Hclones |].
  rewrite (bind_silent _ _ s1 (Saver.set_df (df ++ n :: ns) s1) tt)
    by (by rewrite (_append_data_fits _ _ Hfit), Hdf).
  rewrite _sort_unfold. simpl. fold i. by rewrite Hsort.
Qed.

(** A time strictly between two neighbours of a sorted column is not in
    the column. *)
Lemma between_neighbours (before after : list Z) (p s v : Z) :
  Sorted Z.le (before ++ p :: s :: after) → p < v < s → v ∉ before ++ p :: s :: after.
Proof.
  intros Hsorted [Hp Hs].
  apply Sorted_StronglySorted in Hsorted; [| intros ???; lia].
  apply StronglySorted_app in Hsorted as (Hcross & _ & Hrest).
  apply StronglySorted_inv in Hrest as [Hrest _].
  apply StronglySorted_inv in Hrest as [_ Hs_le].
  rewrite Forall_forall in Hs_le.
  rewrite elem_of_app, !elem_of_cons. intros [Hin | [-> | [-> | Hin]]]; try lia.
  - assert (v ≤ p); [apply Hcross; [done | left] | lia].
  - specialize (Hs_le v Hin). lia.
Qed.

(** C8. Let [fix_integrity] work with a list of missing times, found by
    its own detection or cached by an earlier one, on a table whose time
    column is sorted ascending (its rows as wide as the columns, as the
    rows of a DataFrame are), and let one of the missing times lie
    strictly between two neighbouring times [p] and [s], at the same
    distance from both. The action succeeds, and the table it leaves
    holds the row of [p] with the time cell, and nothing else, replaced by
    the missing time; no other row of the table carries that time, and
    the rows of the old table are all still there. *)
Theorem tie_clones_predecessor py_int cfg (self s1 : Saver.t) log1 (df : Frame.t)
    (ms before after : list Z) (p s missing_ts : Z) :
  let i := Saver.time_column_index self in
  Saver._initialize_missing_times py_int cfg self = (s1, log1, inr true) →
  Saver._missing_times s1 = Some ms →
  Saver._df s1 = Some df →
  Frame.column i df = CInt <$> (before ++ p :: s :: after) →
  Sorted Z.le (before ++ p :: s :: after) →
  Forall (λ r : row, length r = length (Saver.columns self)) df →
  (i < length (Saver.columns self))%nat →
  missing_ts ∈ ms →
  p < missing_ts < s →
  missing_ts - p = s - missing_ts →
  ∃ s' log df' predecessor,
    Saver._fix_data_integrity py_int cfg self = (s', log, inr tt) ∧
    Saver._df s' = Some df' ∧
    df !! length before = Some predecessor ∧
    predecessor !!! i = CInt p ∧
    <[ i := CInt missing_ts ]> predecessor ∈ df' ∧
    (∀ r : row, r ∈ df' → r !!! i = CInt missing_ts →
                r = <[ i := CInt missing_ts ]> predecessor) ∧
    (∀ r : row, r ∈ df → r ∈ df').
Proof.
  intros i Hinit Hcache Hdf Hcol Hsorted Hwidth Hi Hin Hbetween Htie.
  destruct (_initialize_missing_times_shape py_int cfg self _ _ _ Hinit) as [Hcols Hidx].
  fold i in Hidx. rewrite <- Hcols in Hwidth, Hi. rewrite <- Hidx in Hcol.
  set (times := before ++ p :: s :: after) in *.
  destruct (_fix_data_integrity_appends py_int cfg self s1 log1 df times ms)
    as (new_data & df' & Htr & Hrun & Hperm); try done.
  { intros ->. by apply elem_of_nil in Hin. }
  { subst times. by destruct before. }
  rewrite Hidx in Htr, Hcol.
  destruct (synthesize_predecessor i df before after p s missing_ts Hcol Hsorted
              Hbetween ltac:(lia)) as (predecessor & Hrow & Hp & Hsyn).
  fold times in Hsyn.
  apply traverse_inr in Htr.
  exists (Saver.set_df df' s1), log1, df', predecessor.
  split; [done |]. split; [done |]. split; [done |]. split; [done |].
  split; [| split].
  - rewrite Hperm, elem_of_app. right.
    apply list_elem_of_lookup in Hin as [k Hk].
    destruct (Forall2_lookup_l _ _ _ _ _ Htr Hk) as (new & Hnew & Heq).
    rewrite Hsyn in Heq. injection Heq as <-. by eapply list_elem_of_lookup_2.
  - intros r Hr Htime. rewrite Hperm in Hr. apply elem_of_app in Hr as [Hold | Hnew].
    + exfalso. apply (between_neighbours before after p s missing_ts Hsorted Hbetween).
      fold times.
      assert (r !!! i ∈ Frame.column i df) as Hc
        by (unfold Frame.column; apply list_elem_of_fmap; by exists r).
      rewrite Hcol, Htime in Hc. apply list_elem_of_fmap in Hc as (z & [= <-] & Hz). done.
    + apply list_elem_of_lookup in Hnew as [k Hk].
      destruct (Forall2_lookup_r _ _ _ _ _ Htr Hk) as (t & Ht & Heq).
      assert (length times = length df) as Hlen.
      { rewrite <- (length_fmap CInt), <- Hcol. unfold Frame.column.
        by rewrite length_fmap. }
      destruct (synthesize_clones i df times t) as (source & Hsrc & Hclone);
        [by destruct before | done |].
      rewrite Hclone in Heq. injection Heq as <-.
      assert (<[i:=CInt t]> source !!! i = CInt t) as Hcell.
      { apply list_lookup_total_correct, list_lookup_insert_eq.
        rewrite Forall_forall in Hwidth. rewrite (Hwidth _ Hsrc). exact Hi. }
      rewrite Hcell in Htime. injection Htime as ->. rewrite Hsyn in Hclone. by injection Hclone as <-.
  - intros r Hr. rewrite Hperm, elem_of_app. by left.
Qed.

(** For rows at the times 100 and 200 and the missing time 150, the
    action leaves the row at 100 with the time 150, and no other row of
    that time. *)
Lemma tie_clones_predecessor_witness :
  ∃ s' log df',
    Saver._fix_data_integrity Examples.parse_decimal Examples.config Examples.tied_saver
    = (s', log, inr tt) ∧
    Saver._df s' = Some df' ∧
    [CInt 150; CStr "a"] ∈ df' ∧
    (∀ r : row, r ∈ df' → r !!! 0%nat = CInt 150 → r = [CInt 150; CStr "a"]).
Proof.
  destruct (tie_clones_predecessor Examples.parse_decimal Examples.config
              Examples.tied_saver Examples.tied_saver []
              [[CInt 100; CStr "a"]; [CInt 200; CStr "b"]] [150] [] [] 100 200 150)
    as (s' & log & df' & predecessor & Hrun & Hdf & Hrow & _ & Hin & Honly & _).
  - reflexivity.
  - reflexivity.
  - reflexivity.
  - reflexivity.
  - repeat constructor. lia.
  - by repeat constructor.
  - simpl. lia.
  - left.
  - lia.
  - reflexivity.
  - injection Hrow as <-. exists s', log, df'. by repeat split.
Defined.

(** *** [_save_missing_times] *)

Lemma missing_lines_total py_int utc_strftime (missing : list Z) :
  Forall (λ t, is_Some (utc_strftime (t `quot` 1000))) missing →
  ∃ lines,
    Saver.missing_lines py_int utc_strftime missing = (lines, inr tt) ∧
    Forall2 (λ t line, ∃ text, utc_strftime (t `quot` 1000) = Some text ∧
                               line = text +:+ " (" +:+ pretty t +:+ ")")
      missing lines.
Proof.
  induction 1 as [| t missing [text Ht] _ (lines & Hlines & Hall)]; simpl.
  - exists []. split; [done | constructor].
  - unfold Utils.timestamp_to_datetime. simpl. rewrite Ht, Hlines. eexists. split; [done |]. constructor; [by exists text | done].
Qed.

Lemma cached_missing_spec (missing : gset Z) :
  cached_missing missing ≡ₚ elements missing ∧
  Sorted Z.le (cached_missing missing) ∧ NoDup (cached_missing missing) ∧
  ∀ t, t ∈ cached_missing missing ↔ t ∈ missing.
Proof.
  assert (cached_missing missing ≡ₚ elements missing) as Hperm.
  { unfold cached_missing. case_decide as Hempty.
    - subst missing. by rewrite elements_empty.
    - apply merge_sort_Permutation. }
  split; [done |]. split; [| split].
  - unfold cached_missing. case_decide; [constructor |]. apply (Sorted_merge_sort Z.le).
  - rewrite Hperm. apply NoDup_elements.
  - intros t. by rewrite Hperm, elem_of_elements.
Qed.

Lemma _initialize_missing_times_detects py_int cfg s tf df times delta missing :
  Saver._missing_times s = None →
  Saver.timeframe s = Some tf →
  Saver._df s = Some df →
  df ≠ [] →
  Frame.column (Saver.time_column_index s) df = CInt <$> times →
  Utils.timeframe_to_timestamp py_int tf = inr delta →
  Saver.missing_timestamps times delta = inr missing →
  Z.of_nat (size missing) ≤ ALLOW_MAX_MISSING_TIMESTAMPS cfg →
  ∃ log, Saver._initialize_missing_times py_int cfg s
         = (Saver.set_missing_times (cached_missing missing) s, log, inr true).
Proof.
  intros Hcache Htf Hdf Hne Hcol Hdelta Hmissing Hsize.
  destruct df as [| r0 df]; [done |].
  unfold cached_missing. case_decide as Hempty.
  - subst missing. eexists. by eapply _initialize_missing_times_complete.
  - eexists. by eapply _initialize_missing_times_caches.
Qed.

(** [_save_missing_times] once the missing times are cached. *)
Lemma _save_missing_times_cached py_int utc_strftime cfg (s : Saver.t) missing :
  Saver._missing_times s = Some missing →
  Forall (λ t, is_Some (utc_strftime (t `quot` 1000))) missing →
  ∃ log lines,
    Forall2 (λ t line, ∃ text, utc_strftime (t `quot` 1000) = Some text ∧
                               line = text +:+ " (" +:+ pretty t +:+ ")")
      missing lines ∧
    Saver._save_missing_times py_int utc_strftime cfg s
    = (match missing with
       | [] => s
       | _ :: _ => Saver.set_file (Saver._work_folder s +:+ "/" +:+ "missingtimes.txt")
                     (Saver.TextFile lines) s
       end, log, inr tt).
Proof.
  intros Hcache Hdates.
  destruct (missing_lines_total py_int utc_strftime missing Hdates)
    as (lines & Hlines & Hall).
  unfold Saver._save_missing_times.
  rewrite (bind_silent _ _ s s true)
    by (by eapply _initialize_missing_times_cached).
  cbn [negb]. rewrite bind_get, Hcache.
  destruct missing as [| m ms].
  - by exists [], lines.
  - cbv beta iota. rewrite Hlines.
    unfold Saver.bind, Saver.modify, Saver.lift, Saver.tell. simpl.
    by eexists _, lines.
Qed.

(** [_save_missing_times] when the missing times are not cached yet. *)
Lemma _save_missing_times_detects py_int utc_strftime cfg (s : Saver.t) tf df times delta
    missing :
  Saver._missing_times s = None →
  Saver.timeframe s = Some tf →
  Saver._df s = Some df →
  df ≠ [] →
  Frame.column (Saver.time_column_index s) df = CInt <$> times →
  Utils.timeframe_to_timestamp py_int tf = inr delta →
  Saver.missing_timestamps times delta = inr missing →
  Z.of_nat (size missing) ≤ ALLOW_MAX_MISSING_TIMESTAMPS cfg →
  (∀ t, t ∈ missing → is_Some (utc_strftime (t `quot` 1000))) →
  ∃ log lines,
    Forall2 (λ t line, ∃ text, utc_strftime (t `quot` 1000) = Some text ∧
                               line = text +:+ " (" +:+ pretty t +:+ ")")
      (cached_missing missing) lines ∧
    Saver._save_missing_times py_int utc_strftime cfg s
    = (match cached_missing missing with
       | [] => Saver.set_missing_times [] s
       | _ :: _ =>
           Saver.set_file (Saver._work_folder s +:+ "/" +:+ "missingtimes.txt")
             (Saver.TextFile lines)
             (Saver.set_missing_times (cached_missing missing) s)
       end, log, inr tt).
Proof.
  intros Hcache Htf Hdf Hne Hcol Hdelta Hmissing Hsize Hdates.
  destruct (_initialize_missing_times_detects py_int cfg s tf df times delta missing
              Hcache Htf Hdf Hne Hcol Hdelta Hmissing Hsize) as [log1 Hinit].
  destruct (cached_missing_spec missing) as (_ & _ & _ & Hms).
  set (ms := cached_missing missing) in *.
  destruct (_save_missing_times_cached py_int utc_strftime cfg
              (Saver.set_missing_times ms s) ms eq_refl)
    as (log2 & lines & Hall & Hsave).
  { apply Forall_forall. intros t Ht. apply Hdates. by apply Hms. }
  destruct (Saver._save_missing_times py_int utc_strftime cfg s)
    as [[s' log] r] eqn:Hrun.
  unfold Saver._save_missing_times in Hrun, Hsave.
  apply bind_inv in Hrun as [(x & Hm & _) | (s1 & log1' & ok & log3 & Hm & Hk & ->)];
    rewrite Hinit in Hm; [done |].
  injection Hm as <- <- <-.
  rewrite (bind_silent _ _ _ (Saver.set_missing_times ms s) true) in Hsave
    by (by eapply _initialize_missing_times_cached).
  rewrite Hsave in Hk. injection Hk as <- <- <-.
  eexists _, lines. split; [exact Hall |]. by destruct ms.
Qed.

(** [_save_missing_times] on a table whose missing times have not been
    looked for yet (integer times, a positive step, no more gaps than
    allowed, dates that can be formatted): when no point of the grid is
    missing, no file is written; otherwise [missingtimes.txt] of the
    work folder is written with one line for every grid point that is
    not the time of a row, in ascending order, each line the date and,
    in brackets, the timestamp. The table and the other files stay as
    they are. *)
Theorem save_missing_times_lists_every_gap py_int utc_strftime cfg (self : Saver.t)
    tf df times delta missing :
  Saver._missing_times self = None →
  Saver.timeframe self = Some tf →
  Utils.timeframe_to_timestamp py_int tf = inr delta →
  0 < delta →
  Saver._df self = Some df →
  df ≠ [] →
  Frame.column (Saver.time_column_index self) df = CInt <$> times →
  Saver.missing_timestamps times delta = inr missing →
  Z.of_nat (size missing) ≤ ALLOW_MAX_MISSING_TIMESTAMPS cfg →
  (∀ t, t ∈ missing → is_Some (utc_strftime (t `quot` 1000))) →
  ∃ s' log listed lines,
    Saver._save_missing_times py_int utc_strftime cfg self = (s', log, inr tt) ∧
    Saver._df s' = Some df ∧
    Sorted Z.le listed ∧ NoDup listed ∧
    (∀ t, t ∈ listed ↔
          grid_below (Saver.list_min times) (Saver.list_max times + delta) delta t ∧
          t ∉ times) ∧
    Forall2 (λ t line, ∃ text, utc_strftime (t `quot` 1000) = Some text ∧
                               line = text +:+ " (" +:+ pretty t +:+ ")")
      listed lines ∧
    Saver.files s'
    = match listed with
      | [] => Saver.files self
      | _ :: _ => <[ Saver._work_folder self +:+ "/" +:+ "missingtimes.txt"
                     := Saver.TextFile lines ]> (Saver.files self)
      end.
Proof.
  intros Hcache Htf Hdelta Hpos Hdf Hne Hcol Hmissing Hsize Hdates.
  destruct (_save_missing_times_detects py_int utc_strftime cfg self tf df times delta
              missing Hcache Htf Hdf Hne Hcol Hdelta Hmissing Hsize Hdates)
    as (log & lines & Hall & Hsave).
  destruct (cached_missing_spec missing) as (Hperm & Hsorted & Hnodup & Hms).
  set (ms := cached_missing missing) in *.
  assert (∀ t, t ∈ ms ↔
               grid_below (Saver.list_min times) (Saver.list_max times + delta) delta t ∧
               t ∉ times) as Hgrid.
  { intros t. rewrite Hms.
    unfold Saver.missing_timestamps in Hmissing.
    destruct (Frame.arange _ _ delta) as [x | expected] eqn:Harange; [done |].
    injection Hmissing as <-.
    rewrite elem_of_difference, !elem_of_list_to_set.
    by rewrite (elem_of_arange _ _ _ _ t Hpos Harange). }
  eexists _, log, ms, lines. split; [exact Hsave |].
  split; [by destruct ms |]. split; [done |]. split; [done |].
  split; [exact Hgrid |]. split; [exact Hall |]. by destruct ms.
Qed.

Lemma save_missing_times_lists_every_gap_witness :
  let self := Saver.set_df [[CInt 0; CInt 1]; [CInt 120000; CInt 2]] Examples.sparse_saver in
  ∃ s' log,
    Saver._save_missing_times Examples.parse_decimal Examples.seconds_text
      Examples.config self = (s', log, inr tt) ∧
    Saver.files s' !! "data/binance/spot/BTC-USDT/1m/missingtimes.txt"
    = Some (Saver.TextFile ["60 (60000)"]).
Proof.
  intros self.
  destruct (save_missing_times_lists_every_gap Examples.parse_decimal
              Examples.seconds_text Examples.config self
              "1m" [[CInt 0; CInt 1]; [CInt 120000; CInt 2]] [0; 120000] 60000
              {[ 60000 ]})
    as (s' & log & listed & lines & Hrun & _).
  - reflexivity.
  - reflexivity.
  - vm_compute. reflexivity.
  - lia.
  - reflexivity.
  - done.
  - reflexivity.
  - vm_compute. reflexivity.
  - vm_compute. discriminate.
  - intros t _. by eexists.
  - exists s', log. split; [exact Hrun |].
    vm_compute in Hrun. injection Hrun as <- _. vm_compute. reflexivity.
Defined.

(** ** Saving through the action lists of the wrapper *)

Lemma sort_values_int i (df : Frame.t) (times : list Z) :
  Frame.column i df = CInt <$> times →
  Frame.sort_values i true df = inr (Frame.stable_sort (Frame.row_le i) df).
Proof.
  intros Hcol. unfold Frame.sort_values, Frame.comparable. rewrite Hcol.
  assert (forallb Frame.is_int (CInt <$> times) = true) as ->; [| done].
  apply Is_true_true, forallb_True, Forall_fmap, Forall_true. done.
Qed.

Lemma _drop_last_unfold (self : Saver.t) df :
  Saver._df self = Some df →
  Saver._drop_last self = (Saver.set_df (Frame.drop_last df) self, [], inr tt).
Proof.
  intros Hdf. unfold Saver._drop_last.
  by rewrite (bind_silent _ _ self self df) by (by apply get_df_some).
Qed.

Lemma _transfer_time_formats py_int utc_strftime (self : Saver.t) df texts :
  Saver._df self = Some df →
  Saver.traverse (Utils.timestamp_to_datetime py_int utc_strftime)
    (Frame.column (Saver.time_column_index self) df) = inr texts →
  Saver._transfer_time py_int utc_strftime self
  = (Saver.set_df (zip_with (λ (r : row) s, <[ Saver.time_column_index self := CStr s ]> r)
                     df texts) self, [], inr tt).
Proof.
  intros Hdf Htexts. unfold Saver._transfer_time.
  rewrite (bind_silent _ _ self self df) by (by apply get_df_some).
  rewrite bind_get. by rewrite Htexts.
Qed.

Lemma int_column (col : list cell) :
  Forall (λ c, Frame.is_int c = true) col → col = CInt <$> omap Frame.int_of col.
Proof.
  induction 1 as [| c col Hc _ IH]; csimpl; [done |].
  destruct c; [| done]. csimpl. by rewrite <- IH.
Qed.

Lemma sorted_nodup_strict (l : list Z) :
  Sorted Z.le l → NoDup l → StronglySorted Z.lt l.
Proof.
  intros Hs Hnd. apply Sorted_StronglySorted in Hs; [| intros x y z; lia].
  induction Hs as [| x l Hs IH Hall]; [constructor |].
  apply NoDup_cons in Hnd as [Hx Hnd]. constructor; [by apply IH |].
  rewrite Forall_forall in *. intros y Hy. specialize (Hall y Hy).
  assert (x ≠ y) by (intros ->; done). lia.
Qed.

Lemma strict_nodup (l : list Z) : StronglySorted Z.lt l → NoDup l.
Proof.
  induction 1 as [| x l _ IH Hall]; constructor; [| done].
  intros Hx. rewrite Forall_forall in Hall. specialize (Hall x Hx). lia.
Qed.

(** In a strictly ascending list, the elements before the last are the
    elements that have a larger one. *)
Lemma all_but_the_largest (l : list Z) :
  StronglySorted Z.lt l →
  StronglySorted Z.lt (take (length l - 1) l) ∧
  ∀ t, t ∈ take (length l - 1) l ↔ t ∈ l ∧ ∃ later, later ∈ l ∧ t < later.
Proof.
  intros Hs. destruct (decide (l = [])) as [-> | Hne].
  { split; [constructor |]. intros t. simpl. split; [by intros ?%elem_of_nil |].
    by intros [?%elem_of_nil _]. }
  destruct (exists_last Hne) as (init & latest & ->).
  rewrite length_app. simpl. replace (length init + 1 - 1)%nat with (length init) by lia.
  rewrite take_app_length.
  apply StronglySorted_app in Hs as (Hcross & Hinit & _).
  split; [done |]. intros t. rewrite elem_of_app, list_elem_of_singleton. split.
  - intros Ht. split; [by left |]. exists latest. rewrite elem_of_app, list_elem_of_singleton.
    split; [by right |]. apply (Hcross t latest Ht). by apply list_elem_of_singleton.
  - intros [[Ht | ->] (later & Hlater & Hlt)]; [done |]. exfalso.
    apply elem_of_app in Hlater as [Hlater | Hlater].
    + specialize (Hcross later latest Hlater ltac:(by apply list_elem_of_singleton)). lia.
    + apply list_elem_of_singleton in Hlater. lia.
Qed.

(** The table after [drop_duplicates] and [sort], for a table with
    integer times: the rows that come first for their time, in strictly
    ascending order of time. *)
Lemma deduplicated_and_sorted i (data : Frame.t) (times : list Z) :
  Frame.column i data = CInt <$> times →
  let d1 := Frame.drop_duplicates i data in
  let d2 := Frame.stable_sort (Frame.row_le i) d1 in
  Frame.sort_values i true d1 = inr d2 ∧
  (∀ r, r ∈ d2 →
     ∃ before after, data = before ++ r :: after ∧ r !!! i ∉ Frame.column i before) ∧
  ∃ times2,
    Frame.column i d2 = CInt <$> times2 ∧
    StronglySorted Z.lt times2 ∧
    ∀ t, t ∈ times2 ↔ t ∈ times.
Proof.
  intros Hcol d1 d2.
  assert (d1 `sublist_of` data) as Hsub by apply drop_duplicates_from_sublist.
  assert (Forall (λ c, Frame.is_int c = true) (Frame.column i d1)) as Hint1.
  { apply Forall_forall. intros c Hc.
    assert (c ∈ Frame.column i data) as Hc'.
    { unfold Frame.column in *. apply list_elem_of_fmap in Hc as (r & -> & Hr).
      apply list_elem_of_fmap. exists r. split; [done |].
      by eapply elem_of_sublist. }
    rewrite Hcol in Hc'. by apply list_elem_of_fmap in Hc' as (t & -> & _). }
  set (times1 := omap Frame.int_of (Frame.column i d1)).
  assert (Frame.column i d1 = CInt <$> times1) as Hcol1 by (by apply int_column).
  assert (NoDup times1) as Hnd1.
  { apply (NoDup_fmap_1 CInt). rewrite <- Hcol1. apply drop_duplicates_from_fresh. }
  assert (∀ t, t ∈ times1 ↔ t ∈ times) as Hset1.
  { intros t. split.
    - intros Ht. assert (CInt t ∈ Frame.column i data) as Hc.
      { assert (CInt t ∈ Frame.column i d1) as Hc1
          by (rewrite Hcol1; by apply list_elem_of_fmap_2).
        unfold Frame.column in *. apply list_elem_of_fmap in Hc1 as (r & -> & Hr).
        apply list_elem_of_fmap. exists r. split; [done |].
        by eapply elem_of_sublist. }
      rewrite Hcol in Hc. by apply list_elem_of_fmap in Hc as (t' & [= ->] & ?).
    - intros Ht. assert (CInt t ∈ Frame.column i data) as Hc
        by (rewrite Hcol; by apply list_elem_of_fmap_2).
      unfold Frame.column in Hc. apply list_elem_of_fmap in Hc as (r & Hr & Hin).
      destruct (drop_duplicates_from_covers i [] data r Hin) as [Hnil | Hkept];
        [by apply elem_of_nil in Hnil |].
      fold (Frame.drop_duplicates i data) in Hkept. fold d1 in Hkept.
      rewrite <- Hr, Hcol1 in Hkept.
      by apply list_elem_of_fmap in Hkept as (t' & [= ->] & ?). }
  assert (Frame.sort_values i true d1 = inr d2) as Hsort
    by (by apply (sort_values_int i d1 times1)).
  destruct (sort_values_sorted _ _ _ Hsort) as [Hperm Hsorted].
  destruct (int_column_of_perm (Frame.column i d2) times1) as (times2 & Hcol2 & Hperm2).
  { rewrite <- Hcol1. unfold Frame.column. by rewrite Hperm. }
  split; [done |]. split.
  - intros r Hr. rewrite Hperm in Hr. by apply drop_duplicates_from_first in Hr.
  - exists times2. split; [done |]. split.
    + apply sorted_nodup_strict; [by eapply sorted_rows_sorted_times | by rewrite Hperm2].
    + intros t. by rewrite Hperm2.
Qed.

Lemma column_take i (df : Frame.t) (times : list Z) n :
  Frame.column i df = CInt <$> times →
  Frame.column i (take n df) = CInt <$> take n times.
Proof. intros Hcol. unfold Frame.column in *. by rewrite !fmap_take, Hcol. Qed.

Lemma column_length i (df : Frame.t) (times : list Z) :
  Frame.column i df = CInt <$> times → length df = length times.
Proof.
  intros Hcol. rewrite <- (length_fmap CInt times), <- Hcol. unfold Frame.column.
  by rewrite length_fmap.
Qed.

(** The table after [drop_duplicates], [sort] and [drop_last]. *)
Lemma all_but_the_latest_row i (data : Frame.t) (times : list Z) :
  Frame.column i data = CInt <$> times →
  let kept := Frame.drop_last
                (Frame.stable_sort (Frame.row_le i) (Frame.drop_duplicates i data)) in
  ∃ kept_times,
    Frame.column i kept = CInt <$> kept_times ∧
    StronglySorted Z.lt kept_times ∧
    (∀ t, t ∈ kept_times ↔ t ∈ times ∧ ∃ later, later ∈ times ∧ t < later) ∧
    (∀ r, r ∈ kept →
       ∃ before after, data = before ++ r :: after ∧ r !!! i ∉ Frame.column i before).
Proof.
  intros Hcol kept.
  destruct (deduplicated_and_sorted i data times Hcol)
    as (_ & Hfirst & times2 & Hcol2 & Hstrict & Hset).
  destruct (all_but_the_largest times2 Hstrict) as [Hkept_sorted Hkept_set].
  exists (take (length times2 - 1) times2).
  split; [| split; [done | split]].
  - unfold kept, Frame.drop_last. rewrite (column_length _ _ _ Hcol2).
    by apply column_take.
  - intros t. rewrite Hkept_set. by setoid_rewrite Hset.
  - intros r Hr. unfold kept, Frame.drop_last in Hr.
    apply elem_of_take in Hr as (k & Hk & _). apply list_elem_of_lookup_2 in Hk.
    by apply Hfirst.
Qed.

Lemma traverse_dates py_int utc_strftime (times : list Z) :
  Forall (λ t, is_Some (utc_strftime (t `quot` 1000))) times →
  ∃ texts,
    Saver.traverse (Utils.timestamp_to_datetime py_int utc_strftime) (CInt <$> times)
    = inr texts ∧
    Forall2 (λ t text, utc_strftime (t `quot` 1000) = Some text) times texts.
Proof.
  induction 1 as [| t times [text Ht] _ (texts & Htexts & Hall)]; csimpl.
  - exists []. split; [done | constructor].
  - unfold Utils.timestamp_to_datetime at 1. simpl. rewrite Ht, Htexts.
    eexists. split; [done |]. by constructor.
Qed.

Lemma zip_with_formatted utc_strftime i (df : Frame.t) (times : list Z) texts :
  Frame.column i df = CInt <$> times →
  Forall2 (λ t text, utc_strftime (t `quot` 1000) = Some text) times texts →
  Forall2 (formatted utc_strftime i) df
    (zip_with (λ (r : row) s, <[ i := CStr s ]> r) df texts).
Proof.
  intros Hcol Htexts. revert df Hcol.
  induction Htexts as [| t text times texts Ht _ IH]; intros [| r df]; csimpl;
    try done; try (intros; by constructor).
  intros [= Hr Hcol]. constructor; [| by apply IH]. by exists t, text.
Qed.

Lemma _actions_registered py_int utc_strftime cfg :
  Saver._actions py_int utc_strftime cfg "sort" = Some (Saver._sort true) ∧
  Saver._actions py_int utc_strftime cfg "drop_duplicates" = Some Saver._drop_duplicates ∧
  Saver._actions py_int utc_strftime cfg "drop_last" = Some Saver._drop_last ∧
  Saver._actions py_int utc_strftime cfg "transfer_time"
  = Some (Saver._transfer_time py_int utc_strftime) ∧
  Saver._actions py_int utc_strftime cfg "fix_integrity"
  = Some (Saver._fix_data_integrity py_int cfg) ∧
  Saver._actions py_int utc_strftime cfg "save_missing_times"
  = Some (Saver._save_missing_times py_int utc_strftime cfg).
Proof. by repeat split. Qed.

(** [save] with the action list of the funding-rate history: the rows
    saved are the rows handed in without the rows that repeat a time and
    without the row of the latest time, in ascending order of time, the
    time of each turned into its date text; they are written to the
    chunk files. Stated for a saver that holds no table yet, rows as wide
    as the columns with integer times that can be formatted, and a
    positive chunk size. *)
Theorem mode_1_saves_all_but_the_latest_time py_int utc_strftime cfg (self : Saver.t)
    (data : list row) (times : list Z) :
  let i := Saver.time_column_index self in
  Wrapper._ACTIONS_MAPPING "MODE_1" = Some (Saver.actions self) →
  Saver._df self = None →
  (i < length (Saver.columns self))%nat →
  Forall (λ r : row, length r = length (Saver.columns self)) data →
  Frame.column i data = CInt <$> times →
  (∀ t, t ∈ times → is_Some (utc_strftime (t `quot` 1000))) →
  0 < CSV_CHUNK_SIZE cfg →
  ∃ s' log kept kept_times table,
    Saver.save py_int utc_strftime cfg data self = (s', log, inr tt) ∧
    Saver._df s' = Some table ∧
    Forall2 (formatted utc_strftime i) kept table ∧
    Frame.column i kept = CInt <$> kept_times ∧
    StronglySorted Z.lt kept_times ∧
    (∀ t, t ∈ kept_times ↔ t ∈ times ∧ ∃ later, later ∈ times ∧ t < later) ∧
    (∀ r, r ∈ kept →
       ∃ before after, data = before ++ r :: after ∧ r !!! i ∉ Frame.column i before) ∧
    let size := Z.to_nat (CSV_CHUNK_SIZE cfg) in
    let count := chunk_count (CSV_CHUNK_SIZE cfg) (length table) in
    (∀ k, (k < count)%nat →
       Saver.files s' !! chunk_path (Saver._work_folder self) k
       = Some (Saver.CsvFile (Saver.columns self) (chunk_rows size table k))) ∧
    concat (chunk_rows size table <$> seq 0 count) = table.
Proof.
  intros i Hactions Hfresh Hi Hfit Hcol Hdates Hchunk.
  injection Hactions as Hactions.
  destruct (all_but_the_latest_row i data times Hcol)
    as (kept_times & Hkept & Hstrict & Hset & Hfirst).
  destruct (deduplicated_and_sorted i data times Hcol) as (Hsort & _).
  set (d1 := Frame.drop_duplicates i data) in *.
  set (d2 := Frame.stable_sort (Frame.row_le i) d1) in *.
  set (kept := Frame.drop_last d2) in *.
  destruct (traverse_dates py_int utc_strftime kept_times) as (texts & Htexts & Hall).
  { apply Forall_forall. intros t Ht. apply Hdates. by apply Hset in Ht as [? _]. }
  set (table := zip_with (λ (r : row) s, <[ i := CStr s ]> r) kept texts).
  set (s1 := Saver.set_df data self).
  assert (∀ df, Saver.time_column_index (Saver.set_df df self) = i) as Hidx by done.
  assert (Saver.run_actions py_int utc_strftime cfg (Saver.actions self) s1
          = (Saver.set_df table self, [], inr tt)) as Hrun.
  { rewrite <- Hactions. cbn [Saver.run_actions].
    destruct (_actions_registered py_int utc_strftime cfg)
      as (-> & -> & -> & -> & _ & _).
    rewrite (bind_silent _ _ s1 (Saver.set_df d1 self) tt)
      by (by rewrite _drop_duplicates_unfold).
    rewrite (bind_silent _ _ _ (Saver.set_df d2 self) tt)
      by (rewrite _sort_unfold; simpl; fold i; fold d1; by rewrite Hsort).
    rewrite (bind_silent _ _ _ (Saver.set_df kept self) tt)
      by (by rewrite (_drop_last_unfold _ d2)).
    rewrite (bind_silent _ _ _ (Saver.set_df table self) tt).
    - done.
    - rewrite (_transfer_time_formats py_int utc_strftime _ kept texts); [done | done |].
      simpl. fold i. by rewrite Hkept. }
  destruct (_save_file_chunks cfg (Saver.set_df table self) table eq_refl Hchunk)
    as (s' & Hsave & Hdf' & Hfiles & _ & Hconcat).
  exists s'. eexists. exists kept, kept_times, table.
  split.
  { unfold Saver.save.
    rewrite (bind_silent _ _ self s1 tt)
      by (rewrite (_append_data_fits _ _ Hfit), Hfresh; done).
    rewrite bind_get. 
    rewrite (bind_silent _ _ s1 (Saver.set_df table self) tt) by exact Hrun.
    exact Hsave. }
  split; [done |]. split; [by eapply zip_with_formatted |].
  split; [done |]. split; [done |]. split; [done |]. split; [done |].
  split; [| done]. intros k Hk. by destruct (Hfiles k Hk).
Qed.

Lemma list_min_spec (l : list Z) :
  l ≠ [] → Saver.list_min l ∈ l ∧ ∀ x, x ∈ l → Saver.list_min l ≤ x.
Proof.
  destruct l as [| x l]; [done |]. intros _. simpl.
  induction l as [| y l [IHin IHle]]; simpl.
  - split; [left |]. intros z Hz. apply list_elem_of_singleton in Hz. lia.
  - split.
    + destruct (Z.min_spec y (foldr Z.min x l)) as [[_ ->] | [_ ->]].
      * right. left.
      * apply elem_of_cons in IHin as [-> | ?]; [left | right; by right].
    + intros z Hz. apply elem_of_cons in Hz as [-> | Hz].
      * specialize (IHle x ltac:(left)). lia.
      * apply elem_of_cons in Hz as [-> | Hz]; [lia |].
        specialize (IHle z ltac:(by right)). lia.
Qed.

Lemma list_max_spec (l : list Z) :
  l ≠ [] → Saver.list_max l ∈ l ∧ ∀ x, x ∈ l → x ≤ Saver.list_max l.
Proof.
  destruct l as [| x l]; [done |]. intros _. simpl.
  induction l as [| y l [IHin IHle]]; simpl.
  - split; [left |]. intros z Hz. apply list_elem_of_singleton in Hz. lia.
  - split.
    + destruct (Z.max_spec y (foldr Z.max x l)) as [[_ ->] | [_ ->]].
      * apply elem_of_cons in IHin as [-> | ?]; [left | right; by right].
      * right. left.
    + intros z Hz. apply elem_of_cons in Hz as [-> | Hz].
      * specialize (IHle x ltac:(left)). lia.
      * apply elem_of_cons in Hz as [-> | Hz]; [lia |].
        specialize (IHle z ltac:(by right)). lia.
Qed.

(** The missing times depend on the set of the times only. *)
Lemma missing_timestamps_ext (times1 times2 : list Z) delta :
  times1 ≠ [] →
  (∀ t, t ∈ times1 ↔ t ∈ times2) →
  Saver.missing_timestamps times1 delta = Saver.missing_timestamps times2 delta.
Proof.
  intros Hne Hset.
  assert (times2 ≠ []) as Hne2.
  { destruct times1 as [| t ?]; [done |]. intros ->.
    specialize (Hset t). rewrite elem_of_nil in Hset. apply Hset. left. }
  destruct (list_min_spec times1 Hne) as [Hin1 Hle1].
  destruct (list_min_spec times2 Hne2) as [Hin2 Hle2].
  destruct (list_max_spec times1 Hne) as [Hmi1 Hml1].
  destruct (list_max_spec times2 Hne2) as [Hmi2 Hml2].
  assert (Saver.list_min times1 = Saver.list_min times2) as Hmin.
  { apply Hset in Hin1. apply Hset in Hin2.
    specialize (Hle1 _ Hin2). specialize (Hle2 _ Hin1). lia. }
  assert (Saver.list_max times1 = Saver.list_max times2) as Hmax.
  { apply Hset in Hmi1. apply Hset in Hmi2.
    specialize (Hml1 _ Hmi2). specialize (Hml2 _ Hmi1). lia. }
  unfold Saver.missing_timestamps. rewrite Hmin, Hmax.
  destruct (Frame.arange _ _ delta) as [x | expected]; [done |]. f_equal.
  assert (list_to_set times1 =@{gset Z} list_to_set times2) as ->; [| done].
  apply set_eq. intros t. by rewrite !elem_of_list_to_set.
Qed.

Lemma _fix_data_integrity_cached py_int cfg (s : Saver.t) (df : Frame.t)
    (times missing : list Z) :
  Saver._missing_times s = Some missing →
  Saver._df s = Some df →
  df ≠ [] →
  Frame.column (Saver.time_column_index s) df = CInt <$> times →
  Forall (λ r : row, length r = length (Saver.columns s)) df →
  (Saver.time_column_index s < length (Saver.columns s))%nat →
  let i := Saver.time_column_index s in
  ∃ log df' times',
    Saver._fix_data_integrity py_int cfg s = (Saver.set_df df' s, log, inr tt) ∧
    Frame.column i df' = CInt <$> times' ∧
    times' ≡ₚ times ++ missing ∧
    (missing = [] ∧ df' = df ∨ Sorted Z.le times') ∧
    (∀ new, new ∈ df' →
       new ∈ df ∨ ∃ source t, source ∈ df ∧ t ∈ missing ∧
                              new = <[ i := CInt t ]> source).
Proof.
  intros Hcache Hdf Hne Hcol Hwidth Hi i.
  destruct (Saver._fix_data_integrity py_int cfg s) as [[s' log] r] eqn:Hrun.
  unfold Saver._fix_data_integrity in Hrun.
  rewrite (bind_silent _ _ s s true) in Hrun
    by (by eapply _initialize_missing_times_cached).
  cbn [negb] in Hrun.
  destruct (fill_cached_gaps s df times missing Hcache Hdf Hne Hcol Hwidth Hi
              s' log r Hrun)
    as (-> & df' & times' & -> & Hcol' & Hperm & Hsorted & Hrows).
  by exists log, df', times'.
Qed.

(** [save] with the default action list, the one of the OHLCV history:
    the rows that repeat a time are dropped, every gap of the grid
    between the first and the last time is filled with a copy of a row
    handed in, and the row of the latest time is dropped; what is saved
    is in strictly ascending order of time, the time of each row turned
    into its date text, cut into the chunk files. Stated for a saver that
    holds no table and no missing times yet, a positive step, rows as
    wide as the columns with integer times, no more gaps than allowed,
    dates that can be formatted and a positive chunk size. *)
Theorem default_actions_save_a_table_without_gaps py_int utc_strftime cfg (self : Saver.t)
    (data : list row) (times : list Z) tf delta (missing : gset Z) :
  let i := Saver.time_column_index self in
  Wrapper._ACTIONS_MAPPING "DEFAULT" = Some (Saver.actions self) →
  Saver._df self = None →
  Saver._missing_times self = None →
  Saver.timeframe self = Some tf →
  Utils.timeframe_to_timestamp py_int tf = inr delta →
  0 < delta →
  (i < length (Saver.columns self))%nat →
  data ≠ [] →
  Forall (λ r : row, length r = length (Saver.columns self)) data →
  Frame.column i data = CInt <$> times →
  Saver.missing_timestamps times delta = inr missing →
  Z.of_nat (size missing) ≤ ALLOW_MAX_MISSING_TIMESTAMPS cfg →
  (∀ t, t ∈ times ∨ t ∈ missing → is_Some (utc_strftime (t `quot` 1000))) →
  0 < CSV_CHUNK_SIZE cfg →
  ∃ s' log kept kept_times table,
    Saver.save py_int utc_strftime cfg data self = (s', log, inr tt) ∧
    Saver._df s' = Some table ∧
    Forall2 (formatted utc_strftime i) kept table ∧
    Frame.column i kept = CInt <$> kept_times ∧
    StronglySorted Z.lt kept_times ∧
    (∀ t, t ∈ missing ↔
          grid_below (Saver.list_min times) (Saver.list_max times + delta) delta t ∧
          t ∉ times) ∧
    (∀ t, t ∈ kept_times ↔
          (t ∈ times ∨ t ∈ missing) ∧
          ∃ later, (later ∈ times ∨ later ∈ missing) ∧ t < later) ∧
    (∀ r, r ∈ kept →
       r ∈ data ∨ ∃ source t, source ∈ data ∧ t ∈ missing ∧
                              r = <[ i := CInt t ]> source) ∧
    let size := Z.to_nat (CSV_CHUNK_SIZE cfg) in
    let count := chunk_count (CSV_CHUNK_SIZE cfg) (length table) in
    (∀ k, (k < count)%nat →
       Saver.files s' !! chunk_path (Saver._work_folder self) k
       = Some (Saver.CsvFile (Saver.columns self) (chunk_rows size table k))) ∧
    concat (chunk_rows size table <$> seq 0 count) = table.
Proof.
  intros i Hactions Hfresh Hcache Htf Hdelta Hpos Hi Hne Hfit Hcol Hmissing Hsize
    Hdates Hchunk.
  injection Hactions as Hactions.
  destruct (deduplicated_and_sorted i data times Hcol)
    as (Hsort & Hfirst & times2 & Hcol2 & Hstrict2 & Hset2).
  set (d1 := Frame.drop_duplicates i data) in *.
  set (d2 := Frame.stable_sort (Frame.row_le i) d1) in *.
  destruct (sort_values_sorted _ _ _ Hsort) as [Hperm2 _].
  assert (times ≠ []) as Htimes.
  { intros ->. destruct data; [done | by csimpl in Hcol]. }
  assert (times2 ≠ []) as Htimes2.
  { destruct times as [| t ?]; [done |]. intros ->.
    specialize (Hset2 t). rewrite elem_of_nil in Hset2. apply Hset2. left. }
  assert (d2 ≠ []) as Hne2.
  { intros Hnil. rewrite Hnil in Hcol2. by destruct times2. }
  assert (Forall (λ r : row, length r = length (Saver.columns self)) d2) as Hfit2.
  { rewrite Hperm2. apply Forall_forall. intros r Hr.
    rewrite Forall_forall in Hfit. apply Hfit.
    eapply elem_of_sublist; [exact Hr | apply drop_duplicates_from_sublist]. }
  assert (Saver.missing_timestamps times2 delta = inr missing) as Hmissing2.
  { by rewrite (missing_timestamps_ext times2 times delta Htimes2 Hset2). }
  assert (∀ t, t ∈ missing ↔
               grid_below (Saver.list_min times) (Saver.list_max times + delta) delta t ∧
               t ∉ times) as Hgrid.
  { intros t. unfold Saver.missing_timestamps in Hmissing.
    destruct (Frame.arange _ _ delta) as [x | expected] eqn:Harange; [done |].
    injection Hmissing as <-.
    rewrite elem_of_difference, !elem_of_list_to_set.
    by rewrite (elem_of_arange _ _ _ _ t Hpos Harange). }
  destruct (cached_missing_spec missing) as (_ & _ & Hnodup & Hms).
  set (ms := cached_missing missing) in *.
  set (s2 := Saver.set_df d2 self).
  destruct (_save_missing_times_detects py_int utc_strftime cfg s2 tf d2 times2 delta
              missing Hcache Htf eq_refl Hne2 Hcol2 Hdelta Hmissing2 Hsize)
    as (log3 & lines & _ & H3).
  { intros t Ht. apply Hdates. by right. }
  fold ms in H3.
  set (s3 := match ms with
             | [] => Saver.set_missing_times [] s2
             | _ :: _ =>
                 Saver.set_file (Saver._work_folder s2 +:+ "/" +:+ "missingtimes.txt")
                   (Saver.TextFile lines) (Saver.set_missing_times ms s2)
             end) in *.
  assert (Saver._missing_times s3 = Some ms ∧ Saver._df s3 = Some d2 ∧
          Saver.time_column_index s3 = i ∧ Saver.columns s3 = Saver.columns self ∧
          Saver._work_folder s3 = Saver._work_folder self) as (Hc3 & Hdf3 & Hi3 & Hcols3 & Hw3).
  { subst s3. by destruct ms. }
  destruct (_fix_data_integrity_cached py_int cfg s3 d2 times2 ms Hc3 Hdf3 Hne2)
    as (log4 & d3 & times3 & H4 & Hcol3 & Hperm3 & Hsorted3 & Hrows3).
  { by rewrite Hi3. }
  { by rewrite Hcols3. }
  { by rewrite Hi3, Hcols3. }
  rewrite Hi3 in Hcol3, Hrows3.
  assert (StronglySorted Z.lt times3) as Hstrict3.
  { destruct Hsorted3 as [[Hnil ->] | Hsorted3].
    - rewrite Hcol2 in Hcol3.
      assert (Inj (=) (=) CInt) as Hinj by (by intros ?? [=]).
      apply (inj (fmap CInt)) in Hcol3. by subst.
    - apply sorted_nodup_strict; [done |]. rewrite Hperm3. apply NoDup_app.
      split; [by apply strict_nodup |]. split; [| done].
      intros t Ht2 Htm. apply Hms, Hgrid in Htm as [_ Hnot]. by apply Hnot, Hset2. }
  assert (∀ t, t ∈ times3 ↔ t ∈ times ∨ t ∈ missing) as Hset3.
  { intros t. by rewrite Hperm3, elem_of_app, Hset2, Hms. }
  destruct (all_but_the_largest times3 Hstrict3) as [Hkept_sorted Hkept_set].
  set (kept := Frame.drop_last d3).
  set (kept_times := take (length times3 - 1) times3) in *.
  assert (Frame.column i kept = CInt <$> kept_times) as Hkept.
  { unfold kept, Frame.drop_last. rewrite (column_length _ _ _ Hcol3).
    by apply column_take. }
  destruct (traverse_dates py_int utc_strftime kept_times) as (texts & Htexts & Hall).
  { apply Forall_forall. intros t Ht. apply Hdates. apply Hkept_set in Ht as [Ht _].
    by apply Hset3. }
  set (table := zip_with (λ (r : row) s, <[ i := CStr s ]> r) kept texts).
  set (s4 := Saver.set_df d3 s3) in *.
  set (s6 := Saver.set_df table s4).
  destruct (_save_file_chunks cfg s6 table eq_refl Hchunk)
    as (s' & H7 & Hdf' & Hfiles & _ & Hconcat).
  exists s'. eexists. exists kept, kept_times, table. split.
  { unfold Saver.save.
    rewrite (bind_silent _ _ self (Saver.set_df data self) tt)
      by (rewrite (_append_data_fits _ _ Hfit), Hfresh; done).
    rewrite bind_get. eapply bind_inr; [| exact H7].
    change (Saver.actions (Saver.set_df data self)) with (Saver.actions self).
    rewrite <- Hactions. cbn [Saver.run_actions].
    destruct (_actions_registered py_int utc_strftime cfg)
      as (-> & -> & -> & -> & -> & ->).
    eapply bind_inr; [by rewrite _drop_duplicates_unfold |].
    eapply bind_inr.
    { rewrite _sort_unfold. simpl. fold i. fold d1. by rewrite Hsort. }
    eapply bind_inr; [exact H3 |].
    eapply bind_inr; [exact H4 |].
    eapply bind_inr; [by apply (_drop_last_unfold s4 d3) |].
    eapply bind_inr.
    { rewrite (_transfer_time_formats py_int utc_strftime _ kept texts); [| done |].
      - simpl. rewrite Hi3. reflexivity.
      - simpl. rewrite Hi3. by rewrite Hkept. }
    reflexivity. }
  split; [done |]. split; [by eapply zip_with_formatted |].
  split; [done |]. split; [done |]. split; [done |]. split.
  { intros t. rewrite Hkept_set, Hset3. by setoid_rewrite Hset3. }
  split.
  { intros r Hr. unfold kept, Frame.drop_last in Hr.
    apply elem_of_take in Hr as (k & Hk & _). apply list_elem_of_lookup_2 in Hk.
    assert (∀ r, r ∈ d2 → r ∈ data) as Hin2.
    { intros r' Hr'. rewrite Hperm2 in Hr'.
      eapply elem_of_sublist; [exact Hr' | apply drop_duplicates_from_sublist]. }
    destruct (Hrows3 r Hk) as [Hold | (source & t & Hsrc & Ht & ->)].
    - left. by apply Hin2.
    - right. exists source, t. split; [by apply Hin2 |]. split; [by apply Hms | done]. }
  split; [| done]. intros k Hk. destruct (Hfiles k Hk) as [Hfile _].
  simpl in Hfile. rewrite Hw3, Hcols3 in Hfile. exact Hfile.
Qed.

Lemma mode_1_saves_all_but_the_latest_time_witness :
  ∃ s' log,
    Saver.save Examples.parse_decimal Examples.seconds_text Examples.config
      [[CInt 2000; CStr "b"]; [CInt 1000; CStr "a"]; [CInt 2000; CStr "c"];
       [CInt 3000; CStr "d"]] Cases.funding_saver = (s', log, inr tt) ∧
    Saver._df s' = Some [[CStr "1"; CStr "a"]; [CStr "2"; CStr "b"]].
Proof.
  destruct (mode_1_saves_all_but_the_latest_time Examples.parse_decimal
              Examples.seconds_text Examples.config Cases.funding_saver
              [[CInt 2000; CStr "b"]; [CInt 1000; CStr "a"]; [CInt 2000; CStr "c"];
               [CInt 3000; CStr "d"]] [2000; 1000; 2000; 3000])
    as (s' & log & kept & kept_times & table & Hsave & _).
  - reflexivity.
  - reflexivity.
  - simpl. lia.
  - by repeat constructor.
  - reflexivity.
  - intros t _. by eexists.
  - simpl. lia.
  - exists s', log. split; [exact Hsave |].
    vm_compute in Hsave. by injection Hsave as <- _.
Defined.

Lemma default_actions_save_a_table_without_gaps_witness :
  ∃ s' log,
    Saver.save Examples.parse_decimal Examples.seconds_text Examples.config
      [[CInt 0; CInt 1]; [CInt 180000; CInt 2]] Cases.ohlcv_saver = (s', log, inr tt) ∧
    Saver._df s' = Some [[CStr "0"; CInt 1]; [CStr "60"; CInt 1]; [CStr "120"; CInt 2]].
Proof.
  destruct (default_actions_save_a_table_without_gaps Examples.parse_decimal
              Examples.seconds_text Examples.config Cases.ohlcv_saver
              [[CInt 0; CInt 1]; [CInt 180000; CInt 2]] [0; 180000] "1m" 60000
              (list_to_set [60000; 120000]))
    as (s' & log & kept & kept_times & table & Hsave & _).
  - reflexivity.
  - reflexivity.
  - reflexivity.
  - reflexivity.
  - vm_compute. reflexivity.
  - lia.
  - simpl. lia.
  - done.
  - by repeat constructor.
  - reflexivity.
  - vm_compute. reflexivity.
  - vm_compute. discriminate.
  - intros t _. by eexists.
  - simpl. lia.
  - exists s', log. split; [exact Hsave |].
    vm_compute in Hsave. by injection Hsave as <- _.
Defined.

(** A second [save] on a saver whose table went through
    [transfer_time]: the new rows carry integer times, the old rows
    text, and [sort] cannot order the two. With an action list that
    starts with [drop_duplicates] and [sort], as both lists of the
    wrapper do, [save] raises a TypeError; the new rows have been
    appended and the duplicates dropped, and no file is written. *)
Theorem a_formatted_table_cannot_be_saved_to_again py_int utc_strftime cfg (self : Saver.t)
    (table : Frame.t) (texts : list string) (data : list row) (times : list Z)
    (later : list string) :
  let i := Saver.time_column_index self in
  Saver.actions self = "drop_duplicates" :: "sort" :: later →
  Saver._df self = Some table →
  table ≠ [] →
  Frame.column i table = CStr <$> texts →
  data ≠ [] →
  Forall (λ r : row, length r = length (Saver.columns self)) data →
  Frame.column i data = CInt <$> times →
  ∃ s' message,
    Saver.save py_int utc_strftime cfg data self = (s', [], inl (TypeError message)) ∧
    Saver._df s' = Some (Frame.drop_duplicates i (table ++ data)) ∧
    Saver.files s' = Saver.files self.
Proof.
  intros i Hactions Hdf Htable Htexts Hdata Hfit Htimes.
  set (d1 := Frame.drop_duplicates i (table ++ data)).
  assert (Frame.comparable (Frame.column i d1) = false) as Hmixed.
  { assert (∀ r : row, r ∈ table ++ data → r !!! i ∈ Frame.column i d1) as Hkept.
    { intros r Hr. destruct (drop_duplicates_from_covers i [] (table ++ data) r Hr)
        as [Hnil | Hin]; [by apply elem_of_nil in Hnil | done]. }
    unfold Frame.comparable. apply orb_false_iff. split.
    - destruct table as [| r0 table]; [done |]. destruct texts as [| text texts]; [done |].
      injection Htexts as Hr0 _.
      assert (r0 !!! i ∈ Frame.column i d1) as Hin by (apply Hkept; left).
      rewrite Hr0 in Hin. apply not_true_iff_false. intros Hall.
      apply Is_true_true, forallb_True in Hall. rewrite Forall_forall in Hall.
      by specialize (Hall _ Hin).
    - destruct data as [| e0 data]; [done |]. destruct times as [| t times]; [done |].
      injection Htimes as He0 _.
      assert (e0 !!! i ∈ Frame.column i d1) as Hin
        by (apply Hkept, elem_of_app; right; left).
      rewrite He0 in Hin. apply not_true_iff_false. intros Hall.
      apply Is_true_true, forallb_True in Hall. rewrite Forall_forall in Hall.
      by specialize (Hall _ Hin). }
  exists (Saver.set_df d1 (Saver.set_df (table ++ data) self)), "'<' not supported between instances of 'str' and 'int'".
  split; [| split; reflexivity].
  unfold Saver.save.
  rewrite (bind_silent _ _ self (Saver.set_df (table ++ data) self) tt)
    by (rewrite (_append_data_fits _ _ Hfit), Hdf; done).
  rewrite bind_get.
  change (Saver.actions (Saver.set_df (table ++ data) self)) with (Saver.actions self).
  rewrite Hactions. cbn [Saver.run_actions].
  destruct (_actions_registered py_int utc_strftime cfg) as (-> & -> & _).
  eapply bind_inl.
  rewrite (bind_silent _ _ _ (Saver.set_df d1 (Saver.set_df (table ++ data) self)) tt)
    by (by rewrite _drop_duplicates_unfold).
  eapply bind_inl. rewrite _sort_unfold. simpl. fold i. fold d1.
  unfold Frame.sort_values. rewrite Hmixed. reflexivity.
Qed.

Lemma a_formatted_table_cannot_be_saved_to_again_witness :
  ∃ s' message,
    Saver.save Examples.parse_decimal Examples.seconds_text Examples.config
      [[CInt 4000; CStr "e"]]
      (Saver.set_df [[CStr "1"; CStr "a"]; [CStr "2"; CStr "b"]] Cases.funding_saver)
    = (s', [], inl (TypeError message)) ∧
    Saver._df s' = Some [[CStr "1"; CStr "a"]; [CStr "2"; CStr "b"]; [CInt 4000; CStr "e"]].
Proof.
  destruct (a_formatted_table_cannot_be_saved_to_again Examples.parse_decimal
              Examples.seconds_text Examples.config
              (Saver.set_df [[CStr "1"; CStr "a"]; [CStr "2"; CStr "b"]] Cases.funding_saver)
              [[CStr "1"; CStr "a"]; [CStr "2"; CStr "b"]] ["1"; "2"]
              [[CInt 4000; CStr "e"]] [4000] ["drop_last"; "transfer_time"])
    as (s' & message & Hsave & Hdf & _).
  - reflexivity.
  - reflexivity.
  - done.
  - reflexivity.
  - done.
  - by repeat constructor.
  - reflexivity.
  - exists s', message. split; [exact Hsave | exact Hdf].
Defined.

(** ** Labels and the work folder *)

Lemma replace_slash_no_slash label : ¬ occurs "/" (Labels.replace_slash label).
Proof.
  induction label as [| c rest IH]; simpl; [tauto |].
  case_decide; intros [Heq | Hrest]; done.
Qed.

Lemma replace_slash_length label :
  String.length (Labels.replace_slash label) = String.length label.
Proof. induction label as [| c rest IH]; simpl; [done | by rewrite IH]. Qed.

Lemma replace_slash_id label : ¬ occurs "/" label → Labels.replace_slash label = label.
Proof.
  induction label as [| c rest IH]; simpl; [done |]. intros Hno.
  rewrite decide_False by (intros ->; apply Hno; by left).
  rewrite IH; [done |]. intros Hrest. apply Hno. by right.
Qed.

Lemma occurs_append c s1 s2 : occurs c (s1 +:+ s2) ↔ occurs c s1 ∨ occurs c s2.
Proof.
  induction s1 as [| c1 s1 IH].
  - change ("" +:+ s2) with s2. simpl. tauto.
  - change (String c1 s1 +:+ s2) with (String c1 (s1 +:+ s2)). simpl. tauto.
Qed.

Lemma occurs_join c sep parts :
  occurs c (Labels.join sep parts) → occurs c sep ∨ Exists (occurs c) parts.
Proof.
  induction parts as [| part parts IH]; [done |].
  destruct parts as [| part' parts].
  - simpl. intros Hc. right. by left.
  - change (Labels.join sep (part :: part' :: parts))
      with (part +:+ sep +:+ Labels.join sep (part' :: parts)).
    rewrite !occurs_append. intros [Hc | [Hc | Hc]].
    + right. by left.
    + by left.
    + destruct (IH Hc) as [? | ?]; [by left | right; by right].
Qed.

Lemma labels_new_spec (labels : list (option string)) :
  match Labels.new labels with
  | inl x =>
      None ∈ labels ∧ x = AttributeError "'NoneType' object has no attribute 'replace'"
  | inr self =>
      Forall2 (λ arg label,
                 ∃ text, arg = Some text ∧ label = Labels.replace_slash text ∧
                         String.length label = String.length text ∧
                         (¬ occurs "/" text → label = text)) labels self
  end.
Proof.
  induction labels as [| [text |] labels IH]; simpl.
  - constructor.
  - destruct (Labels.new labels) as [x | self].
    + destruct IH as [Hin ->]. split; [by right | done].
    + constructor; [| done]. exists text. split; [done |]. split; [done |].
      split; [apply replace_slash_length | apply replace_slash_id].
  - split; [left | done].
Qed.

Lemma labels_new_no_slash labels self :
  Labels.new labels = inr self → Forall (λ label, ¬ occurs "/" label) self.
Proof.
  intros Hnew. pose proof (labels_new_spec labels) as Hspec. rewrite Hnew in Hspec.
  clear Hnew. induction Hspec as [| arg label labels self (text & _ & -> & _) _ IH];
    constructor; [apply replace_slash_no_slash | done].
Qed.

(** [Labels] fails exactly when an argument is [None]; otherwise it
    holds one label for every argument, in order, each the argument with
    every ["/"] turned into ["-"] (an argument without ["/"] is kept as
    it is). No label and no text made of the labels by [str()] has a
    ["/"] in it. *)
Theorem labels_never_hold_a_slash (labels : list (option string)) :
  match Labels.new labels with
  | inl x =>
      None ∈ labels ∧ x = AttributeError "'NoneType' object has no attribute 'replace'"
  | inr self =>
      Forall2 (λ arg label,
                 ∃ text, arg = Some text ∧ label = Labels.replace_slash text ∧
                         String.length label = String.length text ∧
                         (¬ occurs "/" text → label = text)) labels self ∧
      Forall (λ label, ¬ occurs "/" label) (Labels.__iter__ self) ∧
      ¬ occurs "/" (Labels.__str__ self)
  end.
Proof.
  pose proof (labels_new_spec labels) as Hspec.
  destruct (Labels.new labels) as [x | self] eqn:Hnew; [done |].
  pose proof (labels_new_no_slash labels self Hnew) as Hall.
  split; [done |]. split; [done |]. intros Hslash.
  apply occurs_join in Hslash as [Hsep | Hpart].
  - simpl in Hsep. by destruct Hsep as [[=] | []].
  - apply Exists_exists in Hpart as (label & Hin & Hocc).
    rewrite Forall_forall in Hall. by apply (Hall label Hin).
Qed.





(** ** The error classes *)

Lemma or_else_nonempty message default :
  default ≠ "" → Errors.or_else message default ≠ "".
Proof. by destruct message as [[| c rest] |]. Qed.

Lemma raised_message c message :
  Errors.message (Errors.raised c message)
  = Errors.or_else message (Errors.default_message c).
Proof.
  destruct c; simpl; try done; by destruct message as [[| ? ?] |].
Qed.

Lemma raised_text c message :
  c ≠ Errors.BaseError →
  ∃ k, Errors.default_code c = Some k ∧
       Errors.__str__ (Errors.raised c message)
       = "[Error Code: " +:+ pretty k +:+ "] " +:+
         Errors.or_else message (Errors.default_message c).
Proof.
  intros Hc. pose proof (raised_message c message) as Hm.
  destruct c; [done | | | |]; eexists; (split; [reflexivity |]);
    unfold Errors.__str__; rewrite Hm; reflexivity.
Qed.

(** What [str()] shows of an error raised with a message only, for the
    four subclasses: the code of the class in brackets, then the message,
    or the default message of the class when the message is [None] or
    empty. The text is never empty, and it tells the class and the
    message: two such errors with the same text are of the same class
    and carry the same message. *)
Theorem error_text_names_the_class_and_the_message c1 c2 message1 message2 :
  c1 ≠ Errors.BaseError → c2 ≠ Errors.BaseError →
  let e1 := Errors.raised c1 message1 in
  let e2 := Errors.raised c2 message2 in
  (∃ k, Errors.code e1 = Some k ∧ k ≠ 0 ∧
        Errors.__str__ e1 = "[Error Code: " +:+ pretty k +:+ "] " +:+ Errors.message e1) ∧
  Errors.message e1 = Errors.or_else message1 (Errors.default_message c1) ∧
  Errors.message e1 ≠ "" ∧
  (Errors.__str__ e1 = Errors.__str__ e2 →
   c1 = c2 ∧ Errors.message e1 = Errors.message e2).
Proof.
  intros Hc1 Hc2 e1 e2.
  pose proof (raised_message c1 message1) as Hm1.
  pose proof (raised_message c2 message2) as Hm2.
  fold e1 in Hm1. fold e2 in Hm2.
  split; [| split; [done | split]].
  - destruct c1; [done | | | |]; eexists; (split; [reflexivity |]); by split.
  - rewrite Hm1. apply or_else_nonempty. by destruct c1.
  - destruct (raised_text c1 message1 Hc1) as (k1 & Hk1 & Ht1).
    destruct (raised_text c2 message2 Hc2) as (k2 & Hk2 & Ht2).
    fold e1 in Ht1. fold e2 in Ht2. rewrite Ht1, Ht2, Hm1, Hm2.
    destruct c1; [done | | | |]; destruct c2; try done;
      injection Hk1 as <-; injection Hk2 as <-; vm_compute (pretty _);
      intros Heq; try discriminate Heq; (split; [done |]);
      by repeat apply String.app_inj in Heq.
Qed.

Lemma error_text_names_the_class_and_the_message_witness :
  Errors.__str__ (Errors.raised Errors.ExceedMaxMissingPointsError
                    (Some "Too many missing time points: 9"))
  = "[Error Code: 1005] Too many missing time points: 9" ∧
  Errors.__str__ (Errors.raised Errors.TaskInitializationError None)
  = "[Error Code: 1003] Task initialization failed".
Proof.
  pose proof (error_text_names_the_class_and_the_message
                Errors.ExceedMaxMissingPointsError Errors.TaskInitializationError
                (Some "Too many missing time points: 9") None
                ltac:(done) ltac:(done)) as ((k & Hk & _ & Htext) & _).
  split; [| vm_compute; reflexivity].
  rewrite Htext. injection Hk as <-. vm_compute. reflexivity.
Defined.

(** ** The configuration *)

(** [Config(name)] reads the file once. A call that returns has loaded
    the mapping of the file, or found it loaded, and returns the entry of
    the name, [None] when there is none; from then on every call answers
    from that mapping, whatever has become of the file. A call that
    raises (no file, or an empty file) has loaded nothing, so the next
    call looks for the file again. *)
Theorem config_is_read_once {V : Type} (fs : ConfigMeta.file) (config_name : string)
    (_config _config' : ConfigMeta.state) (r : result (option V)) :
  ConfigMeta.__call__ fs config_name _config = (_config', r) →
  match r with
  | inr value =>
      ∃ entries,
        _config' = Some entries ∧ value = entries !! config_name ∧
        (_config = None → fs = Some (ConfigMeta.Mapping entries)) ∧
        ∀ (fs' : ConfigMeta.file) name,
          ConfigMeta.__call__ fs' name _config' = (_config', inr (entries !! name))
  | inl x =>
      _config = None ∧ _config' = None ∧
      ((fs = None ∧
        x = ConfigurationError "Configuration file not found: config/config.yml") ∨
       (fs = Some ConfigMeta.Empty ∧
        x = AttributeError "'NoneType' object has no attribute 'get'"))
  end.
Proof.
  unfold ConfigMeta.__call__, ConfigMeta.initialize.
  destruct _config as [entries |]; [| destruct fs as [[| entries] |]];
    intros [= <- <-]; simpl.
  - exists entries. by repeat split.
  - split; [done |]. split; [done |]. by right.
  - exists entries. by repeat split.
  - split; [done |]. split; [done |]. by left.
Qed.

Lemma config_is_read_once_witness :
  let entries : gmap string Z := {[ "MAX_ATTEMPT_TIMES" := 3 ]} in
  ∃ _config',
    ConfigMeta.__call__ (Some (ConfigMeta.Mapping entries)) "MAX_ATTEMPT_TIMES"
      ConfigMeta.initial = (_config', inr (Some 3)) ∧
    ConfigMeta.__call__ None "CSV_CHUNK_SIZE" _config' = (_config', inr None).
Proof.
  intros entries.
  pose proof (config_is_read_once (Some (ConfigMeta.Mapping entries)) "MAX_ATTEMPT_TIMES"
                ConfigMeta.initial (Some entries) (inr (Some 3)) eq_refl)
    as (entries' & Hloaded & _ & _ & Hlater).
  exists (Some entries). split; [reflexivity |].
  injection Hloaded as <-. exact (Hlater None "CSV_CHUNK_SIZE").
Defined.

(** ** The proxy manager *)

Lemma start_when_disabled launches fs σ :
  ProxyManager._is_running σ = false →
  ProxyManager.enabled σ = false →
  ProxyManager.start_proxies launches fs σ = (σ, inr (-1)).
Proof.
  intros Hrun Hen. unfold ProxyManager.start_proxies. rewrite Hrun.
  destruct fs as [cfg |]; simpl; rewrite ?Hen; simpl; [done |].
  by destruct σ; simpl in *; subst.
Qed.

(** [start_proxies] starts the proxies at most once and gives up for
    good. A start that returns gives -1, having launched nothing and
    changed nothing but, at most, the [enabled] flag; or it gives a
    count, which happens only when the proxies were not running, the
    manager was enabled and the proxy file exists, and which leaves the
    proxies running. After a start that found no file, and after one
    that returned a count, every further start returns -1 and changes
    nothing, whatever the proxy file then holds. *)
Theorem proxies_start_at_most_once launches fs σ σ1 n :
  ProxyManager.start_proxies launches fs σ = (σ1, inr n) →
  ((n = -1 ∧ (σ1 = σ ∨ σ1 = ProxyManager.disable σ)) ∨
   (0 ≤ n ∧ ProxyManager._is_running σ1 = true ∧ ProxyManager._is_running σ = false ∧
    ProxyManager.enabled σ = true ∧ ∃ cfg, fs = Some cfg)) ∧
  (fs = None ∨ 0 ≤ n →
   ∀ launches' fs', ProxyManager.start_proxies launches' fs' σ1 = (σ1, inr (-1))).
Proof.
  unfold ProxyManager.start_proxies at 1.
  destruct (ProxyManager._is_running σ) eqn:Hrun.
  { intros [= <- <-]. split; [left; split; [done | by left] |].
    intros _ launches' fs'. unfold ProxyManager.start_proxies. by rewrite Hrun. }
  destruct fs as [cfg |].
  - destruct (ProxyManager.enabled σ) eqn:Hen; simpl.
    + destruct (ProxyManager._load_config (Some cfg) σ) as [σ2 [x | commands]] eqn:Hload;
        [done |].
      destruct (ProxyManager.launch_all launches commands σ2) as [σ3 [x | []]] eqn:Hlaunch;
        [done |].
      intros [= <- <-]. split.
      * right. split; [lia |]. split; [done |]. split; [done |]. split; [done |].
        by exists cfg.
      * intros _ launches' fs'. unfold ProxyManager.start_proxies. done.
    + intros [= <- <-]. split; [left; split; [done | by left] |].
      intros [[=] | ?]; lia.
  - simpl. intros [= <- <-]. split; [left; split; [done | by right] |].
    intros _ launches' fs'. by apply start_when_disabled.
Qed.

Lemma proxies_start_at_most_once_witness :
  ∃ σ1,
    ProxyManager.start_proxies (λ _, true) (Some Cases.two_proxies) ProxyManager.initial
    = (σ1, inr 2) ∧
    ProxyManager.start_proxies (λ _, true) (Some Cases.two_proxies) σ1 = (σ1, inr (-1)).
Proof.
  destruct (ProxyManager.start_proxies (λ _, true) (Some Cases.two_proxies)
              ProxyManager.initial) as [σ1 r] eqn:Hstart.
  assert (r = inr 2) as -> by (vm_compute in Hstart; by injection Hstart as _ <-).
  exists σ1. split; [reflexivity |].
  destruct (proxies_start_at_most_once _ _ _ _ _ Hstart) as [_ Hagain].
  apply Hagain. right. lia.
Defined.

Lemma commands_from_ports _bin_path base i nodes :
  ∃ commands,
    ProxyManager.commands_from _bin_path (Some base) i nodes = inr commands ∧
    commands.*2 = (λ k, base + k) <$> seqZ i (Z.of_nat (length nodes)) ∧
    Forall2 (λ n c, c.1 = ProxyManager.command_of _bin_path c.2 n) nodes commands.
Proof.
  revert i. induction nodes as [| n nodes IH]; intros i.
  - exists []. split; [done |]. split; [done | constructor].
  - destruct (IH (i + 1)) as (commands & Hc & Hports & Hcmds).
    simpl. rewrite Hc. eexists. split; [done |]. split.
    + rewrite Nat2Z.inj_succ, seqZ_cons by lia. csimpl. f_equal.
      replace (Z.pred (Z.succ (Z.of_nat (length nodes)))) with (Z.of_nat (length nodes))
        by lia.
      replace (Z.succ i) with (i + 1) by lia. exact Hports.
    + by constructor.
Qed.

Lemma launch_all_succeeds commands σ :
  ∃ σ',
    ProxyManager.launch_all (λ _, true) commands σ = (σ', inr tt) ∧
    ProxyManager._proxies σ'
    = ProxyManager._proxies σ ++ (ProxyManager.proxy_of <$> commands.*2) ∧
    ProxyManager._processes σ' = ProxyManager._processes σ ++ commands.*1 ∧
    ProxyManager.alive σ' = ProxyManager.alive σ ++ commands.*1.
Proof.
  revert σ. induction commands as [| [cmd local_port] commands IH]; intros σ; simpl.
  - exists σ. by rewrite !app_nil_r.
  - destruct (IH {| ProxyManager._processes := ProxyManager._processes σ ++ [cmd];
                    ProxyManager._proxies :=
                      ProxyManager._proxies σ ++ [ProxyManager.proxy_of local_port];
                    ProxyManager._bin_path := ProxyManager._bin_path σ;
                    ProxyManager._commands := ProxyManager._commands σ;
                    ProxyManager._is_running := ProxyManager._is_running σ;
                    ProxyManager.enabled := ProxyManager.enabled σ;
                    ProxyManager.alive := ProxyManager.alive σ ++ [cmd] |})
      as (σ' & Hl & Hp & Hpr & Ha).
    exists σ'. split; [done |]. simpl in *. rewrite Hp, Hpr, Ha, <- !app_assoc. done.
Qed.

(** A first start with a proxy file that gives a base port, when every
    process launches: one proxy is registered for every entry of the
    file, in order, the entry number [k] listening on the local port
    [base_port + k] for both [http] and [https]; the count returned is
    the number of entries; and [get_random_proxy] then hands out one of
    the registered proxies, or [None] when the file lists no entry. *)
Theorem started_proxies_listen_on_consecutive_ports cfg base draw :
  ProxyManager.base_port cfg = Some base →
  ∃ σ1,
    ProxyManager.start_proxies (λ _, true) (Some cfg) ProxyManager.initial
    = (σ1, inr (Z.of_nat (length (ProxyManager.proxies cfg)))) ∧
    ProxyManager._proxies σ1
    = (λ k, ProxyManager.proxy_of (base + k))
        <$> seqZ 0 (Z.of_nat (length (ProxyManager.proxies cfg))) ∧
    ProxyManager._processes σ1 = ProxyManager.alive σ1 ∧
    length (ProxyManager._processes σ1) = length (ProxyManager.proxies cfg) ∧
    match ProxyManager.get_random_proxy draw σ1 with
    | Some proxy => proxy ∈ ProxyManager._proxies σ1
    | None => ProxyManager.proxies cfg = []
    end.
Proof.
  intros Hbase. unfold ProxyManager.start_proxies, ProxyManager._load_config. simpl.
  rewrite Hbase.
  destruct (commands_from_ports (ProxyManager.bin_path cfg) base 0
              (ProxyManager.proxies cfg)) as (commands & -> & Hports & Hcmds).
  match goal with |- context [ProxyManager.launch_all _ commands ?σ] =>
    destruct (launch_all_succeeds commands σ) as (σ' & -> & Hp & Hpr & Ha) end.
  simpl in Hp, Hpr, Ha.
  assert (length commands = length (ProxyManager.proxies cfg)) as Hlen
    by (symmetry; by eapply Forall2_length).
  exists (ProxyManager.set_running σ'). rewrite Hlen. split; [done |]. simpl.
  rewrite Hp, Hpr, Ha, Hports, <- list_fmap_compose.
  split; [done |]. split; [done |]. split; [by rewrite length_fmap |].
  unfold ProxyManager.get_random_proxy. simpl. rewrite Hp, Hports, <- list_fmap_compose.
  set (offered := (ProxyManager.proxy_of ∘ λ k, base + k)
                       <$> seqZ 0 (Z.of_nat (length (ProxyManager.proxies cfg)))).
  assert (length offered = length (ProxyManager.proxies cfg)) as Hreg.
  { subst offered. by rewrite length_fmap, length_seqZ, Nat2Z.id. }
  destruct offered as [| proxy others] eqn:Heq.
  - by destruct (ProxyManager.proxies cfg).
  - destruct (lookup_lt_is_Some_2 (proxy :: others)
                (draw `mod` length (proxy :: others))%nat) as [chosen Hchosen].
    { apply Nat.mod_upper_bound. simpl. lia. }
    rewrite Hchosen. by eapply list_elem_of_lookup_2.
Qed.

Lemma started_proxies_listen_on_consecutive_ports_witness :
  ∃ σ1,
    ProxyManager.start_proxies (λ _, true) (Some Cases.two_proxies) ProxyManager.initial
    = (σ1, inr 2) ∧
    ProxyManager._proxies σ1
    = [ProxyManager.proxy_of 1080; ProxyManager.proxy_of 1081] ∧
    ProxyManager.proxy_of 1081 !! "https" = Some "socks5h://127.0.0.1:1081".
Proof.
  destruct (started_proxies_listen_on_consecutive_ports Cases.two_proxies 1080 0 eq_refl)
    as (σ1 & Hstart & Hproxies & _).
  exists σ1. split; [exact Hstart |]. split; [exact Hproxies |].
  vm_compute. reflexivity.
Defined.
